(** * Floor-is-Lava: the real-time state pipeline

    A shallow embedding of the coordinate mappers ([mapping.py],
    [robust_mapping.py]), the debouncer ([smoothing.py]), the identity
    tracker ([tracker.py]) and the session logic of [robust_server.py],
    with the properties of the design document stated over them.

    Numbers.  Python integers are unbounded and are modelled by [Z].
    Python floats (pixel coordinates, homography entries, wall-clock
    seconds) are modelled by exact rationals [Q]: the development reads the
    float operations of the source as the arithmetic they approximate, and
    does not represent [inf] or [nan].

    Sets.  Python leaves the order in which a set is iterated to the
    implementation.  The one loop of the source that iterates a set, over
    the unused rows and columns of the tracker, takes its order from the
    interface [SetOrder]; the properties of the tracker and of the server
    hold for every order, and the examples run in the ascending one. *)

From Stdlib Require Import ZArith QArith Qround Lia Lqa List String Ascii Bool.
From Stdlib Require Import DecimalString.
From stdpp Require Import gmap strings list fin_maps.

Local Open Scope Z_scope.

(** ** Float helpers shared by the modules *)

Definition Qleb (a b : Q) : bool := Qle_bool a b.
Definition Qltb (a b : Q) : bool := negb (Qle_bool b a).

(** [np.clip(v, lo, hi)] is [minimum(maximum(v, lo), hi)]. *)
Definition clip (v lo hi : Z) : Z := Z.min (Z.max v lo) hi.
Definition Qmaximum (a b : Q) : Q := if Qltb a b then b else a.
Definition Qminimum (a b : Q) : Q := if Qltb b a then b else a.
Definition Qclip (v lo hi : Q) : Q := Qminimum (Qmaximum v lo) hi.

(** The constant [1e-9] that guards the homogeneous division. *)
Definition eps : Q := 1 # 1000000000.

Definition vec3 : Type := Q * Q * Q.
Definition mat3 : Type := vec3 * vec3 * vec3.

(** [H.dot(pt)] for a 3x3 matrix and a 3-vector. *)
Definition dot (h : mat3) (pt : vec3) : vec3 :=
  let '(r0, r1, r2) := h in
  let row (r : vec3) : Q :=
    let '(a, b, c) := r in
    let '(x, y, z) := pt in (a * x + b * y + c * z)%Q in
  (row r0, row r1, row r2).

Definition eye3 : mat3 := ((1, 0, 0), (0, 1, 0), (0, 0, 1))%Q.

(** [range(n)] for an integer [n]. *)
Definition py_range (n : Z) : list Z := map Z.of_nat (seq 0 (Z.to_nat n)).

(** ** mapping.py: [PixelToGridMapper] *)

Module Mapping.

Record PixelToGridMapper : Type := {
  H : option mat3;
  rows : Z;
  cols : Z
}.

Definition is_ready (self : PixelToGridMapper) : bool :=
  match H self with Some _ => true | None => false end.

Definition pixel_to_grid_float (self : PixelToGridMapper) (x y : Q) : Q * Q :=
  match H self with
  | None => (-1, -1)%Q
  | Some h =>
      let '(w0, w1, w2) := dot h (x, y, 1%Q) in
      let d := (w2 + eps)%Q in
      let X := (w0 / d)%Q in
      let Y := (w1 / d)%Q in
      (Y, X)
  end.

Definition pixel_to_grid_cell (self : PixelToGridMapper) (x y : Q)
  : Z * Z * bool :=
  let '(row_f, col_f) := pixel_to_grid_float self x y in
  let row := clip (Qfloor row_f) 0 (rows self - 1) in
  let col := clip (Qfloor col_f) 0 (cols self - 1) in
  let outside :=
    Qltb row_f 0 || Qltb col_f 0
    || Qleb (inject_Z (rows self)) row_f
    || Qleb (inject_Z (cols self)) col_f in
  (row, col, outside).

(** The lines of the grid in grid space, as pairs of (row, col) points:
    the [rows + 1] horizontal ones, then the [cols + 1] vertical ones. *)
Definition grid_lines (self : PixelToGridMapper)
  : list ((Z * Z) * (Z * Z)) :=
  map (fun r => ((r, 0), (r, cols self))) (py_range (rows self + 1))
  ++ map (fun c => ((0, c), (rows self, c))) (py_range (cols self + 1)).

End Mapping.

(** ** robust_mapping.py: [RobustPixelToGridMapper] *)

Module RobustMapping.

Record RobustPixelToGridMapper : Type := {
  H : option mat3;
  rows : Z;
  cols : Z;
  marker_corners : option (list (Q * Q))
}.

Definition is_ready (self : RobustPixelToGridMapper) : bool :=
  match H self with Some _ => true | None => false end.

Definition set_marker_corners (self : RobustPixelToGridMapper)
    (corners : list (Q * Q)) : RobustPixelToGridMapper :=
  {| H := H self; rows := rows self; cols := cols self;
     marker_corners := Some corners |}.

(** The early return hands back the sentinel unclamped; with a transform
    loaded the projected point is clamped into [0, rows] x [0, cols]
    before it is returned. *)
Definition pixel_to_grid_float (self : RobustPixelToGridMapper) (x y : Q)
  : Q * Q :=
  match H self with
  | None => (-1, -1)%Q
  | Some h =>
      let '(w0, w1, w2) := dot h (x, y, 1%Q) in
      let d := (w2 + eps)%Q in
      let col := (w0 / d)%Q in
      let row := (w1 / d)%Q in
      let row := Qclip row 0 (inject_Z (rows self)) in
      let col := Qclip col 0 (inject_Z (cols self)) in
      (row, col)
  end.

Definition pixel_to_grid_cell (self : RobustPixelToGridMapper) (x y : Q)
  : Z * Z * bool :=
  let '(row_f, col_f) := pixel_to_grid_float self x y in
  let row := clip (Qfloor row_f) 0 (rows self - 1) in
  let col := clip (Qfloor col_f) 0 (cols self - 1) in
  let outside :=
    Qltb row_f 0 || Qltb col_f 0
    || Qleb (inject_Z (rows self)) row_f
    || Qleb (inject_Z (cols self)) col_f in
  (row, col, outside).

End RobustMapping.


(** ** Exceptions and mutable state

    A method that mutates [self] and may raise is a function from the state
    before to an outcome that carries the state after: an exception keeps
    the mutations made before it was raised, as in Python. *)

Inductive exn : Type :=
  IndexError | KeyError | ValueError | TypeError | AttributeError.

Inductive result (S A : Type) : Type :=
| Ok (a : A) (s : S)
| Raise (e : exn) (s : S).
Arguments Ok {S A} a s.
Arguments Raise {S A} e s.

Definition M (S A : Type) : Type := S -> result S A.

Definition ret {S A : Type} (a : A) : M S A := fun s => Ok a s.
Definition raise {S A : Type} (e : exn) : M S A := fun s => Raise e s.
Definition bind {S A B : Type} (c : M S A) (k : A -> M S B) : M S B :=
  fun s => match c s with
           | Ok a s' => k a s'
           | Raise e s' => Raise e s'
           end.
Definition gets {S A : Type} (f : S -> A) : M S A := fun s => Ok (f s) s.
Definition modify {S : Type} (f : S -> S) : M S unit := fun s => Ok tt (f s).

(** [x[i]] on an optional read: [None] raises [e]. *)
Definition or_raise {S A : Type} (e : exn) (o : option A) : M S A :=
  match o with Some a => ret a | None => raise e end.

Declare Scope py_scope.
Delimit Scope py_scope with py.
Notation "'let!' x ':=' c 'in' k" := (bind c (fun x => k))
  (at level 10, x name, c at level 100, k at level 200) : py_scope.
Notation "'run!' c 'in' k" := (bind c (fun _ => k))
  (at level 10, c at level 100, k at level 200) : py_scope.

(** The state an outcome leaves behind. *)
Definition final {S A : Type} (r : result S A) : S :=
  match r with Ok _ s => s | Raise _ s => s end.

Definition is_ok {S A : Type} (r : result S A) : bool :=
  match r with Ok _ _ => true | Raise _ _ => false end.

(** [for x in l: body(x)] *)
Fixpoint for_each {S A : Type} (l : list A) (body : A -> M S unit) : M S unit :=
  match l with
  | [] => ret tt
  | x :: l' => bind (body x) (fun _ => for_each l' body)
  end.

(** [for x in l: acc = body(x, acc)], for loops that carry local variables. *)
Fixpoint fold_each {S A B : Type} (l : list A) (body : A -> B -> M S B)
    (acc : B) : M S B :=
  match l with
  | [] => ret acc
  | x :: l' => bind (body x acc) (fun acc' => fold_each l' body acc')
  end.

(** [c] keeps the property [P] of the state, whether it returns or raises. *)
Definition preserves {S A : Type} (P : S -> Prop) (c : M S A) : Prop :=
  forall s, P s -> P (final (c s)).

(** [c] reads the state but never changes it. *)
Definition stateless {S A : Type} (c : M S A) : Prop :=
  forall s, final (c s) = s.

(** ** Insertion-ordered dictionaries with integer keys

    [list(d.keys())[i]] depends on the order in which the keys were
    inserted, so the dictionaries of the tracker are association lists:
    assignment to a present key keeps its place, assignment to an absent
    key appends, [del] removes. *)

Definition dict (V : Type) : Type := list (Z * V).

Definition dict_keys {V : Type} (d : dict V) : list Z := map fst d.

Fixpoint dict_get {V : Type} (k : Z) (d : dict V) : option V :=
  match d with
  | [] => None
  | (k', v) :: d' => if Z.eqb k k' then Some v else dict_get k d'
  end.

Fixpoint dict_set {V : Type} (k : Z) (v : V) (d : dict V) : dict V :=
  match d with
  | [] => [(k, v)]
  | (k', v') :: d' =>
      if Z.eqb k k' then (k', v) :: d' else (k', v') :: dict_set k v d'
  end.

(** [del d[k]]; [None] stands for the [KeyError] of an absent key. *)
Fixpoint dict_del {V : Type} (k : Z) (d : dict V) : option (dict V) :=
  match d with
  | [] => None
  | (k', v') :: d' =>
      if Z.eqb k k' then Some d'
      else match dict_del k d' with
           | Some d'' => Some ((k', v') :: d'')
           | None => None
           end
  end.

(** The keys that [del d[k]] leaves. *)
Fixpoint del_key (k : Z) (l : list Z) : list Z :=
  match l with
  | [] => []
  | k' :: l' => if Z.eqb k k' then l' else k' :: del_key k l'
  end.

(** ** Iteration over a set of indices

    [for i in set(range(0, n)).difference(used)] visits every index below
    [n] that is not in [used] once, in an order that Python leaves to the
    implementation.  CPython walks the slots of the hash table: indices
    below 8, the size of its smallest table, come out ascending, while of
    nine rows the unused rows 1 and 8 come out as 8, 1.  The order is
    therefore an interface of the embedding, and what is proved of the
    tracker holds for every order. *)

Class SetOrder : Type := {
  difference_order : nat -> gset nat -> list nat;
  difference_order_perm (n : nat) (used : gset nat) :
    difference_order n used ≡ₚ elements (list_to_set (seq 0 n) ∖ used)
}.

(** The ascending order: the order of CPython for fewer than nine rows and
    columns, and the order of the examples. *)
Definition ascending_order : SetOrder.
Proof.
  refine {| difference_order n used :=
              List.filter (fun i => negb (bool_decide (i ∈ used)))
                (seq 0 n) |}.
  intros n used. apply NoDup_Permutation.
  - apply NoDup_ListNoDup, List.NoDup_filter, seq_NoDup.
  - apply NoDup_elements.
  - intros x.
    rewrite list_elem_of_In, filter_In, in_seq, negb_true_iff,
      bool_decide_eq_false, elem_of_elements, elem_of_difference,
      elem_of_list_to_set, elem_of_seq.
    reflexivity.
Defined.

(** ** smoothing.py: [LavaSmoother] *)

Module Smoothing.

(** The per-key dictionary of [self.state]. *)
Record FootState : Type := {
  last_frame : Z;
  lava_run : Z;
  safe_run : Z;
  is_on_lava : bool;
  last_cell : Z * Z
}.

Record LavaSmoother : Type := {
  k : Z;
  m : Z;
  state : gmap (Z * string) FootState;
  frame_index : Z
}.

Definition init (k_consecutive m_clear : Z) : LavaSmoother :=
  {| k := k_consecutive; m := m_clear; state := ∅; frame_index := 0 |}.

Definition next_frame (self : LavaSmoother) : LavaSmoother :=
  {| k := k self; m := m self; state := state self;
     frame_index := frame_index self + 1 |}.

(** The entry created on the first observation of a key. *)
Definition fresh (self : LavaSmoother) (row col : Z) : FootState :=
  {| last_frame := frame_index self; lava_run := 0; safe_run := 0;
     is_on_lava := false; last_cell := (row, col) |}.

(** The body of [observe] on the entry [s] of the key: the new entry and
    the value returned. *)
Definition observe_entry (self : LavaSmoother) (s : FootState)
    (row col : Z) (is_lava : bool) : FootState * bool :=
  let last_cell' := (row, col) in
  let last_frame' := frame_index self in
  let lava_run' := if is_lava then lava_run s + 1 else 0 in
  let safe_run' := if is_lava then 0 else safe_run s + 1 in
  let triggered :=
    is_lava && negb (is_on_lava s) && (k self <=? lava_run') in
  let on1 := if triggered then true else is_on_lava s in
  let on2 :=
    if on1 && negb is_lava && (m self <=? safe_run') then false else on1 in
  ({| last_frame := last_frame'; lava_run := lava_run';
      safe_run := safe_run'; is_on_lava := on2; last_cell := last_cell' |},
   triggered).

Definition entry (self : LavaSmoother) (key : Z * string) (row col : Z)
  : FootState :=
  match state self !! key with
  | Some s => s
  | None => fresh self row col
  end.

Definition observe (self : LavaSmoother) (player_id : Z) (foot : string)
    (row col : Z) (is_lava : bool) : bool * LavaSmoother :=
  let key := (player_id, foot) in
  let s := entry self key row col in
  let '(s', triggered) := observe_entry self s row col is_lava in
  (triggered,
   {| k := k self; m := m self; state := <[key := s']> (state self);
      frame_index := frame_index self |}).

(** The test harness: [next_frame] then [observe] on one key, once per
    observation; the list of values returned. *)
Fixpoint feed (self : LavaSmoother) (player_id : Z) (foot : string)
    (row col : Z) (obs : list bool) : list bool * LavaSmoother :=
  match obs with
  | [] => ([], self)
  | b :: obs' =>
      let '(t, self') := observe (next_frame self) player_id foot row col b in
      let '(ts, self'') := feed self' player_id foot row col obs' in
      (t :: ts, self'')
  end.

(** A history of calls on a smoother, and the state it leads to. *)
Inductive call : Type :=
| NextFrame
| Observe (player_id : Z) (foot : string) (row col : Z) (is_lava : bool).

Definition step (self : LavaSmoother) (c : call) : LavaSmoother :=
  match c with
  | NextFrame => next_frame self
  | Observe player_id foot row col is_lava =>
      snd (observe self player_id foot row col is_lava)
  end.

Definition after (calls : list call) (self : LavaSmoother) : LavaSmoother :=
  fold_left step calls self.

(** The counters of an entry count observations. *)
Definition counters_ok (s : FootState) : Prop :=
  0 <= lava_run s /\ 0 <= safe_run s.

(** An entry that is not flagged has not yet had [K] hazard
    observations in a row. *)
Definition idle_below (K : Z) (s : FootState) : Prop :=
  is_on_lava s = false -> lava_run s < K.

(** Exactly one of the two run counters of an entry is non-zero. *)
Definition one_run (s : FootState) : Prop :=
  (lava_run s <> 0 /\ safe_run s = 0) \/ (lava_run s = 0 /\ safe_run s <> 0).

(** The calls of a history that observe the key [(player_id, foot)]. *)
Definition on_key (player_id : Z) (foot : string) (c : call) : bool :=
  match c with
  | NextFrame => false
  | Observe p f _ _ _ => bool_decide ((p, f) = (player_id, foot))
  end.

End Smoothing.

(** ** tracker.py: [MultiPersonTracker] *)

Module Tracker.

(** One limb sample [{'pixel': [x, y], 'confidence': c}]; the confidence
    is read with [.get('confidence', 0.0)], so it may be absent. *)
Record Limb : Type := {
  pixel : Q * Q;
  confidence : option Q
}.

Record Detection : Type := {
  left : Limb;
  right : Limb
}.

Record Track : Type := {
  last_det : Detection;
  centroid : Q * Q
}.

Record MultiPersonTracker : Type := {
  next_id : Z;
  objects : dict Track;
  disappeared : dict Z;
  max_disappeared : Z;
  max_distance : Q
}.

Definition init (max_disappeared0 : Z) (max_distance0 : Q)
  : MultiPersonTracker :=
  {| next_id := 0; objects := []; disappeared := [];
     max_disappeared := max_disappeared0; max_distance := max_distance0 |}.

Definition set_next_id (v : Z) (self : MultiPersonTracker) :=
  {| next_id := v; objects := objects self;
     disappeared := disappeared self;
     max_disappeared := max_disappeared self;
     max_distance := max_distance self |}.

Definition set_objects (v : dict Track) (self : MultiPersonTracker) :=
  {| next_id := next_id self; objects := v;
     disappeared := disappeared self;
     max_disappeared := max_disappeared self;
     max_distance := max_distance self |}.

Definition set_disappeared (v : dict Z) (self : MultiPersonTracker) :=
  {| next_id := next_id self; objects := objects self;
     disappeared := v;
     max_disappeared := max_disappeared self;
     max_distance := max_distance self |}.

Definition _get_centroid (detection : Detection) : Q * Q :=
  let left_pixel := pixel (left detection) in
  let right_pixel := pixel (right detection) in
  (((fst left_pixel + fst right_pixel) / 2)%Q,
   ((snd left_pixel + snd right_pixel) / 2)%Q).

Definition _get_detection_centroids (detections : list Detection)
  : list (Q * Q) :=
  map _get_centroid detections.

Definition _register (detection : Detection) : M MultiPersonTracker unit :=
  fun self =>
    let person_id := next_id self in
    let self := set_next_id (next_id self + 1) self in
    let c := _get_centroid detection in
    let self :=
      set_objects
        (dict_set person_id {| last_det := detection; centroid := c |}
           (objects self)) self in
    Ok tt (set_disappeared (dict_set person_id 0 (disappeared self)) self).

Definition _deregister (person_id : Z) : M MultiPersonTracker unit :=
  fun self =>
    match dict_del person_id (objects self) with
    | None => Raise KeyError self
    | Some o =>
        let self := set_objects o self in
        match dict_del person_id (disappeared self) with
        | None => Raise KeyError self
        | Some d => Ok tt (set_disappeared d self)
        end
    end.

(** The body shared by the two aging loops:
    [self.disappeared[person_id] += 1], then [_deregister] once the count
    exceeds [max_disappeared]. *)
Definition mark_disappeared (person_id : Z) : M MultiPersonTracker unit :=
  fun self =>
    match dict_get person_id (disappeared self) with
    | None => Raise KeyError self
    | Some n =>
        let self :=
          set_disappeared (dict_set person_id (n + 1) (disappeared self))
            self in
        if max_disappeared self <? n + 1
        then _deregister person_id self
        else Ok tt self
    end.

(** *** The distance matrix

    [np.linalg.norm] is read through its square: the entries of [D] are
    squared Euclidean distances, which order pairs as the distances do,
    and [D[row, col] > max_distance] compares with the squared bound. *)
Definition dist2 (a b : Q * Q) : Q :=
  ((fst a - fst b) * (fst a - fst b) + (snd a - snd b) * (snd a - snd b))%Q.

Definition exceeds (d2 bound : Q) : bool :=
  Qltb bound 0 || Qltb (bound * bound) d2.

Definition distance_matrix (object_centroids detection_centroids : list (Q * Q))
  : list (list Q) :=
  map (fun oc => map (fun dc => dist2 oc dc) detection_centroids)
    object_centroids.

(** [v.min()] and [v.argmin()] of a non-empty row; the first minimum wins. *)
Fixpoint argmin_from (i best : nat) (bv : Q) (l : list Q) : nat * Q :=
  match l with
  | [] => (best, bv)
  | v :: l' =>
      if Qltb v bv then argmin_from (S i) i v l'
      else argmin_from (S i) best bv l'
  end.

Definition argmin (l : list Q) : nat :=
  match l with
  | [] => 0%nat
  | v :: l' => fst (argmin_from 1 0 v l')
  end.

Definition row_min (l : list Q) : Q :=
  match l with
  | [] => 0%Q
  | v :: l' => snd (argmin_from 1 0 v l')
  end.

(** [v.argsort()]: the indices in ascending order of value, equal values
    in index order (numpy sorts short arrays by insertion). *)
Fixpoint insert_by (x : nat * Q) (l : list (nat * Q)) : list (nat * Q) :=
  match l with
  | [] => [x]
  | y :: l' =>
      if Qleb (snd x) (snd y) then x :: l else y :: insert_by x l'
  end.

Definition argsort (v : list Q) : list nat :=
  map fst (foldr insert_by [] (combine (seq 0 (length v)) v)).

(** One iteration of [for (row, col) in zip(rows, cols)]; the pair of
    sets is [(used_row_indices, used_col_indices)]. *)
Definition match_pair (detections : list Detection)
    (detection_centroids : list (Q * Q)) (D : list (list Q))
    (rc : nat * nat) (used : gset nat * gset nat)
  : M MultiPersonTracker (gset nat * gset nat) :=
  let '(row, col) := rc in
  let '(used_row_indices, used_col_indices) := used in
  if bool_decide (row ∈ used_row_indices)
     || bool_decide (col ∈ used_col_indices)
  then ret used
  else
    (let! d := or_raise IndexError (D !! row ≫= (.!! col)) in
     let! bound := gets max_distance in
     if exceeds d bound then ret used
     else
       let! keys := gets (fun self => dict_keys (objects self)) in
       let! person_id := or_raise IndexError (keys !! row) in
       let! det := or_raise IndexError (detections !! col) in
       let! c := or_raise IndexError (detection_centroids !! col) in
       run! modify (fun self =>
               set_objects
                 (dict_set person_id {| last_det := det; centroid := c |}
                    (objects self)) self) in
       run! modify (fun self =>
               set_disappeared (dict_set person_id 0 (disappeared self))
                 self) in
       ret (used_row_indices ∪ {[row]}, used_col_indices ∪ {[col]}))%py.

(** [set(range(0, n)).difference(used)], in the order in which the loop
    over it visits its elements. *)
Definition unused `{SetOrder} (n : nat) (used_indices : gset nat) : list nat :=
  difference_order n used_indices.

(** The body of [for row in unused_rows]: the key list is read afresh
    from [self.objects] at every iteration. *)
Definition age_row (row : nat) : M MultiPersonTracker unit :=
  (let! keys := gets (fun self => dict_keys (objects self)) in
   let! person_id := or_raise IndexError (keys !! row) in
   mark_disappeared person_id)%py.

Definition register_col (detections : list Detection) (col : nat)
  : M MultiPersonTracker unit :=
  (let! det := or_raise IndexError (detections !! col) in
   _register det)%py.

(** The greedy matching of the [else] branch: the row order, the column
    chosen for each row, and the loop over the pairs. *)
Definition matching (detections : list Detection)
  : M MultiPersonTracker (gset nat * gset nat) :=
  (let! object_centroids :=
     gets (fun self => map (fun kv => centroid (snd kv)) (objects self)) in
   let detection_centroids := _get_detection_centroids detections in
   let D := distance_matrix object_centroids detection_centroids in
   let rows := argsort (map row_min D) in
   let argmins := map argmin D in
   let cols := map (fun r => nth r argmins 0%nat) rows in
   fold_each (combine rows cols)
     (match_pair detections detection_centroids D) (∅, ∅))%py.

Definition update `{SetOrder} (detections : list Detection)
  : M MultiPersonTracker (dict Track) :=
  (if (length detections =? 0)%nat then
     let! ids := gets (fun self => dict_keys (disappeared self)) in
     run! for_each ids mark_disappeared in
     gets objects
   else
     let! n_objects := gets (fun self => length (objects self)) in
     run! (if (n_objects =? 0)%nat then for_each detections _register
           else
             let! used := matching detections in
             let '(used_row_indices, used_col_indices) := used in
             let n_detections := length detections in
             let unused_rows := unused n_objects used_row_indices in
             let unused_cols := unused n_detections used_col_indices in
             if (n_detections <=? n_objects)%nat
             then for_each unused_rows age_row
             else for_each unused_cols (register_col detections)) in
     gets objects)%py.

(** A run of the tracker over the detections of successive ticks, from
    the state [self]; an exception ends a tick but not the object. *)
Definition run `{SetOrder} (batches : list (list Detection))
    (self : MultiPersonTracker) : MultiPersonTracker :=
  fold_left (fun s dets => final (update dets s)) batches self.

(** The identities of the live tracks, in the order of the dictionary. *)
Definition ids (self : MultiPersonTracker) : list Z :=
  dict_keys (objects self).

(** The two dictionaries hold the same identities, each once, and every
    one of them was handed out by the counter. *)
Definition wf (self : MultiPersonTracker) : Prop :=
  dict_keys (disappeared self) = dict_keys (objects self)
  /\ NoDup (dict_keys (objects self))
  /\ 0 <= next_id self
  /\ forall k, k ∈ dict_keys (objects self) -> 0 <= k < next_id self.

(** [s1] is [s] after the tracks at the rows [used_rows] have each taken
    a detection: the same identities in the same order, the counter of a
    matched track reset, an unmatched track as it was. *)
Definition matched (s s1 : MultiPersonTracker) (used_rows : gset nat) : Prop :=
  next_id s1 = next_id s
  /\ max_disappeared s1 = max_disappeared s
  /\ max_distance s1 = max_distance s
  /\ dict_keys (objects s1) = dict_keys (objects s)
  /\ dict_keys (disappeared s1) = dict_keys (disappeared s)
  /\ forall i pid, dict_keys (objects s) !! i = Some pid ->
       if bool_decide (i ∈ used_rows)
       then dict_get pid (disappeared s1) = Some 0
       else dict_get pid (disappeared s1) = dict_get pid (disappeared s)
            /\ dict_get pid (objects s1) = dict_get pid (objects s).

(** The track that [_register] stores for a detection. *)
Definition new_track (detection : Detection) : Track :=
  {| last_det := detection; centroid := _get_centroid detection |}.

(** From [s] to [s']: the counter has not gone back, the thresholds are
    the same, and an identity of [s'] is one of [s] or was handed out
    since. *)
Definition extends (s s' : MultiPersonTracker) : Prop :=
  next_id s <= next_id s'
  /\ max_disappeared s' = max_disappeared s
  /\ max_distance s' = max_distance s
  /\ forall k, k ∈ ids s' -> k ∈ ids s \/ next_id s <= k.

(** No live track has been missing for more than [max_disappeared]
    updates in a row. *)
Definition counters_bounded (self : MultiPersonTracker) : Prop :=
  forall pid n, dict_get pid (disappeared self) = Some n ->
    0 <= n <= Z.max 0 (max_disappeared self).

(** A list of identities in strictly ascending order. *)
Fixpoint ascending (l : list Z) : Prop :=
  match l with
  | [] => True
  | x :: l' => (forall y, y ∈ l' -> x < y) /\ ascending l'
  end.

(** The row of a track in the matrix [D]: its squared distances to the
    detections of the tick. *)
Definition distances (track : Track) (detections : list Detection) : list Q :=
  map (fun det => dist2 (centroid track) (_get_centroid det)) detections.

(** The column that [D.argmin(axis=1)] holds for the track: its nearest
    detection, the first one of them when several are as near. *)
Definition nearest (track : Track) (detections : list Detection) : nat :=
  argmin (distances track detections).

(** [s1] is [s] after each row of [used_rows] has taken the detection at
    its column [choice]: the track holds that detection, which lies within
    [max_distance]; [used_cols] are the columns taken, each by one row. *)
Definition assigned (detections : list Detection) (D : list (list Q))
    (choice : nat -> nat) (s s1 : MultiPersonTracker)
    (used_rows used_cols : gset nat) : Prop :=
  (forall i, i ∈ used_rows ->
     exists pid det d,
       dict_keys (objects s) !! i = Some pid
       /\ detections !! choice i = Some det
       /\ dict_get pid (objects s1) = Some (new_track det)
       /\ D !! i ≫= (.!! (choice i)) = Some d
       /\ exceeds d (max_distance s) = false)
  /\ (forall c, c ∈ used_cols <-> exists i, i ∈ used_rows /\ choice i = c)
  /\ (forall i i', i ∈ used_rows -> i' ∈ used_rows ->
        choice i = choice i' -> i = i').

End Tracker.

(** ** pose_tracker.py: [PoseTracker] *)

Module PoseTracker.

(** The detector of the repository is a stub: whatever the frame, it
    returns no detection. *)
Definition process {Frame : Type} (frame : Frame) : list Tracker.Detection :=
  [].

End PoseTracker.

(** ** JSON values as [json.loads] returns them *)

#[local] Unset Elimination Schemes.
Inductive json : Type :=
| JNull
| JBool (b : bool)
| JInt (z : Z)
| JFloat (q : Q)
| JStr (s : string)
| JList (l : list json)
| JDict (d : list (string * json)).
#[local] Set Elimination Schemes.

(** [d.get(key)] on the items of a dictionary. *)
Fixpoint json_get (key : string) (d : list (string * json)) : option json :=
  match d with
  | [] => None
  | (k, v) :: d' => if String.eqb key k then Some v else json_get key d'
  end.

(** [int(x)] on a float truncates toward zero. *)
Definition int_of_float (q : Q) : Z := Z.quot (Qnum q) (Zpos (Qden q)).

(** [int(s)] on a string, for ASCII input: surrounding white space, an
    optional sign, decimal digits with single underscores between them. *)
Definition is_space (c : ascii) : bool :=
  let n := nat_of_ascii c in
  ((9 <=? n) && (n <=? 13) || (28 <=? n) && (n <=? 32))%nat.

Definition digit_of (c : ascii) : option Z :=
  let n := Z.of_nat (nat_of_ascii c) in
  if (48 <=? n) && (n <=? 57) then Some (n - 48) else None.

Fixpoint parse_digits (s : list ascii) (acc : Z) (after_digit : bool)
  : option Z :=
  match s with
  | [] => if after_digit then Some acc else None
  | c :: s' =>
      match digit_of c with
      | Some d => parse_digits s' (10 * acc + d) true
      | None =>
          if Ascii.eqb c "_"%char && after_digit
          then parse_digits s' acc false
          else None
      end
  end.

Fixpoint lstrip (s : list ascii) : list ascii :=
  match s with
  | c :: s' => if is_space c then lstrip s' else s
  | [] => []
  end.

Definition strip (s : list ascii) : list ascii :=
  rev (lstrip (rev (lstrip s))).

Definition int_of_str (s : string) : option Z :=
  match strip (list_ascii_of_string s) with
  | c :: s' =>
      if Ascii.eqb c "-"%char then Z.opp <$> parse_digits s' 0 false
      else if Ascii.eqb c "+"%char then parse_digits s' 0 false
      else parse_digits (c :: s') 0 false
  | [] => None
  end.

(** [int(x)] on a JSON value. *)
Definition py_int {S : Type} (x : json) : M S Z :=
  match x with
  | JInt z => ret z
  | JBool b => ret (if b then 1 else 0)
  | JFloat q => ret (int_of_float q)
  | JStr s => or_raise ValueError (int_of_str s)
  | JNull | JList _ | JDict _ => raise TypeError
  end.

(** [for t in x]: the items that iterating a JSON value yields. *)
Definition py_iter {S : Type} (x : json) : M S (list json) :=
  match x with
  | JList l => ret l
  | JStr s => ret (map (fun c => JStr (String c EmptyString))
                     (list_ascii_of_string s))
  | JDict d => ret (map (fun kv => JStr (fst kv)) d)
  | JNull | JBool _ | JInt _ | JFloat _ => raise TypeError
  end.

(** [str(n)] on an integer. *)
Definition str_of_int (z : Z) : string :=
  DecimalString.NilZero.string_of_int (Z.to_int z).

(** ** robust_server.py: [RobustLavaServer] *)

Module RobustServer.

Record FootData : Type := {
  pixel : Z * Z;
  grid : Z * Z;
  confidence : Q;
  oob : bool
}.

Record PersonData : Type := {
  person_id : Z;
  left_foot : FootData;
  right_foot : FootData;
  centroid : Q * Q
}.

(** The dictionary queued for an [event_on_lava] message. *)
Record CollisionEvent : Type := {
  ev_type : string;
  ev_timestamp : Z;
  ev_person_id : Z;
  ev_foot : string;
  ev_grid : Z * Z;
  ev_consecutive_frames : Z
}.

Record RobustLavaServer : Type := {
  clients : gset nat;
  rows : Z;
  cols : Z;
  demo_enabled : bool;
  demo_interval : Q;
  demo_tiles_num : Z;
  lava_tiles : gset (Z * Z);
  frame_id : Z;
  last_demo_time : Q;
  game_active : bool;
  collision_detected : bool;
  collision_message : string;
  last_collision_time : Q;
  collision_cooldown : Q;
  tracker : Tracker.MultiPersonTracker;
  mapper : RobustMapping.RobustPixelToGridMapper;
  smoother : Smoothing.LavaSmoother
}.

(** [__init__], from the values read out of the configuration and the
    mapper loaded from the calibration files. *)
Definition init (rows0 cols0 : Z) (demo_enabled0 : bool)
    (demo_interval0 : Q) (demo_tiles_num0 : Z)
    (mapper0 : RobustMapping.RobustPixelToGridMapper)
    (consecutive_frames clear_frames : Z) : RobustLavaServer :=
  {| clients := ∅; rows := rows0; cols := cols0;
     demo_enabled := demo_enabled0; demo_interval := demo_interval0;
     demo_tiles_num := demo_tiles_num0; lava_tiles := ∅; frame_id := 0;
     last_demo_time := 0; game_active := true;
     collision_detected := false; collision_message := "";
     last_collision_time := 0; collision_cooldown := 2;
     tracker := Tracker.init 30 50; mapper := mapper0;
     smoother := Smoothing.init consecutive_frames clear_frames |}.

Definition set_clients (v : gset nat) (self : RobustLavaServer) :=
  {| clients := v; rows := rows self; cols := cols self;
     demo_enabled := demo_enabled self; demo_interval := demo_interval self;
     demo_tiles_num := demo_tiles_num self; lava_tiles := lava_tiles self;
     frame_id := frame_id self; last_demo_time := last_demo_time self;
     game_active := game_active self;
     collision_detected := collision_detected self;
     collision_message := collision_message self;
     last_collision_time := last_collision_time self;
     collision_cooldown := collision_cooldown self; tracker := tracker self;
     mapper := mapper self; smoother := smoother self |}.

Definition set_lava_tiles (v : gset (Z * Z)) (self : RobustLavaServer) :=
  {| clients := clients self; rows := rows self; cols := cols self;
     demo_enabled := demo_enabled self; demo_interval := demo_interval self;
     demo_tiles_num := demo_tiles_num self; lava_tiles := v;
     frame_id := frame_id self; last_demo_time := last_demo_time self;
     game_active := game_active self;
     collision_detected := collision_detected self;
     collision_message := collision_message self;
     last_collision_time := last_collision_time self;
     collision_cooldown := collision_cooldown self; tracker := tracker self;
     mapper := mapper self; smoother := smoother self |}.

Definition set_frame_id (v : Z) (self : RobustLavaServer) :=
  {| clients := clients self; rows := rows self; cols := cols self;
     demo_enabled := demo_enabled self; demo_interval := demo_interval self;
     demo_tiles_num := demo_tiles_num self; lava_tiles := lava_tiles self;
     frame_id := v; last_demo_time := last_demo_time self;
     game_active := game_active self;
     collision_detected := collision_detected self;
     collision_message := collision_message self;
     last_collision_time := last_collision_time self;
     collision_cooldown := collision_cooldown self; tracker := tracker self;
     mapper := mapper self; smoother := smoother self |}.

Definition set_last_demo_time (v : Q) (self : RobustLavaServer) :=
  {| clients := clients self; rows := rows self; cols := cols self;
     demo_enabled := demo_enabled self; demo_interval := demo_interval self;
     demo_tiles_num := demo_tiles_num self; lava_tiles := lava_tiles self;
     frame_id := frame_id self; last_demo_time := v;
     game_active := game_active self;
     collision_detected := collision_detected self;
     collision_message := collision_message self;
     last_collision_time := last_collision_time self;
     collision_cooldown := collision_cooldown self; tracker := tracker self;
     mapper := mapper self; smoother := smoother self |}.

Definition set_game_active (v : bool) (self : RobustLavaServer) :=
  {| clients := clients self; rows := rows self; cols := cols self;
     demo_enabled := demo_enabled self; demo_interval := demo_interval self;
     demo_tiles_num := demo_tiles_num self; lava_tiles := lava_tiles self;
     frame_id := frame_id self; last_demo_time := last_demo_time self;
     game_active := v; collision_detected := collision_detected self;
     collision_message := collision_message self;
     last_collision_time := last_collision_time self;
     collision_cooldown := collision_cooldown self; tracker := tracker self;
     mapper := mapper self; smoother := smoother self |}.

(** The three assignments of a collision, and of a restart. *)
Definition set_collision (detected : bool) (message : string) (time : Q)
    (self : RobustLavaServer) :=
  {| clients := clients self; rows := rows self; cols := cols self;
     demo_enabled := demo_enabled self; demo_interval := demo_interval self;
     demo_tiles_num := demo_tiles_num self; lava_tiles := lava_tiles self;
     frame_id := frame_id self; last_demo_time := last_demo_time self;
     game_active := game_active self; collision_detected := detected;
     collision_message := message; last_collision_time := time;
     collision_cooldown := collision_cooldown self; tracker := tracker self;
     mapper := mapper self; smoother := smoother self |}.

Definition set_tracker (v : Tracker.MultiPersonTracker)
    (self : RobustLavaServer) :=
  {| clients := clients self; rows := rows self; cols := cols self;
     demo_enabled := demo_enabled self; demo_interval := demo_interval self;
     demo_tiles_num := demo_tiles_num self; lava_tiles := lava_tiles self;
     frame_id := frame_id self; last_demo_time := last_demo_time self;
     game_active := game_active self;
     collision_detected := collision_detected self;
     collision_message := collision_message self;
     last_collision_time := last_collision_time self;
     collision_cooldown := collision_cooldown self; tracker := v;
     mapper := mapper self; smoother := smoother self |}.

Definition set_smoother (v : Smoothing.LavaSmoother)
    (self : RobustLavaServer) :=
  {| clients := clients self; rows := rows self; cols := cols self;
     demo_enabled := demo_enabled self; demo_interval := demo_interval self;
     demo_tiles_num := demo_tiles_num self; lava_tiles := lava_tiles self;
     frame_id := frame_id self; last_demo_time := last_demo_time self;
     game_active := game_active self;
     collision_detected := collision_detected self;
     collision_message := collision_message self;
     last_collision_time := last_collision_time self;
     collision_cooldown := collision_cooldown self; tracker := tracker self;
     mapper := mapper self; smoother := v |}.

(** *** [_detect_person_feet] *)

Definition foot_data (self : RobustLavaServer) (limb : Tracker.Limb)
  : FootData :=
  let px := Tracker.pixel limb in
  let conf := default 0%Q (Tracker.confidence limb) in
  let '(row, col, outside) :=
    RobustMapping.pixel_to_grid_cell (mapper self) (fst px) (snd px) in
  {| pixel := (int_of_float (fst px), int_of_float (snd px));
     grid := (row, col); confidence := conf; oob := outside |}.

Definition person_data (self : RobustLavaServer)
    (item : Z * Tracker.Track) : PersonData :=
  let '(pid, track) := item in
  let det := Tracker.last_det track in
  {| person_id := pid;
     left_foot := foot_data self (Tracker.left det);
     right_foot := foot_data self (Tracker.right det);
     centroid := Tracker.centroid track |}.

(** [players_det] is what the external detector returned for the frame. *)
Definition _detect_person_feet `{SetOrder}
    (players_det : list Tracker.Detection)
  : M RobustLavaServer (list PersonData) :=
  fun self =>
    match Tracker.update players_det (tracker self) with
    | Ok tracks t' =>
        let self := set_tracker t' self in
        Ok (map (person_data self) tracks) self
    | Raise e t' => Raise e (set_tracker t' self)
    end.

(** *** [_check_lava_collisions] *)

(** The bytes of the message's leading symbol, as the source has them. *)
Definition flame : string :=
  string_of_list_ascii
    (map ascii_of_nat [195; 176; 197; 184; 226; 128; 157; 194; 165]%nat).

Definition message (pid row col : Z) : string :=
  (flame ++ " PERSON " ++ str_of_int pid ++ " STEPPED INTO LAVA! Grid: ("
   ++ str_of_int row ++ ", " ++ str_of_int col ++ ")")%string.

(** [is_lava] of a grid cell: [in_bounds and (row, col) in self.lava_tiles]. *)
Definition is_lava_at (self : RobustLavaServer) (cell : Z * Z) : bool :=
  let '(row, col) := cell in
  let in_bounds :=
    (0 <=? row) && (row <? rows self) && (0 <=? col) && (col <? cols self) in
  in_bounds && bool_decide ((row, col) ∈ lava_tiles self).

(** The body of the loop over the feet of a person.  [current_time] is
    the clock read at the top of [_check_lava_collisions]; [event_ms]
    is the later reading that stamps a queued event. *)
Definition check_foot (current_time : Q) (event_ms : Z) (pid : Z)
    (foot_name : string) (foot : FootData)
    (acc : RobustLavaServer * list CollisionEvent)
  : RobustLavaServer * list CollisionEvent :=
  let '(self, collision_events) := acc in
  let '(row, col) := grid foot in
  let is_lava := is_lava_at self (row, col) in
  let '(triggered, sm) :=
    Smoothing.observe (smoother self) pid foot_name row col is_lava in
  let self := set_smoother sm self in
  if triggered && is_lava && game_active self then
    if Qltb (collision_cooldown self)
         (current_time - last_collision_time self)
    then
      let self := set_collision true (message pid row col) current_time self in
      let collision_event :=
        {| ev_type := "event_on_lava"; ev_timestamp := event_ms;
           ev_person_id := pid; ev_foot := foot_name;
           ev_grid := (row, col);
           ev_consecutive_frames := Smoothing.k (smoother self) |} in
      (self, collision_events ++ [collision_event])
    else (self, collision_events)
  else (self, collision_events).

Definition check_person (current_time : Q) (event_ms : Z)
    (acc : RobustLavaServer * list CollisionEvent) (person : PersonData)
  : RobustLavaServer * list CollisionEvent :=
  let acc := check_foot current_time event_ms (person_id person) "left"
               (left_foot person) acc in
  check_foot current_time event_ms (person_id person) "right"
    (right_foot person) acc.

Definition _check_lava_collisions (current_time : Q) (event_ms : Z)
    (person_feet_data : list PersonData) (self : RobustLavaServer)
  : RobustLavaServer * list CollisionEvent :=
  fold_left (check_person current_time event_ms) person_feet_data (self, []).

(** The condition of the design document for an event on one foot
    observation: the debouncer triggered, the cell is a hazard, the session
    is active, and more than the cooldown has elapsed since the last
    event of any person. *)
Definition collision_fires (current_time : Q) (pid : Z) (foot_name : string)
    (foot : FootData) (self : RobustLavaServer) : bool :=
  let is_lava := is_lava_at self (grid foot) in
  let triggered :=
    fst (Smoothing.observe (smoother self) pid foot_name
           (fst (grid foot)) (snd (grid foot)) is_lava) in
  triggered && is_lava && game_active self
  && Qltb (collision_cooldown self) (current_time - last_collision_time self).

(** The event queued for a foot observation. *)
Definition event_for (event_ms pid : Z) (foot_name : string) (foot : FootData)
    (self : RobustLavaServer) : CollisionEvent :=
  {| ev_type := "event_on_lava"; ev_timestamp := event_ms;
     ev_person_id := pid; ev_foot := foot_name; ev_grid := grid foot;
     ev_consecutive_frames := Smoothing.k (smoother self) |}.

(** *** [_handle_message] *)

(** The body of [for t in incoming]. *)
Definition add_tile (t : json) (new_tiles : gset (Z * Z))
  : M RobustLavaServer (gset (Z * Z)) :=
  match t with
  | JList [t0; t1] =>
      (let! r := py_int t0 in
       let! c := py_int t1 in
       let! n_rows := gets rows in
       let! n_cols := gets cols in
       if (0 <=? r) && (r <? n_rows) && (0 <=? c) && (c <? n_cols)
       then ret (new_tiles ∪ {[ (r, c) ]})
       else ret new_tiles)%py
  | _ => ret new_tiles
  end.

(** [x == s] for the optional result [x] of a [.get] and a string. *)
Definition json_is_str (x : option json) (s : string) : bool :=
  match x with
  | Some (JStr s') => String.eqb s' s
  | _ => false
  end.

(** [data.get] needs a dictionary; any other value has no such method. *)
Definition _handle_message (data : json) : M RobustLavaServer unit :=
  match data with
  | JDict d =>
      if json_is_str (json_get "type" d) "tile_update" then
        (let! incoming :=
           py_iter (default (JList []) (json_get "lava_tiles" d)) in
         let! new_tiles := fold_each incoming add_tile ∅ in
         modify (set_lava_tiles new_tiles))%py
      else if json_is_str (json_get "type" d) "restart_game" then
        modify (fun self =>
                  set_collision false "" (last_collision_time self)
                    (set_game_active true self))
      else ret tt
  | _ => raise AttributeError
  end.

(** *** [_maybe_demo_tiles] *)

(** [random.randrange(n)]: the raw draw [r] reduced into [0, n); an
    empty range raises. *)
Definition randrange (n r : Z) : M RobustLavaServer Z :=
  if n <=? 0 then raise ValueError else ret (r mod n).

(** One iteration of the fill; [rand] supplies the raw draws. *)
Definition demo_tile (rand : nat -> Z) (i : nat) : M RobustLavaServer unit :=
  (let! n_rows := gets rows in
   let! r := randrange n_rows (rand (2 * i)%nat) in
   let! n_cols := gets cols in
   let! c := randrange n_cols (rand (2 * i + 1)%nat) in
   modify (fun self =>
             set_lava_tiles (lava_tiles self ∪ {[ (r, c) ]}) self))%py.

(** The cell of the [i]-th iteration of the fill,
    [(random.randrange(self.rows), random.randrange(self.cols))], on a
    grid with cells, and the cells of the [demo_tiles_num] iterations. *)
Definition demo_draw (rand : nat -> Z) (self : RobustLavaServer) (i : nat)
  : Z * Z :=
  (rand (2 * i)%nat mod rows self, rand (2 * i + 1)%nat mod cols self).

Definition demo_draws (rand : nat -> Z) (self : RobustLavaServer)
  : list (Z * Z) :=
  map (demo_draw rand self) (seq 0 (Z.to_nat (demo_tiles_num self))).

Definition demo_due (now : Q) (self : RobustLavaServer) : bool :=
  bool_decide (clients self ≠ ∅)
  && Qltb (demo_interval self) (now - last_demo_time self)
  && bool_decide (lava_tiles self = ∅).

Definition _maybe_demo_tiles (now : Q) (rand : nat -> Z)
  : M RobustLavaServer unit :=
  fun self =>
    if negb (demo_enabled self) then Ok tt self
    else if demo_due now self then
      (run! modify (set_lava_tiles ∅) in
       run! for_each (seq 0 (Z.to_nat (demo_tiles_num self)))
              (demo_tile rand) in
       modify (set_last_demo_time now))%py self
    else Ok tt self.

(** *** The loop of [run]

    One iteration, from the frame read to [_maybe_demo_tiles]: the frame
    counters, the detection and mapping of the feet, the collision test and
    the demo fill.  The value returned is what the iteration broadcasts:
    the persons of the snapshot and the queued events.  The arguments are
    what the iteration reads from outside: the detector's output, the
    clock and the random draws.  Drawing and sending have no effect on the
    state and are left out, as is the marker detection, which only stores
    [marker_corners], a field no mapping reads. *)
Definition tick `{SetOrder} (players_det : list Tracker.Detection)
    (current_time : Q) (event_ms : Z) (now : Q) (rand : nat -> Z)
  : M RobustLavaServer (list PersonData * list CollisionEvent) :=
  (run! modify (fun self => set_frame_id (frame_id self + 1) self) in
   run! modify (fun self =>
           set_smoother (Smoothing.next_frame (smoother self)) self) in
   let! person_feet_data := _detect_person_feet players_det in
   let! collision_events :=
     (fun self =>
        let '(self', events) :=
          _check_lava_collisions current_time event_ms person_feet_data self in
        Ok events self') in
   run! _maybe_demo_tiles now rand in
   ret (person_feet_data, collision_events))%py.

(** The space key of the preview window, which restarts after a collision. *)
Definition space_key (self : RobustLavaServer) : RobustLavaServer :=
  if collision_detected self
  then set_collision false "" (last_collision_time self)
         (set_game_active true self)
  else self.

(** *** What happens to a server between two snapshots *)

Inductive action : Type :=
| Connect (client : nat)
| Disconnect (client : nat)
| Message (data : json)
| Tick (players_det : list Tracker.Detection) (current_time : Q)
    (event_ms : Z) (now : Q) (rand : nat -> Z)
| SpaceKey.

Definition perform `{SetOrder} (a : action) (self : RobustLavaServer)
  : RobustLavaServer :=
  match a with
  | Connect c => set_clients (clients self ∪ {[ c ]}) self
  | Disconnect c => set_clients (clients self ∖ {[ c ]}) self
  | Message data => final (_handle_message data self)
  | Tick dets t ms now rand => final (tick dets t ms now rand self)
  | SpaceKey => space_key self
  end.

Definition perform_all `{SetOrder} (l : list action)
    (self : RobustLavaServer) : RobustLavaServer :=
  fold_left (fun s a => perform a s) l self.

(** The bound on the hazard set. *)
Definition tiles_in_range (self : RobustLavaServer) : Prop :=
  forall r c, (r, c) ∈ lava_tiles self ->
    0 <= r < rows self /\ 0 <= c < cols self.

(** The grid extent is fixed and bounds the hazard set. *)
Definition grid_inv (n_rows n_cols : Z) (self : RobustLavaServer) : Prop :=
  rows self = n_rows /\ cols self = n_cols /\ tiles_in_range self.

(** A [tile_update] command carrying the given pairs. *)
Definition tile_update (pairs : list json) : json :=
  JDict [("type"%string, JStr "tile_update");
         ("lava_tiles"%string, JList pairs)].

(** *** [handler]

    One connection: [websocket] is added to the clients, the texts it
    delivers are handled in turn, and the [finally] clause discards it
    whether the loop ends or [_handle_message] raises.  A text is given as
    [json.loads] reads it, [None] for one it rejects, which is logged and
    skipped. *)
Definition handle_text (message : option json) : M RobustLavaServer unit :=
  match message with
  | None => ret tt
  | Some data => _handle_message data
  end.

Definition handler (websocket : nat) (messages : list (option json))
  : M RobustLavaServer unit :=
  fun self =>
    let self := set_clients (clients self ∪ {[ websocket ]}) self in
    match for_each messages handle_text self with
    | Ok _ self =>
        Ok tt (set_clients (clients self ∖ {[ websocket ]}) self)
    | Raise e self =>
        Raise e (set_clients (clients self ∖ {[ websocket ]}) self)
    end.

(** What [__init__] sets and nothing assigns afterwards: the extent of
    the grid, the demo settings, the cooldown, the transform and extent of
    the mapper, and the thresholds of the debouncer and of the tracker. *)
Definition config (self : RobustLavaServer)
  : (Z * Z) * (bool * Q * Z) * Q * (option mat3 * Z * Z) * (Z * Z) * (Z * Q) :=
  ((rows self, cols self),
   (demo_enabled self, demo_interval self, demo_tiles_num self),
   collision_cooldown self,
   (RobustMapping.H (mapper self), RobustMapping.rows (mapper self),
    RobustMapping.cols (mapper self)),
   (Smoothing.k (smoother self), Smoothing.m (smoother self)),
   (Tracker.max_disappeared (tracker self),
    Tracker.max_distance (tracker self))).

(** The iterations of the loop in a history. *)
Definition is_tick (a : action) : bool :=
  match a with
  | Tick _ _ _ _ _ => true
  | _ => false
  end.

(** An action of a server whose detector is the one of the repository:
    the detections of an iteration are what [PoseTracker.process] returns
    (the frame itself is not modelled and stands as [tt]). *)
Definition uses_stub (a : action) : Prop :=
  match a with
  | Tick players_det _ _ _ _ => players_det = PoseTracker.process tt
  | _ => True
  end.

(** A [restart_game] command. *)
Definition restart_game : json := JDict [("type"%string, JStr "restart_game")].

End RobustServer.

(** ** Concrete configurations used by the examples *)

Definition identity_mapper (n_rows n_cols : Z) : Mapping.PixelToGridMapper :=
  {| Mapping.H := Some eye3; Mapping.rows := n_rows; Mapping.cols := n_cols |}.

Definition robust_identity_mapper (n_rows n_cols : Z)
  : RobustMapping.RobustPixelToGridMapper :=
  {| RobustMapping.H := Some eye3; RobustMapping.rows := n_rows;
     RobustMapping.cols := n_cols; RobustMapping.marker_corners := None |}.

(** A transform that shifts the image by 100 pixels: the grid starts at
    the pixel (100, 100). *)
Definition shift100 : mat3 := ((1, 0, -100), (0, 1, -100), (0, 0, 1))%Q.

Definition shifted_mapper (n_rows n_cols : Z) : Mapping.PixelToGridMapper :=
  {| Mapping.H := Some shift100; Mapping.rows := n_rows;
     Mapping.cols := n_cols |}.

Definition robust_shifted_mapper (n_rows n_cols : Z)
  : RobustMapping.RobustPixelToGridMapper :=
  {| RobustMapping.H := Some shift100; RobustMapping.rows := n_rows;
     RobustMapping.cols := n_cols; RobustMapping.marker_corners := None |}.

(** The mapper of a server started without calibration files. *)
Definition uncalibrated_mapper : RobustMapping.RobustPixelToGridMapper :=
  {| RobustMapping.H := None; RobustMapping.rows := 8;
     RobustMapping.cols := 8; RobustMapping.marker_corners := None |}.

(** A detection whose two feet are at the given pixels. *)
Definition detection_at (lx ly rx ry : Q) : Tracker.Detection :=
  {| Tracker.left := {| Tracker.pixel := (lx, ly);
                        Tracker.confidence := Some 1%Q |};
     Tracker.right := {| Tracker.pixel := (rx, ry);
                         Tracker.confidence := Some 1%Q |} |}.

(** An 8x8 server without calibration, demo fill off, whose client has
    marked the cell (0, 0) as lava. *)
Definition uncalibrated_server : RobustServer.RobustLavaServer :=
  RobustServer.perform_all (H := ascending_order)
    [RobustServer.Connect 0%nat;
     RobustServer.Message (RobustServer.tile_update [JList [JInt 0; JInt 0]])]
    (RobustServer.init 8 8 false 2 6 uncalibrated_mapper 3 2).

(** An 8x8 server in demo mode with a client connected and no tiles yet. *)
Definition demo_server : RobustServer.RobustLavaServer :=
  RobustServer.perform_all (H := ascending_order)
    [RobustServer.Connect 0%nat]
    (RobustServer.init 8 8 true 2 6 (robust_identity_mapper 8 8) 3 2).

(** A calibrated 8x8 server that triggers on the first hazard frame, with
    the cell (0, 0) marked as lava. *)
Definition lava_server : RobustServer.RobustLavaServer :=
  RobustServer.perform_all (H := ascending_order)
    [RobustServer.Connect 0%nat;
     RobustServer.Message (RobustServer.tile_update [JList [JInt 0; JInt 0]])]
    (RobustServer.init 8 8 false 2 6 (robust_identity_mapper 8 8) 1 2).

(** A person whose left foot is on the cell [cell] and whose right foot is
    on the cell (5, 5). *)
Definition person_on (pid : Z) (cell : Z * Z) : RobustServer.PersonData :=
  {| RobustServer.person_id := pid;
     RobustServer.left_foot :=
       {| RobustServer.pixel := (0, 0); RobustServer.grid := cell;
          RobustServer.confidence := 1; RobustServer.oob := false |};
     RobustServer.right_foot :=
       {| RobustServer.pixel := (5, 5); RobustServer.grid := (5, 5);
          RobustServer.confidence := 1; RobustServer.oob := false |};
     RobustServer.centroid := (0, 0)%Q |}.

(** Two persons far apart, then a third and a fourth with the first one
    still in view. *)
Definition two_persons : list Tracker.Detection :=
  [detection_at 0 0 2 0; detection_at 500 500 502 500].

Definition four_persons : list Tracker.Detection :=
  [detection_at 1000 1000 1002 1000; detection_at 1 1 3 1;
   detection_at 2000 2000 2002 2000].

(** Three persons far apart; a detection far from the first two, where
    the third one stands. *)
Definition three_persons : list Tracker.Detection :=
  [detection_at 0 0 2 0; detection_at 500 500 502 500;
   detection_at 1000 1000 1002 1000].

Definition far_person : list Tracker.Detection :=
  [detection_at 1000 1000 1002 1000].

(** * Properties *)

(** ** Float helpers *)

Lemma Qleb_spec (a b : Q) : Qleb a b = true <-> (a <= b)%Q.
Proof. apply Qle_bool_iff. Qed.

Lemma Qltb_spec (a b : Q) : Qltb a b = true <-> (a < b)%Q.
Proof.
  unfold Qltb. rewrite negb_true_iff.
  split.
  - intros Hf. apply Qnot_le_lt. intros Hle.
    apply Qle_bool_iff in Hle. congruence.
  - intros Hlt. destruct (Qle_bool b a) eqn:E; [|reflexivity].
    apply Qle_bool_iff in E. exfalso. exact (Qlt_not_le _ _ Hlt E).
Qed.

Lemma Qltb_false (a b : Q) : Qltb a b = false <-> (b <= a)%Q.
Proof.
  unfold Qltb. rewrite negb_false_iff. apply Qle_bool_iff.
Qed.

Lemma clip_range (v lo hi : Z) : lo <= hi -> lo <= clip v lo hi <= hi.
Proof. unfold clip. lia. Qed.

(** ** The debouncer *)

Section SmoothingFacts.
Import Smoothing.

Lemma after_app (c1 c2 : list call) (self : LavaSmoother) :
  after (c1 ++ c2) self = after c2 (after c1 self).
Proof. apply fold_left_app. Qed.

Lemma step_k (self : LavaSmoother) (c : call) :
  k (step self c) = k self /\ m (step self c) = m self.
Proof.
  destruct c; [done|]. unfold step, observe.
  destruct (observe_entry _ _ _ _ _); done.
Qed.

(** The thresholds never change. *)
Lemma after_k (calls : list call) (self : LavaSmoother) :
  k (after calls self) = k self /\ m (after calls self) = m self.
Proof.
  revert self. induction calls as [|c calls IH]; intros self; [done|].
  unfold after in *. cbn [fold_left].
  destruct (IH (step self c)) as [-> ->]. apply step_k.
Qed.

(** What one observation does to the entry of its key, and to the
    entries of the other keys. *)
Lemma observe_state (self : LavaSmoother) pid foot row col b :
  state (snd (observe self pid foot row col b)) !! (pid, foot)
  = Some (fst (observe_entry self (entry self (pid, foot) row col) row col b))
  /\ fst (observe self pid foot row col b)
     = snd (observe_entry self (entry self (pid, foot) row col) row col b).
Proof.
  unfold observe.
  destruct (observe_entry _ _ _ _ _) as [s' t] eqn:E. cbn.
  by rewrite lookup_insert_eq.
Qed.

Lemma observe_other (self : LavaSmoother) pid foot row col b key :
  key <> (pid, foot) ->
  state (snd (observe self pid foot row col b)) !! key = state self !! key.
Proof.
  intros Hne. unfold observe.
  destruct (observe_entry _ _ _ _ _) as [s' t]. cbn.
  by rewrite lookup_insert_ne.
Qed.

(** One observation on an entry with sane counters. *)
Lemma observe_entry_runs (self : LavaSmoother) (s : FootState) row col b :
  counters_ok s ->
  let s' := fst (observe_entry self s row col b) in
  counters_ok s' /\ one_run s'
  /\ (if b then lava_run s' = lava_run s + 1 /\ safe_run s' = 0
      else safe_run s' = safe_run s + 1 /\ lava_run s' = 0).
Proof.
  intros [Hl Hs]. unfold observe_entry, counters_ok, one_run. cbn.
  destruct b; cbn; lia.
Qed.

Lemma observe_entry_idle (self : LavaSmoother) (s : FootState) row col b :
  1 <= k self -> idle_below (k self) s ->
  idle_below (k self) (fst (observe_entry self s row col b)).
Proof.
  intros HK Hidle. unfold idle_below, observe_entry in *. cbn.
  destruct b; cbn; [|lia].
  destruct (is_on_lava s) eqn:Hon; cbn.
  - discriminate.
  - destruct (k self <=? lava_run s + 1) eqn:Hk; cbn; [discriminate|lia].
Qed.

Lemma fresh_ok (self : LavaSmoother) row col :
  counters_ok (fresh self row col)
  /\ (1 <= k self -> idle_below (k self) (fresh self row col)).
Proof. unfold counters_ok, idle_below; cbn. lia. Qed.

(** The invariant of the dictionary of states. *)
Lemma after_entries (K M0 : Z) (calls : list call) key s :
  state (after calls (init K M0)) !! key = Some s ->
  counters_ok s /\ one_run s /\ (1 <= K -> idle_below K s).
Proof.
  revert key s. induction calls as [|c calls IH] using rev_ind;
    intros key s.
  - cbn. by rewrite lookup_empty.
  - rewrite after_app. cbn [after fold_left].
    set (self := after calls (init K M0)) in *.
    assert (HKs : k self = K) by apply (after_k calls (init K M0)).
    destruct c as [|pid foot row col b]; [apply IH|].
    cbn [step]. destruct (decide (key = (pid, foot))) as [->|Hne].
    + destruct (observe_state self pid foot row col b) as [-> _].
      intros [= <-].
      assert (Hbefore : counters_ok (entry self (pid, foot) row col)
                /\ (1 <= K -> idle_below K (entry self (pid, foot) row col))).
      { unfold entry. destruct (state self !! (pid, foot)) as [s0|] eqn:E.
        - destruct (IH _ _ E) as (? & _ & ?). done.
        - rewrite <- HKs. apply fresh_ok. }
      destruct Hbefore as [Hc Hi].
      destruct (observe_entry_runs self _ row col b Hc) as (? & ? & _).
      split; [done|]. split; [done|].
      intros HK. rewrite <- HKs. apply observe_entry_idle; rewrite HKs; auto.
    + rewrite observe_other by done. apply IH.
Qed.

(** The entry an observation starts from, stored or fresh. *)
Lemma after_entry (K M0 : Z) (calls : list call) key row col :
  let s := entry (after calls (init K M0)) key row col in
  counters_ok s /\ (1 <= K -> idle_below K s).
Proof.
  cbn. unfold entry.
  destruct (state (after calls (init K M0)) !! key) as [s0|] eqn:E.
  - destruct (after_entries _ _ _ _ _ E) as (? & _ & ?). done.
  - pose proof (fresh_ok (after calls (init K M0)) row col) as [? Hf].
    split; [done|]. intros HK.
    destruct (after_k calls (init K M0)) as [Hk _]. cbn in Hk.
    rewrite <- Hk. apply Hf. lia.
Qed.

(** C3.  On one (player, foot) key, after any history of calls on a
    smoother with threshold [K >= 1], [observe] returns [True] exactly
    when the observation is a hazard, the entry was not flagged, and the
    run of hazard observations reaches [K] with this call; it then flags
    the entry, and while the entry is flagged every call returns [False]
    and a hazard observation keeps it flagged.  With [K = 3], five hazard
    observations return [False, False, True, False, False]; with [K = 2],
    hazard, safe, hazard, hazard return [False, False, False, True]. *)
Theorem observe_triggers_exactly_at_threshold
    (K M0 : Z) (calls : list call) (pid : Z) (foot : string)
    (row col : Z) (b : bool) :
  1 <= K ->
  let self := after calls (init K M0) in
  let before := entry self (pid, foot) row col in
  let triggered := fst (observe self pid foot row col b) in
  let self' := snd (observe self pid foot row col b) in
  (triggered = true <->
     b = true /\ is_on_lava before = false /\ lava_run before + 1 = K)
  /\ (exists s', state self' !! (pid, foot) = Some s'
        /\ (triggered = true -> is_on_lava s' = true /\ lava_run s' = K)
        /\ (is_on_lava before = true -> b = true -> is_on_lava s' = true))
  /\ (is_on_lava before = true -> triggered = false)
  /\ fst (feed (init 3 2) 1 "left" 2 3 [true; true; true; true; true])
     = [false; false; true; false; false]
  /\ fst (feed (init 2 2) 1 "left" 1 1 [true; false; true; true])
     = [false; false; false; true].
Proof.
  intros HK self before triggered self'.
  destruct (observe_state self pid foot row col b) as [Hst Htr].
  fold before in Hst, Htr. fold self' in Hst. fold triggered in Htr.
  destruct (after_entry K M0 calls (pid, foot) row col) as [Hc Hi].
  fold self before in Hc, Hi. specialize (Hi HK).
  assert (HKs : k self = K) by apply (after_k calls (init K M0)).
  unfold idle_below in Hi. destruct Hc as [Hl Hs].
  assert (Htrig : triggered
            = b && negb (is_on_lava before) && (K <=? lava_run before + 1)).
  { rewrite Htr. unfold observe_entry; cbn. rewrite HKs.
    by destruct b. }
  split; [|split; [|split; [|split]]].
  - rewrite Htrig. split.
    + intros H. apply andb_true_iff in H as [H H3].
      apply andb_true_iff in H as [H1 H2].
      apply negb_true_iff in H2. apply Z.leb_le in H3.
      specialize (Hi H2). split; [done|]. split; [done|]. lia.
    + intros (-> & -> & Heq). cbn. apply Z.leb_le. lia.
  - eexists. split; [exact Hst|]. split.
    + rewrite Htrig. intros H. apply andb_true_iff in H as [H H3].
      apply andb_true_iff in H as [H1 H2].
      apply negb_true_iff in H2. apply Z.leb_le in H3.
      specialize (Hi H2). subst b.
      unfold observe_entry; cbn. rewrite HKs, H2. cbn.
      assert (Hle : (K <=? lava_run before + 1) = true)
        by (apply Z.leb_le; lia).
      rewrite Hle. cbn. split; [done|lia].
    + intros Hon ->. unfold observe_entry; cbn. rewrite Hon. cbn. done.
  - intros Hon. rewrite Htrig, Hon. cbn. by rewrite andb_false_r.
  - vm_compute. reflexivity.
  - vm_compute. reflexivity.
Qed.

(** The third hazard observation in a row with [K = 3]. *)
Lemma observe_triggers_exactly_at_threshold_witness :
  1 <= 3 /\
  let self := after [Observe 1 "left" 2 3 true; NextFrame;
                     Observe 1 "left" 2 3 true] (init 3 2) in
  fst (observe self 1 "left" 2 3 true) = true.
Proof.
  split; [lia|].
  pose proof (observe_triggers_exactly_at_threshold 3 2
                [Observe 1 "left" 2 3 true; NextFrame;
                 Observe 1 "left" 2 3 true] 1 "left" 2 3 true) as Hthm.
  cbv zeta in Hthm. destruct Hthm as [Hiff _]; [lia|].
  apply Hiff. vm_compute. auto.
Defined.

(** C8.  After any history of calls, an observation on a key increments
    exactly one of [lava_run] and [safe_run] of its entry, according to
    [is_lava], and sets the other to zero; afterwards exactly one of the
    two is non-zero, for this key and for every key of the dictionary. *)
Theorem observe_runs_mutually_exclusive
    (K M0 : Z) (calls : list call) (pid : Z) (foot : string)
    (row col : Z) (b : bool) :
  let self := after calls (init K M0) in
  let before := entry self (pid, foot) row col in
  let self' := snd (observe self pid foot row col b) in
  (exists s', state self' !! (pid, foot) = Some s'
     /\ one_run s'
     /\ (if b then lava_run s' = lava_run before + 1 /\ safe_run s' = 0
         else safe_run s' = safe_run before + 1 /\ lava_run s' = 0))
  /\ (forall key s, state self' !! key = Some s -> one_run s).
Proof.
  intros self before self'. split.
  - destruct (observe_state self pid foot row col b) as [Hst _].
    eexists. split; [exact Hst|].
    destruct (after_entry K M0 calls (pid, foot) row col) as [Hc _].
    destruct (observe_entry_runs self _ row col b Hc) as (_ & ? & ?).
    done.
  - intros key s Hs.
    assert (Heq : self' = after (calls ++ [Observe pid foot row col b])
                            (init K M0)).
    { by rewrite after_app. }
    rewrite Heq in Hs.
    by destruct (after_entries _ _ _ _ _ Hs) as (_ & ? & _).
Qed.

End SmoothingFacts.

(** ** The coordinate mappers *)

Section MappingFacts.

(** mapping.py: the flag is computed from the coordinate that
    [pixel_to_grid_float] returns, which is the projected point itself;
    the cell is the floor of that coordinate clamped into the grid. *)
Lemma pixel_to_grid_cell_spec (self : Mapping.PixelToGridMapper) (x y : Q) :
  let row_f := fst (Mapping.pixel_to_grid_float self x y) in
  let col_f := snd (Mapping.pixel_to_grid_float self x y) in
  let '(row, col, outside) := Mapping.pixel_to_grid_cell self x y in
  row = clip (Qfloor row_f) 0 (Mapping.rows self - 1)
  /\ col = clip (Qfloor col_f) 0 (Mapping.cols self - 1)
  /\ (outside = true <->
      (row_f < 0 \/ col_f < 0 \/ inject_Z (Mapping.rows self) <= row_f
       \/ inject_Z (Mapping.cols self) <= col_f)%Q)
  /\ (1 <= Mapping.rows self -> 1 <= Mapping.cols self ->
      0 <= row < Mapping.rows self /\ 0 <= col < Mapping.cols self).
Proof.
  unfold Mapping.pixel_to_grid_cell.
  destruct (Mapping.pixel_to_grid_float self x y) as [row_f col_f]. cbn.
  split; [done|]. split; [done|]. split.
  - rewrite !orb_true_iff, !Qltb_spec, !Qleb_spec. tauto.
  - intros Hr Hc. unfold clip. lia.
Qed.

Lemma Qclip_nonneg (v n : Q) : (0 <= n)%Q -> Qltb (Qclip v 0 n) 0 = false.
Proof.
  intros Hn. apply Qltb_false. unfold Qclip, Qminimum, Qmaximum.
  destruct (Qltb v 0) eqn:E1.
  - destruct (Qltb n 0) eqn:E2; [done|]. apply Qle_refl.
  - apply Qltb_false in E1.
    destruct (Qltb n v) eqn:E2; done.
Qed.

Lemma Qclip_reaches (v n : Q) :
  (0 < n)%Q -> Qleb n (Qclip v 0 n) = Qleb n v.
Proof.
  intros Hn. unfold Qclip, Qminimum, Qmaximum.
  destruct (Qltb v 0) eqn:E1.
  - apply Qltb_spec in E1.
    assert (E2 : Qltb n 0 = false) by (apply Qltb_false; by apply Qlt_le_weak).
    rewrite E2.
    assert (E3 : Qleb n 0 = false).
    { destruct (Qleb n 0) eqn:E; [|done]. apply Qleb_spec in E.
      exfalso. exact (Qlt_not_le _ _ Hn E). }
    rewrite E3. symmetry.
    destruct (Qleb n v) eqn:E; [|done]. apply Qleb_spec in E.
    exfalso. apply (Qlt_not_le _ _ Hn).
    apply Qle_trans with v; [done|by apply Qlt_le_weak].
  - destruct (Qltb n v) eqn:E2; [|done].
    apply Qltb_spec in E2.
    transitivity true.
    + apply Qleb_spec, Qle_refl.
    + symmetry. apply Qleb_spec. by apply Qlt_le_weak.
Qed.

(** robust_mapping.py: [pixel_to_grid_float] has already clamped the point
    into [0, rows] x [0, cols], so the flag only ever reports the far
    sides: a projected point with a negative coordinate is not flagged. *)
Lemma robust_outside_far_sides_only
    (self : RobustMapping.RobustPixelToGridMapper) (h : mat3) (x y : Q) :
  RobustMapping.H self = Some h ->
  0 < RobustMapping.rows self -> 0 < RobustMapping.cols self ->
  let '(w0, w1, w2) := dot h (x, y, 1%Q) in
  let row_u := (w1 / (w2 + eps))%Q in
  let col_u := (w0 / (w2 + eps))%Q in
  snd (RobustMapping.pixel_to_grid_cell self x y)
  = Qleb (inject_Z (RobustMapping.rows self)) row_u
    || Qleb (inject_Z (RobustMapping.cols self)) col_u.
Proof.
  intros HH Hr Hc.
  unfold RobustMapping.pixel_to_grid_cell, RobustMapping.pixel_to_grid_float.
  rewrite HH. destruct (dot h (x, y, 1%Q)) as [[w0 w1] w2]. cbn.
  assert (Hr' : (0 < inject_Z (RobustMapping.rows self))%Q).
  { change 0%Q with (inject_Z 0). rewrite <- Zlt_Qlt. done. }
  assert (Hc' : (0 < inject_Z (RobustMapping.cols self))%Q).
  { change 0%Q with (inject_Z 0). rewrite <- Zlt_Qlt. done. }
  rewrite !Qclip_nonneg by (by apply Qlt_le_weak).
  rewrite !Qclip_reaches by done. done.
Qed.

(** C2.  On the identity transform and an 8x8 grid, the pixel (-5, -5)
    projects to a point with negative coordinates.  [PixelToGridMapper]
    reports it out of bounds, with the clamped cell (0, 0);
    [RobustPixelToGridMapper] returns the same cell with the flag off,
    because it tests the coordinate after it was clamped.  The same
    happens to the pixel (50, 50) under a transform that places the grid
    100 pixels into the image.  The two pixels of the design document
    behave alike on both mappers. *)
Theorem robust_cell_flag_misses_negative_side :
  Mapping.pixel_to_grid_cell (identity_mapper 8 8) (-5) (-5) = (0, 0, true)
  /\ RobustMapping.pixel_to_grid_cell (robust_identity_mapper 8 8) (-5) (-5)
     = (0, 0, false)
  /\ (fst (Mapping.pixel_to_grid_float (identity_mapper 8 8) (-5) (-5)) < 0)%Q
  /\ Mapping.pixel_to_grid_cell (shifted_mapper 8 8) 50 50 = (0, 0, true)
  /\ RobustMapping.pixel_to_grid_cell (robust_shifted_mapper 8 8) 50 50
     = (0, 0, false)
  /\ Mapping.pixel_to_grid_cell (identity_mapper 8 8) 0 0 = (0, 0, false)
  /\ Mapping.pixel_to_grid_cell (identity_mapper 8 8) 10000 10000
     = (7, 7, true)
  /\ RobustMapping.pixel_to_grid_cell (robust_identity_mapper 8 8) 0 0
     = (0, 0, false)
  /\ RobustMapping.pixel_to_grid_cell (robust_identity_mapper 8 8)
       10000 10000 = (7, 7, true).
Proof.
  repeat split; vm_compute; reflexivity.
Qed.

End MappingFacts.

(** ** Reasoning about methods that mutate and raise *)

Section MonadFacts.
Context {S : Type}.

Lemma preserves_ret {A} (P : S -> Prop) (a : A) : preserves P (ret a).
Proof. by intros s Hs. Qed.

Lemma preserves_raise {A} (P : S -> Prop) (e : exn) :
  preserves P (raise (A := A) e).
Proof. by intros s Hs. Qed.

Lemma preserves_gets {A} (P : S -> Prop) (f : S -> A) : preserves P (gets f).
Proof. by intros s Hs. Qed.

Lemma preserves_or_raise {A} (P : S -> Prop) (e : exn) (o : option A) :
  preserves P (or_raise e o).
Proof. destruct o; [apply preserves_ret|apply preserves_raise]. Qed.

Lemma preserves_modify (P : S -> Prop) (f : S -> S) :
  (forall s, P s -> P (f s)) -> preserves P (modify f).
Proof. intros Hf s Hs. by apply Hf. Qed.

Lemma preserves_bind {A B} (P : S -> Prop) (c : M S A) (k : A -> M S B) :
  preserves P c -> (forall a, preserves P (k a)) -> preserves P (bind c k).
Proof.
  intros Hc Hk s Hs. unfold bind. specialize (Hc s Hs).
  destruct (c s) as [a s'|e s']; cbn in *; [by apply Hk|done].
Qed.

Lemma preserves_for_each {A} (P : S -> Prop) (l : list A)
    (body : A -> M S unit) :
  (forall x, preserves P (body x)) -> preserves P (for_each l body).
Proof.
  intros Hb. induction l as [|x l IH]; cbn [for_each].
  - apply preserves_ret.
  - apply preserves_bind; [apply Hb|]. intros _. apply IH.
Qed.

Lemma preserves_fold_each {A B} (P : S -> Prop) (l : list A)
    (body : A -> B -> M S B) (acc : B) :
  (forall x b, preserves P (body x b)) -> preserves P (fold_each l body acc).
Proof.
  intros Hb. revert acc. induction l as [|x l IH]; intros acc; cbn [fold_each].
  - apply preserves_ret.
  - apply preserves_bind; [apply Hb|]. intros acc'. apply IH.
Qed.

Lemma stateless_ret {A} (a : A) : stateless (S := S) (ret a).
Proof. by intros s. Qed.

Lemma stateless_raise {A} (e : exn) : stateless (S := S) (raise (A := A) e).
Proof. by intros s. Qed.

Lemma stateless_gets {A} (f : S -> A) : stateless (gets f).
Proof. by intros s. Qed.

Lemma stateless_or_raise {A} (e : exn) (o : option A) :
  stateless (S := S) (or_raise e o).
Proof. by destruct o. Qed.

Lemma stateless_bind {A B} (c : M S A) (k : A -> M S B) :
  stateless c -> (forall a, stateless (k a)) -> stateless (bind c k).
Proof.
  intros Hc Hk s. unfold bind. specialize (Hc s).
  destruct (c s) as [a s'|e s']; cbn in *; subst; [apply Hk|done].
Qed.

Lemma stateless_fold_each {A B} (l : list A) (body : A -> B -> M S B)
    (acc : B) :
  (forall x b, stateless (body x b)) -> stateless (fold_each l body acc).
Proof.
  intros Hb. revert acc. induction l as [|x l IH]; intros acc; cbn [fold_each].
  - apply stateless_ret.
  - apply stateless_bind; [apply Hb|]. intros acc'. apply IH.
Qed.

(** A stateless computation that returns leaves the state it started in. *)
Lemma stateless_ok {A} (c : M S A) (s s' : S) (a : A) :
  stateless c -> c s = Ok a s' -> s' = s.
Proof. intros Hc Heq. specialize (Hc s). by rewrite Heq in Hc. Qed.

Lemma stateless_py_int (x : json) : stateless (S := S) (py_int x).
Proof.
  destruct x; try apply stateless_ret; try apply stateless_raise.
  apply stateless_or_raise.
Qed.

Lemma stateless_py_iter (x : json) : stateless (S := S) (py_iter x).
Proof. destruct x; try apply stateless_ret; apply stateless_raise. Qed.

End MonadFacts.

(** ** The hazard set of the server *)

Section HazardSetFacts.
Import RobustServer.

Lemma stateless_add_tile (t : json) (acc : gset (Z * Z)) :
  stateless (add_tile t acc).
Proof.
  unfold add_tile.
  destruct t as [| | | | |l|]; try apply stateless_ret.
  destruct l as [|t0 [|t1 [|]]]; try apply stateless_ret.
  apply stateless_bind; [apply stateless_py_int|]. intros r.
  apply stateless_bind; [apply stateless_py_int|]. intros c.
  apply stateless_bind; [apply stateless_gets|]. intros nr.
  apply stateless_bind; [apply stateless_gets|]. intros nc.
  destruct (_ && _); apply stateless_ret.
Qed.

(** The tiles that [add_tile] adds are within the grid of the server. *)
Lemma add_tile_in_range (t : json) (acc acc' : gset (Z * Z))
    (self self' : RobustLavaServer) :
  add_tile t acc self = Ok acc' self' ->
  forall r c, (r, c) ∈ acc' ->
    (r, c) ∈ acc \/ (0 <= r < rows self /\ 0 <= c < cols self).
Proof.
  unfold add_tile.
  destruct t as [| | | | |l|]; try (intros [= <- <-]; by left).
  destruct l as [|t0 [|t1 [|]]]; try (intros [= <- <-]; by left).
  unfold bind.
  destruct (py_int t0 self) as [r0 s0|] eqn:E0; [|done].
  pose proof (stateless_ok _ _ _ _ (stateless_py_int t0) E0) as ->.
  destruct (py_int t1 self) as [c0 s1|] eqn:E1; [|done].
  pose proof (stateless_ok _ _ _ _ (stateless_py_int t1) E1) as ->.
  cbn.
  destruct ((0 <=? r0) && (r0 <? rows self) && (0 <=? c0) && (c0 <? cols self))
    eqn:Hin; cbn; intros [= <- <-]; intros r c Hrc; [|by left].
  apply elem_of_union in Hrc as [Hrc|Hrc]; [by left|right].
  apply elem_of_singleton in Hrc. injection Hrc as -> ->.
  apply andb_true_iff in Hin as [Hin H4].
  apply andb_true_iff in Hin as [Hin H3].
  apply andb_true_iff in Hin as [H1 H2]. lia.
Qed.

Lemma fold_add_tile_in_range (incoming : list json) (acc acc' : gset (Z * Z))
    (self self' : RobustLavaServer) :
  fold_each incoming add_tile acc self = Ok acc' self' ->
  forall r c, (r, c) ∈ acc' ->
    (r, c) ∈ acc \/ (0 <= r < rows self /\ 0 <= c < cols self).
Proof.
  revert acc. induction incoming as [|t l IH]; intros acc; cbn [fold_each].
  - intros [= <- <-]. by left.
  - unfold bind. destruct (add_tile t acc self) as [acc1 s1|] eqn:E; [|done].
    pose proof (stateless_ok _ _ _ _ (stateless_add_tile t acc) E) as ->.
    intros Hfold r c Hrc.
    destruct (IH _ Hfold r c Hrc) as [Hin|Hin]; [|by right].
    exact (add_tile_in_range _ _ _ _ _ E r c Hin).
Qed.

Lemma grid_inv_set_lava_tiles (R C : Z) (tiles : gset (Z * Z))
    (self : RobustLavaServer) :
  rows self = R -> cols self = C ->
  (forall r c, (r, c) ∈ tiles -> 0 <= r < R /\ 0 <= c < C) ->
  grid_inv R C (set_lava_tiles tiles self).
Proof.
  intros <- <- Ht. split; [done|]. split; [done|]. exact Ht.
Qed.

(** [_handle_message] either replaces the set by tiles it has checked, or
    raises before the assignment and leaves the set as it was. *)
Lemma handle_message_grid_inv (R C : Z) (data : json) :
  preserves (grid_inv R C) (_handle_message data).
Proof.
  intros self (HR & HC & Hinv). unfold _handle_message.
  destruct data as [| | | | | |d]; try done.
  destruct (json_is_str (json_get "type" d) "tile_update").
  - unfold bind.
    destruct (py_iter _ self) as [incoming s0|] eqn:E0; [|].
    + pose proof (stateless_ok _ _ _ _ (stateless_py_iter _) E0) as ->.
      destruct (fold_each incoming add_tile ∅ self) as [tiles s1|e s1] eqn:E1.
      * pose proof (stateless_ok _ _ _ _
                      (stateless_fold_each _ _ _ stateless_add_tile) E1) as ->.
        cbn. apply grid_inv_set_lava_tiles; [done..|].
        intros r c Hrc.
        destruct (fold_add_tile_in_range _ _ _ _ _ E1 r c Hrc) as [Hin|Hin].
        -- by apply not_elem_of_empty in Hin.
        -- by rewrite <- HR, <- HC.
      * pose proof (stateless_fold_each incoming add_tile ∅
                      stateless_add_tile self) as Hs.
        rewrite E1 in Hs. cbn in *. by subst.
    + pose proof (stateless_py_iter (S := RobustLavaServer)
                    (default (JList []) (json_get "lava_tiles" d)) self) as Hs.
      rewrite E0 in Hs. cbn in *. by subst.
  - destruct (json_is_str (json_get "type" d) "restart_game"); cbn; done.
Qed.

End HazardSetFacts.

Section DemoFillFacts.
Import RobustServer.

Lemma set_lava_tiles_id (self : RobustLavaServer) :
  set_lava_tiles (lava_tiles self) self = self.
Proof. by destruct self. Qed.

Lemma size_add_tile (tiles : gset (Z * Z)) (cell : Z * Z) :
  (size (tiles ∪ {[ cell ]}) <= size tiles + 1)%nat.
Proof.
  rewrite size_union_alt.
  assert (Hsub : ({[ cell ]} ∖ tiles : gset (Z * Z)) ⊆ {[ cell ]}).
  { apply subseteq_difference_l. reflexivity. }
  apply subseteq_size in Hsub. rewrite size_singleton in Hsub. lia.
Qed.

(** One draw on a grid with cells: the tile added is a cell of the grid. *)
Lemma demo_tile_ok (rand : nat -> Z) (i : nat) (self : RobustLavaServer) :
  0 < rows self -> 0 < cols self ->
  exists r c, 0 <= r < rows self /\ 0 <= c < cols self
    /\ demo_tile rand i self
       = Ok tt (set_lava_tiles (lava_tiles self ∪ {[ (r, c) ]}) self).
Proof.
  intros Hr Hc.
  assert (Er : (rows self <=? 0) = false) by (apply Z.leb_gt; lia).
  assert (Ec : (cols self <=? 0) = false) by (apply Z.leb_gt; lia).
  exists (rand (2 * i)%nat mod rows self),
         (rand (2 * i + 1)%nat mod cols self).
  split; [by apply Z.mod_pos_bound|]. split; [by apply Z.mod_pos_bound|].
  unfold demo_tile, bind, gets, randrange, modify.
  rewrite Er. cbn [ret]. rewrite Ec. reflexivity.
Qed.

(** The loop of the fill, from any set of tiles. *)
Lemma demo_fill_loop (rand : nat -> Z) (l : list nat)
    (self : RobustLavaServer) :
  0 < rows self -> 0 < cols self ->
  exists tiles,
    for_each l (demo_tile rand) self = Ok tt (set_lava_tiles tiles self)
    /\ lava_tiles self ⊆ tiles
    /\ (size tiles <= size (lava_tiles self) + length l)%nat
    /\ (l <> [] -> tiles <> ∅)
    /\ (forall r c, (r, c) ∈ tiles ->
          (r, c) ∈ lava_tiles self
          \/ (0 <= r < rows self /\ 0 <= c < cols self)).
Proof.
  revert self. induction l as [|i l IH]; intros self Hr Hc.
  - exists (lava_tiles self). cbn. rewrite set_lava_tiles_id.
    repeat split; [done|lia|done|by left].
  - destruct (demo_tile_ok rand i self Hr Hc) as (r & c & Hrr & Hcc & Hstep).
    cbn [for_each]. unfold bind. rewrite Hstep.
    destruct (IH (set_lava_tiles (lava_tiles self ∪ {[ (r, c) ]}) self))
      as (tiles & Hloop & Hsub & Hsize & _ & Hrange); [done..|].
    cbn in Hsub, Hsize, Hrange.
    exists tiles. rewrite Hloop. split; [done|].
    split; [clear -Hsub; set_solver|]. split.
    { pose proof (size_add_tile (lava_tiles self) (r, c)). cbn [length]. lia. }
    split; [clear -Hsub; set_solver|].
    intros r' c' Hin. destruct (Hrange r' c' Hin) as [Hold|Hnew]; [|by right].
    apply elem_of_union in Hold as [Hold|Hold]; [by left|right].
    apply elem_of_singleton in Hold. by injection Hold as -> ->.
Qed.

Lemma demo_tile_grid_inv (R C : Z) (rand : nat -> Z) (i : nat) :
  preserves (grid_inv R C) (demo_tile rand i).
Proof.
  intros self (HR & HC & Hinv). unfold demo_tile, bind, gets, randrange, modify.
  destruct (rows self <=? 0) eqn:Er; [done|]. cbn [ret].
  destruct (cols self <=? 0) eqn:Ec; [done|]. cbn [ret final].
  apply Z.leb_gt in Er, Ec.
  apply grid_inv_set_lava_tiles; [done..|]. intros r c Hin.
  apply elem_of_union in Hin as [Hin|Hin].
  - rewrite <- HR, <- HC. by apply Hinv.
  - apply elem_of_singleton in Hin. injection Hin as -> ->.
    rewrite <- HR, <- HC. split; apply Z.mod_pos_bound; lia.
Qed.

Lemma maybe_demo_tiles_grid_inv (R C : Z) (now : Q) (rand : nat -> Z) :
  preserves (grid_inv R C) (_maybe_demo_tiles now rand).
Proof.
  intros self Hinv. unfold _maybe_demo_tiles.
  destruct (negb (demo_enabled self)); [done|].
  destruct (demo_due now self); [|done].
  revert self Hinv.
  change (preserves (grid_inv R C)
            (fun self =>
               (run! modify (set_lava_tiles ∅) in
                run! for_each (seq 0 (Z.to_nat (demo_tiles_num self)))
                       (demo_tile rand) in
                modify (set_last_demo_time now))%py self)).
  intros self Hinv.
  apply (preserves_bind (grid_inv R C) (modify (set_lava_tiles ∅))
           (fun _ => (run! for_each (seq 0 (Z.to_nat (demo_tiles_num self)))
                             (demo_tile rand) in
                      modify (set_last_demo_time now))%py)); [| |done].
  - apply preserves_modify. intros s (HR & HC & _).
    apply grid_inv_set_lava_tiles; [done..|]. intros r c Hin.
    by apply not_elem_of_empty in Hin.
  - intros _. apply preserves_bind.
    + apply preserves_for_each. intros i. apply demo_tile_grid_inv.
    + intros _. apply preserves_modify. by intros s (HR & HC & Hs).
Qed.

(** The loop of the fill adds the cells of its draws. *)
Lemma demo_fill_loop_draws (rand : nat -> Z) (l : list nat)
    (self : RobustLavaServer) :
  0 < rows self -> 0 < cols self ->
  for_each l (demo_tile rand) self
  = Ok tt (set_lava_tiles
             (lava_tiles self ∪ list_to_set (map (demo_draw rand self) l))
             self).
Proof.
  revert self. induction l as [|i l IH]; intros self Hr Hc.
  - cbn [for_each map list_to_set]. unfold ret. f_equal.
    rewrite (right_id_L ∅ (∪)). symmetry. apply set_lava_tiles_id.
  - assert (Er : (rows self <=? 0) = false) by (apply Z.leb_gt; lia).
    assert (Ec : (cols self <=? 0) = false) by (apply Z.leb_gt; lia).
    cbn [for_each]. unfold bind at 1.
    assert (Hstep : demo_tile rand i self
                    = Ok tt (set_lava_tiles
                               (lava_tiles self ∪ {[ demo_draw rand self i ]})
                               self)).
    { unfold demo_tile, bind, gets, randrange, modify.
      rewrite Er. cbn [ret]. rewrite Ec. reflexivity. }
    rewrite Hstep, IH by done. f_equal.
    cbn [map list_to_set lava_tiles set_lava_tiles].
    unfold set_lava_tiles. cbn. f_equal.
    rewrite <- (assoc_L (∪)). reflexivity.
Qed.

Lemma size_list_to_set_le (l : list (Z * Z)) :
  (size (list_to_set l : gset (Z * Z)) <= length l)%nat.
Proof.
  induction l as [|a l IH]; cbn [list_to_set length].
  - by rewrite size_empty.
  - rewrite (comm_L (∪)).
    pose proof (size_add_tile (list_to_set l) a). lia.
Qed.

Lemma size_list_to_set_NoDup (l : list (Z * Z)) :
  size (list_to_set l : gset (Z * Z)) = length l <-> NoDup l.
Proof.
  split; [|apply size_list_to_set].
  induction l as [|a l IH]; [constructor|].
  cbn [list_to_set length]. intros Hsize.
  pose proof (size_list_to_set_le l) as Hle.
  destruct (decide (a ∈ l)) as [Hin|Hnot].
  - exfalso.
    assert (Heq : ({[ a ]} ∪ list_to_set l : gset (Z * Z)) = list_to_set l).
    { apply set_eq. intros x.
      rewrite elem_of_union, elem_of_singleton, elem_of_list_to_set.
      split; [intros [->|?]; done|by right]. }
    rewrite Heq in Hsize. lia.
  - apply NoDup_cons. split; [done|]. apply IH.
    rewrite size_union in Hsize.
    + rewrite size_singleton in Hsize. lia.
    + intros x Hx%elem_of_singleton Hl%elem_of_list_to_set. by subst x.
Qed.

(** C10 as the code has it.  The fill is skipped, and the server left
    as it is, whenever the hazard set is non-empty.  When it runs - demo
    mode on, a client connected, the set empty, the interval elapsed, on
    a grid with cells - it returns, records the time, and leaves as the
    hazard set the cells of its [tiles_per_interval] draws, none of them
    out of the grid, whatever the random numbers.  The set has at most
    [tiles_per_interval] elements, at least one when there is a draw, and
    exactly [tiles_per_interval] only when the draws are pairwise
    distinct: equal draws fall together. *)
Theorem demo_fill_at_most_tiles_per_interval
    (now : Q) (rand : nat -> Z) (self : RobustLavaServer) :
  (lava_tiles self <> ∅ -> _maybe_demo_tiles now rand self = Ok tt self)
  /\ (demo_enabled self = true -> clients self <> ∅ -> lava_tiles self = ∅ ->
      (demo_interval self < now - last_demo_time self)%Q ->
      0 < rows self -> 0 < cols self ->
      let draws := demo_draws rand self in
      let tiles : gset (Z * Z) := list_to_set draws in
      _maybe_demo_tiles now rand self
      = Ok tt (set_last_demo_time now (set_lava_tiles tiles self))
      /\ length draws = Z.to_nat (demo_tiles_num self)
      /\ (forall r c, (r, c) ∈ draws ->
            0 <= r < rows self /\ 0 <= c < cols self)
      /\ (size tiles <= Z.to_nat (demo_tiles_num self))%nat
      /\ (1 <= demo_tiles_num self -> (1 <= size tiles)%nat)
      /\ (size tiles = Z.to_nat (demo_tiles_num self) <-> NoDup draws)).
Proof.
  split.
  - intros Hne. unfold _maybe_demo_tiles, demo_due.
    destruct (negb (demo_enabled self)); [done|].
    rewrite (bool_decide_eq_false_2 (lava_tiles self = ∅)) by done.
    by rewrite andb_false_r.
  - intros Hen Hcl Hemp Hint Hr Hc. cbv zeta.
    assert (Hlen : length (demo_draws rand self)
                   = Z.to_nat (demo_tiles_num self)).
    { unfold demo_draws. by rewrite length_map, length_seq. }
    split; [|split; [done|split; [|split; [|split]]]].
    + unfold _maybe_demo_tiles, demo_due. rewrite Hen. cbn [negb].
      rewrite (bool_decide_eq_true_2 (clients self ≠ ∅)) by done.
      rewrite (bool_decide_eq_true_2 (lava_tiles self = ∅)) by done.
      apply Qltb_spec in Hint. rewrite Hint. cbn [andb].
      unfold bind, modify.
      rewrite (demo_fill_loop_draws rand _ (set_lava_tiles ∅ self))
        by done.
      cbn [lava_tiles set_lava_tiles]. unfold demo_draws.
      rewrite (left_id_L ∅ (∪)). reflexivity.
    + intros r c Hin. unfold demo_draws in Hin.
      apply list_elem_of_In, in_map_iff in Hin as (i & Heq & _).
      injection Heq as <- <-. split; apply Z.mod_pos_bound; lia.
    + rewrite <- Hlen. apply size_list_to_set_le.
    + intros Hn.
      destruct (demo_draws rand self) as [|d draws] eqn:Ed;
        [cbn in Hlen; lia|].
      assert (Hsz : size (list_to_set (d :: draws) : gset (Z * Z)) <> 0%nat).
      { intros Hz. apply size_empty_inv in Hz.
        assert (Hd : d ∈ (list_to_set (d :: draws) : gset (Z * Z)))
          by (apply elem_of_list_to_set; by left).
        rewrite Hz in Hd. by apply elem_of_empty in Hd. }
      lia.
    + rewrite <- Hlen. apply size_list_to_set_NoDup.
Qed.

End DemoFillFacts.

Section DemoFillExamples.
Import RobustServer.

(** The fill on the demo server with all draws equal. *)
Lemma demo_fill_at_most_tiles_per_interval_witness :
  _maybe_demo_tiles 10 (fun _ => 0) demo_server
  = Ok tt (set_last_demo_time 10 (set_lava_tiles {[ (0, 0) ]} demo_server))
  /\ length (demo_draws (fun _ => 0) demo_server) = 6%nat.
Proof.
  destruct (demo_fill_at_most_tiles_per_interval 10 (fun _ => 0) demo_server)
    as [_ Hfill].
  destruct Hfill as (Heq & Hlen & _).
  - reflexivity.
  - vm_compute. discriminate.
  - vm_compute. reflexivity.
  - vm_compute. reflexivity.
  - reflexivity.
  - reflexivity.
  - split; [|exact Hlen]. rewrite Heq. vm_compute. reflexivity.
Defined.

(** C10, as stated, fails.  On an 8x8 grid with six tiles per interval,
    the fill runs and, when the draws coincide, leaves one cell, not six.
    And an empty hazard set with the interval elapsed does not make the
    fill run: with nobody connected, or with demo mode off, the set stays
    empty, and on a grid without rows the first draw raises. *)
Lemma demo_fill_fewer_than_configured :
  (demo_enabled demo_server = true
   /\ demo_due 10 demo_server = true
   /\ demo_tiles_num demo_server = 6
   /\ size (lava_tiles (final (_maybe_demo_tiles 10 (fun _ => 0) demo_server)))
      = 1%nat
   /\ size (lava_tiles (final (_maybe_demo_tiles 10 (fun _ => 0) demo_server)))
      <> Z.to_nat (demo_tiles_num demo_server))
  /\ (let s := init 8 8 true 2 6 (robust_identity_mapper 8 8) 3 2 in
      lava_tiles s = ∅
      /\ Qltb (demo_interval s) (10 - last_demo_time s) = true
      /\ _maybe_demo_tiles 10 (fun i => Z.of_nat i) s = Ok tt s)
  /\ (let s :=
        set_clients {[ 0%nat ]}
          (init 8 8 false 2 6 (robust_identity_mapper 8 8) 3 2) in
      lava_tiles s = ∅
      /\ Qltb (demo_interval s) (10 - last_demo_time s) = true
      /\ _maybe_demo_tiles 10 (fun i => Z.of_nat i) s = Ok tt s)
  /\ (let s :=
        set_clients {[ 0%nat ]}
          (init 0 8 true 2 6 (robust_identity_mapper 8 8) 3 2) in
      lava_tiles s = ∅
      /\ Qltb (demo_interval s) (10 - last_demo_time s) = true
      /\ _maybe_demo_tiles 10 (fun i => Z.of_nat i) s = Raise ValueError s).
Proof.
  cbv zeta. split; [|split; [|split]].
  - repeat split; try (vm_compute; reflexivity). vm_compute. discriminate.
  - repeat split; vm_compute; reflexivity.
  - repeat split; vm_compute; reflexivity.
  - repeat split; vm_compute; reflexivity.
Qed.

End DemoFillExamples.

(** ** Collisions *)

Section CollisionFacts.
Import RobustServer.

Lemma smoother_k_observe (sm : Smoothing.LavaSmoother) pid foot row col b :
  Smoothing.k (snd (Smoothing.observe sm pid foot row col b)) = Smoothing.k sm.
Proof.
  unfold Smoothing.observe. by destruct (Smoothing.observe_entry _ _ _ _ _).
Qed.

(** The loop body, in one equation. *)
Lemma check_foot_eq (current_time : Q) (event_ms pid : Z) (foot_name : string)
    (foot : FootData) (self : RobustLavaServer)
    (events : list CollisionEvent) :
  let sm' :=
    snd (Smoothing.observe (smoother self) pid foot_name
           (fst (grid foot)) (snd (grid foot)) (is_lava_at self (grid foot))) in
  check_foot current_time event_ms pid foot_name foot (self, events)
  = if collision_fires current_time pid foot_name foot self
    then (set_collision true
            (message pid (fst (grid foot)) (snd (grid foot))) current_time
            (set_smoother sm' self),
          events ++ [event_for event_ms pid foot_name foot self])
    else (set_smoother sm' self, events).
Proof.
  unfold check_foot, collision_fires, event_for.
  destruct (grid foot) as [row col] eqn:Eg. cbn [fst snd].
  destruct (Smoothing.observe _ _ _ _ _ _) as [triggered sm] eqn:Eo.
  cbn [fst snd game_active set_smoother collision_cooldown
       last_collision_time smoother].
  destruct (triggered && is_lava_at self (row, col) && game_active self);
    cbn [andb]; [|done].
  destruct (Qltb _ _); [|done].
  do 3 f_equal. f_equal.
  change sm with (snd (triggered, sm)). rewrite <- Eo.
  apply smoother_k_observe.
Qed.

(** What an observation leaves alone. *)
Lemma check_foot_frame (current_time : Q) (event_ms pid : Z)
    (foot_name : string) (foot : FootData)
    (acc : RobustLavaServer * list CollisionEvent) :
  let self := fst acc in
  let self' := fst (check_foot current_time event_ms pid foot_name foot acc) in
  rows self' = rows self /\ cols self' = cols self
  /\ lava_tiles self' = lava_tiles self
  /\ game_active self' = game_active self
  /\ collision_cooldown self' = collision_cooldown self
  /\ Smoothing.k (smoother self') = Smoothing.k (smoother self).
Proof.
  destruct acc as [self events]. cbn [fst]. rewrite check_foot_eq.
  destruct (collision_fires _ _ _ _ _); repeat split; try reflexivity;
    cbn [fst set_collision set_smoother smoother];
    apply smoother_k_observe.
Qed.

Lemma check_person_frame (current_time : Q) (event_ms : Z)
    (person : PersonData) (acc : RobustLavaServer * list CollisionEvent) :
  let self := fst acc in
  let self' := fst (check_person current_time event_ms acc person) in
  rows self' = rows self /\ cols self' = cols self
  /\ lava_tiles self' = lava_tiles self
  /\ game_active self' = game_active self
  /\ collision_cooldown self' = collision_cooldown self
  /\ Smoothing.k (smoother self') = Smoothing.k (smoother self).
Proof.
  cbn. unfold check_person.
  pose proof (check_foot_frame current_time event_ms (person_id person) "left"
                (left_foot person) acc) as H1.
  pose proof (check_foot_frame current_time event_ms (person_id person) "right"
                (right_foot person)
                (check_foot current_time event_ms (person_id person) "left"
                   (left_foot person) acc)) as H2.
  cbn in H1, H2.
  destruct H1 as (-> & -> & -> & -> & -> & ->) in H2. exact H2.
Qed.

Lemma check_persons_frame (current_time : Q) (event_ms : Z)
    (persons : list PersonData)
    (acc : RobustLavaServer * list CollisionEvent) :
  let self := fst acc in
  let self' :=
    fst (fold_left (check_person current_time event_ms) persons acc) in
  rows self' = rows self /\ cols self' = cols self
  /\ lava_tiles self' = lava_tiles self
  /\ game_active self' = game_active self
  /\ collision_cooldown self' = collision_cooldown self
  /\ Smoothing.k (smoother self') = Smoothing.k (smoother self).
Proof.
  revert acc. induction persons as [|p persons IH]; intros acc; [done|].
  cbn [fold_left].
  specialize (IH (check_person current_time event_ms acc p)).
  pose proof (check_person_frame current_time event_ms p acc) as Hp.
  cbn in IH, Hp |- *.
  destruct Hp as (<- & <- & <- & <- & <- & <-). exact IH.
Qed.

(** Within the cooldown window nothing fires, whoever steps where. *)
Lemma check_foot_cooling (current_time : Q) (event_ms pid : Z)
    (foot_name : string) (foot : FootData) (self : RobustLavaServer)
    (events : list CollisionEvent) :
  Qltb (collision_cooldown self) (current_time - last_collision_time self)
  = false ->
  let r := check_foot current_time event_ms pid foot_name foot (self, events) in
  snd r = events
  /\ last_collision_time (fst r) = last_collision_time self
  /\ collision_cooldown (fst r) = collision_cooldown self.
Proof.
  intros Hcool. cbv zeta. rewrite check_foot_eq. unfold collision_fires.
  rewrite Hcool, andb_false_r. done.
Qed.

Lemma check_persons_cooling (current_time : Q) (event_ms : Z)
    (persons : list PersonData) (self : RobustLavaServer)
    (events : list CollisionEvent) :
  Qltb (collision_cooldown self) (current_time - last_collision_time self)
  = false ->
  snd (fold_left (check_person current_time event_ms) persons (self, events))
  = events.
Proof.
  revert self events. induction persons as [|p persons IH];
    intros self events Hcool; [done|].
  cbn [fold_left]. unfold check_person at 2.
  destruct (check_foot_cooling current_time event_ms (person_id p) "left"
              (left_foot p) self events Hcool) as (He1 & Hl1 & Hc1).
  destruct (check_foot current_time event_ms (person_id p) "left"
              (left_foot p) (self, events)) as [s1 e1].
  cbn in He1, Hl1, Hc1. subst e1.
  assert (Hcool1 : Qltb (collision_cooldown s1)
                     (current_time - last_collision_time s1) = false)
    by (by rewrite Hl1, Hc1).
  destruct (check_foot_cooling current_time event_ms (person_id p) "right"
              (right_foot p) s1 events Hcool1) as (He2 & Hl2 & Hc2).
  destruct (check_foot current_time event_ms (person_id p) "right"
              (right_foot p) (s1, events)) as [s2 e2].
  cbn in He2, Hl2, Hc2. subst e2.
  apply IH. by rewrite Hl2, Hc2.
Qed.

(** One foot observation: an event is queued exactly when the debouncer
    triggered, the cell is a hazard, the session is active and more than
    the cooldown has elapsed since the last event; the collision flag, the
    message and the time of the last event are then set.  Otherwise
    nothing is queued and these fields stay. *)
Lemma check_foot_iff
    (current_time : Q) (event_ms pid : Z) (foot_name : string)
    (foot : FootData) (self : RobustLavaServer)
    (events : list CollisionEvent) :
  let r := check_foot current_time event_ms pid foot_name foot (self, events) in
  snd r = events
          ++ (if collision_fires current_time pid foot_name foot self
              then [event_for event_ms pid foot_name foot self] else [])
  /\ fst r = fst (check_foot current_time event_ms pid foot_name foot
                    (self, []))
  /\ collision_cooldown (fst r) = collision_cooldown self
  /\ (if collision_fires current_time pid foot_name foot self
      then collision_detected (fst r) = true
           /\ collision_message (fst r)
              = message pid (fst (grid foot)) (snd (grid foot))
           /\ last_collision_time (fst r) = current_time
      else collision_detected (fst r) = collision_detected self
           /\ collision_message (fst r) = collision_message self
           /\ last_collision_time (fst r) = last_collision_time self).
Proof.
  cbv zeta. rewrite !check_foot_eq.
  destruct (collision_fires _ _ _ _ _); cbn [fst snd]; [done|].
  by rewrite app_nil_r.
Qed.

(** Two persons step on the lava cell in the same tick, at time 10: the
    first one's left foot queues the event, the second one's does not.  A
    third person stepping on it at time 11 queues nothing either; a fourth
    at time 13 does. *)
Example second_person_within_cooldown :
  let '(s1, e1) :=
    _check_lava_collisions 10 10000
      [person_on 1 (0, 0); person_on 2 (0, 0)] lava_server in
  let '(s2, e2) := _check_lava_collisions 11 11000 [person_on 3 (0, 0)] s1 in
  let '(s3, e3) := _check_lava_collisions 13 13000 [person_on 4 (0, 0)] s2 in
  map ev_person_id e1 = [1] /\ e2 = [] /\ map ev_person_id e3 = [4]
  /\ game_active s3 = true.
Proof. vm_compute. done. Qed.

End CollisionFacts.

(** ** The hazard set stays within the grid *)

Section GridInvariant.
Import RobustServer.
Context `{!SetOrder}.

Lemma detect_person_feet_grid_inv (R C : Z) (dets : list Tracker.Detection) :
  preserves (grid_inv R C) (_detect_person_feet dets).
Proof.
  intros self Hinv. unfold _detect_person_feet.
  by destruct (Tracker.update dets (tracker self)).
Qed.

Lemma check_lava_collisions_grid_inv (R C : Z) (current_time : Q)
    (event_ms : Z) (persons : list PersonData) (self : RobustLavaServer) :
  grid_inv R C self ->
  grid_inv R C
    (fst (_check_lava_collisions current_time event_ms persons self)).
Proof.
  intros (HR & HC & Hinv). unfold _check_lava_collisions.
  destruct (check_persons_frame current_time event_ms persons (self, []))
    as (Hr & Hc & Hl & _). cbn [fst] in *.
  split; [by rewrite Hr|]. split; [by rewrite Hc|].
  intros r c. rewrite Hl, Hr, Hc. apply Hinv.
Qed.

Lemma tick_grid_inv (R C : Z) (dets : list Tracker.Detection)
    (current_time : Q) (event_ms : Z) (now : Q) (rand : nat -> Z) :
  preserves (grid_inv R C) (tick dets current_time event_ms now rand).
Proof.
  unfold tick.
  apply preserves_bind; [apply preserves_modify; by intros s (? & ? & ?)|].
  intros _.
  apply preserves_bind; [apply preserves_modify; by intros s (? & ? & ?)|].
  intros _.
  apply preserves_bind; [apply detect_person_feet_grid_inv|].
  intros persons. apply preserves_bind.
  - intros s Hs.
    pose proof (check_lava_collisions_grid_inv R C current_time event_ms
                  persons s Hs) as Hc.
    by destruct (_check_lava_collisions current_time event_ms persons s).
  - intros events. apply preserves_bind; [apply maybe_demo_tiles_grid_inv|].
    intros _. apply preserves_ret.
Qed.

Lemma perform_grid_inv (R C : Z) (a : action) (self : RobustLavaServer) :
  grid_inv R C self -> grid_inv R C (perform a self).
Proof.
  intros Hinv. destruct a; cbn [perform].
  - by destruct Hinv as (? & ? & ?).
  - by destruct Hinv as (? & ? & ?).
  - by apply handle_message_grid_inv.
  - by apply tick_grid_inv.
  - unfold space_key. destruct (collision_detected self); [|done].
    by destruct Hinv as (? & ? & ?).
Qed.

Lemma perform_all_grid_inv (R C : Z) (history : list action)
    (self : RobustLavaServer) :
  grid_inv R C self -> grid_inv R C (perform_all history self).
Proof.
  revert self. induction history as [|a l IH]; intros self Hinv; [done|].
  cbn [perform_all fold_left]. apply IH. by apply perform_grid_inv.
Qed.

(** C9.  A server starts with no hazard cell, and after any history of
    connections, client messages, ticks of the loop (each with its demo
    fill) and key presses, whether they return or raise, its grid extent
    is the configured one and every cell of its hazard set is within
    [0, rows) x [0, cols).  In particular a [tile_update] message and the
    demo fill keep the bound from any state that has it. *)
Theorem lava_tiles_always_in_range
    (n_rows n_cols : Z) (enabled : bool) (interval : Q) (tiles_num : Z)
    (mapper0 : RobustMapping.RobustPixelToGridMapper)
    (consecutive_frames clear_frames : Z) (history : list action) :
  let self0 :=
    init n_rows n_cols enabled interval tiles_num mapper0
      consecutive_frames clear_frames in
  lava_tiles self0 = ∅
  /\ grid_inv n_rows n_cols (perform_all history self0)
  /\ (forall pairs, preserves (grid_inv n_rows n_cols)
                      (_handle_message (tile_update pairs)))
  /\ (forall now rand, preserves (grid_inv n_rows n_cols)
                         (_maybe_demo_tiles now rand)).
Proof.
  cbv zeta. split; [done|]. split.
  - apply perform_all_grid_inv. split; [done|]. split; [done|].
    intros r c Hin. by apply not_elem_of_empty in Hin.
  - split.
    + intros pairs. apply handle_message_grid_inv.
    + intros now rand. apply maybe_demo_tiles_grid_inv.
Qed.

End GridInvariant.

(** ** Tile updates *)

Section TileUpdateFacts.
Import RobustServer.

(** The pairs of a list that lie within the grid. *)
Lemma add_tile_int_pair (r c : Z) (acc : gset (Z * Z))
    (self : RobustLavaServer) :
  add_tile (JList [JInt r; JInt c]) acc self
  = Ok (if (0 <=? r) && (r <? rows self) && (0 <=? c) && (c <? cols self)
        then acc ∪ {[ (r, c) ]} else acc) self.
Proof.
  unfold add_tile, bind, py_int, ret, gets.
  by destruct ((0 <=? r) && (r <? rows self) && (0 <=? c) && (c <? cols self)).
Qed.

(** A command whose pairs are all pairs of integers replaces the hazard
    set by those of them that lie within the grid. *)
Lemma tile_update_int_pairs (pairs : list (Z * Z)) (self : RobustLavaServer) :
  exists tiles,
    _handle_message
      (tile_update (map (fun p => JList [JInt (fst p); JInt (snd p)]) pairs))
      self
    = Ok tt (set_lava_tiles tiles self)
    /\ forall r c, (r, c) ∈ tiles <->
         In (r, c) pairs /\ 0 <= r < rows self /\ 0 <= c < cols self.
Proof.
  assert (Hfold : forall acc,
            exists tiles,
              fold_each
                (map (fun p => JList [JInt (fst p); JInt (snd p)]) pairs)
                add_tile acc self = Ok tiles self
              /\ forall r c, (r, c) ∈ tiles <->
                   (r, c) ∈ acc
                   \/ (In (r, c) pairs
                       /\ 0 <= r < rows self /\ 0 <= c < cols self)).
  { induction pairs as [|[r0 c0] pairs IH]; intros acc.
    - exists acc. split; [done|]. intros r c. cbn. tauto.
    - cbn [map fold_each fst snd]. unfold bind. rewrite add_tile_int_pair.
      destruct (IH (if (0 <=? r0) && (r0 <? rows self) && (0 <=? c0)
                         && (c0 <? cols self)
                    then acc ∪ {[ (r0, c0) ]} else acc))
        as (tiles & Heq & Hiff).
      exists tiles. split; [exact Heq|]. intros r c. rewrite Hiff.
      cbn [In].
      destruct ((0 <=? r0) && (r0 <? rows self) && (0 <=? c0)
                && (c0 <? cols self)) eqn:Hin.
      + apply andb_true_iff in Hin as [Hin H4].
        apply andb_true_iff in Hin as [Hin H3].
        apply andb_true_iff in Hin as [H1 H2].
        rewrite elem_of_union, elem_of_singleton. split.
        * intros [[Ha|Ha]|(Hp & Hb)].
          -- by left.
          -- injection Ha as -> ->. right. split; [by left|lia].
          -- right. split; [by right|done].
        * intros [Ha|([Hp|Hp] & Hb)].
          -- by left; left.
          -- left; right. by injection Hp as -> ->.
          -- right. done.
      + split.
        * intros [Ha|(Hp & Hb)]; [by left|right]. split; [by right|done].
        * intros [Ha|([Hp|Hp] & Hb)]; [by left| |by right].
          exfalso. injection Hp as -> ->.
          assert (Ht : (0 <=? r) && (r <? rows self) && (0 <=? c)
                       && (c <? cols self) = true).
          { rewrite !andb_true_iff. repeat split; lia. }
          congruence. }
  destruct (Hfold ∅) as (tiles & Heq & Hiff).
  exists tiles. unfold _handle_message, tile_update.
  cbn [json_get json_is_str String.eqb Ascii.eqb Bool.eqb].
  unfold bind. cbn [default from_option id py_iter ret].
  rewrite Heq. split; [done|].
  intros r c. rewrite Hiff. split; [|by right].
  intros [Hemp|?]; [|done]. by apply not_elem_of_empty in Hemp.
Qed.

(** The command of the design document on the default grid. *)
Example tile_update_spec_example :
  elements
    (lava_tiles
       (final (_handle_message
                 (tile_update [JList [JInt 0; JInt 0]; JList [JInt 1; JInt 1];
                               JList [JInt 99; JInt 99]])
                 demo_server)))
  = [(0, 0); (1, 1)].
Proof. vm_compute. reflexivity. Qed.

(** C6.  A pair whose elements [int] cannot convert is not dropped: the
    conversion raises, [_handle_message] never reaches the assignment, and
    the hazard set stays what it was, whatever the other pairs of the
    command were.  Here the command carries the good pair [0, 0] and a pair
    with [null], or with the string "a", on any server. *)
Theorem tile_update_rejected_by_unconvertible_pair (self : RobustLavaServer) :
  _handle_message
    (tile_update [JList [JInt 0; JInt 0]; JList [JNull; JInt 1]]) self
  = Raise TypeError self
  /\ _handle_message
       (tile_update [JList [JInt 0; JInt 0]; JList [JStr "a"; JInt 1]]) self
     = Raise ValueError self.
Proof.
  split.
  - unfold _handle_message, tile_update, add_tile. cbn. unfold bind. cbn.
    by destruct (0 <? rows self), (0 <? cols self).
  - unfold _handle_message, tile_update, add_tile. cbn. unfold bind. cbn.
    by destruct (0 <? rows self), (0 <? cols self).
Qed.

End TileUpdateFacts.

(** ** Dictionaries *)

Section DictFacts.
Context {V : Type}.
Implicit Types (d : dict V) (k : Z) (v : V).

Lemma dict_keys_cons k v d : dict_keys ((k, v) :: d) = k :: dict_keys d.
Proof. done. Qed.

Lemma dict_get_None k d : dict_get k d = None <-> k ∉ dict_keys d.
Proof.
  induction d as [|[k' v'] d IH]; cbn [dict_get].
  - split; [intros _; apply not_elem_of_nil|done].
  - rewrite dict_keys_cons, not_elem_of_cons.
    destruct (Z.eqb_spec k k') as [->|Hne]; [split; [done|tauto]|].
    rewrite IH. tauto.
Qed.

Lemma dict_get_elem_of k d v : dict_get k d = Some v -> k ∈ dict_keys d.
Proof.
  intros Hget. destruct (decide (k ∈ dict_keys d)) as [|Hn]; [done|].
  apply dict_get_None in Hn. congruence.
Qed.

Lemma dict_get_is_Some k d : k ∈ dict_keys d -> is_Some (dict_get k d).
Proof.
  intros Hin. destruct (dict_get k d) eqn:E; [by eexists|].
  by apply dict_get_None in E.
Qed.

Lemma dict_set_in k v d :
  k ∈ dict_keys d -> dict_keys (dict_set k v d) = dict_keys d.
Proof.
  induction d as [|[k' v'] d IH]; cbn [dict_set].
  - by intros ?%elem_of_nil.
  - rewrite dict_keys_cons, elem_of_cons.
    destruct (Z.eqb_spec k k') as [->|Hne]; [done|].
    intros [?|Hin]; [done|]. by rewrite !dict_keys_cons, IH.
Qed.

Lemma dict_set_notin k v d :
  k ∉ dict_keys d -> dict_set k v d = d ++ [(k, v)].
Proof.
  induction d as [|[k' v'] d IH]; cbn [dict_set]; [done|].
  rewrite dict_keys_cons, not_elem_of_cons.
  destruct (Z.eqb_spec k k') as [->|Hne]; [tauto|].
  intros [_ Hn]. by rewrite IH.
Qed.

Lemma dict_get_set_eq k v d : dict_get k (dict_set k v d) = Some v.
Proof.
  induction d as [|[k' v'] d IH]; cbn.
  - by rewrite Z.eqb_refl.
  - destruct (Z.eqb_spec k k') as [->|Hne]; cbn.
    + by rewrite Z.eqb_refl.
    + destruct (Z.eqb_spec k k'); [done|]. exact IH.
Qed.

Lemma dict_get_set_ne k k0 v d :
  k0 <> k -> dict_get k0 (dict_set k v d) = dict_get k0 d.
Proof.
  intros Hne. induction d as [|[k' v'] d IH]; cbn.
  - destruct (Z.eqb_spec k0 k); [done|done].
  - destruct (Z.eqb_spec k k') as [->|Hne']; cbn.
    + destruct (Z.eqb_spec k0 k'); done.
    + destruct (Z.eqb_spec k0 k'); [done|]. exact IH.
Qed.

Lemma dict_del_keys k d d' :
  dict_del k d = Some d' -> dict_keys d' = del_key k (dict_keys d).
Proof.
  revert d'. induction d as [|[k' v'] d IH]; intros d'; cbn [dict_del]; [done|].
  rewrite dict_keys_cons. cbn [del_key].
  destruct (Z.eqb_spec k k') as [->|Hne]; [by intros [= <-]|].
  destruct (dict_del k d) as [d''|]; [|done].
  intros [= <-]. by rewrite dict_keys_cons, (IH d'').
Qed.

Lemma dict_del_is_Some k d : k ∈ dict_keys d -> is_Some (dict_del k d).
Proof.
  induction d as [|[k' v'] d IH]; cbn [dict_del].
  - by intros ?%elem_of_nil.
  - rewrite dict_keys_cons, elem_of_cons.
    destruct (Z.eqb_spec k k') as [->|Hne]; [by eexists|].
    intros [?|Hin]; [done|].
    destruct (IH Hin) as [d'' ->]. by eexists.
Qed.

Lemma dict_get_del_ne k k0 d d' :
  k0 <> k -> dict_del k d = Some d' -> dict_get k0 d' = dict_get k0 d.
Proof.
  intros Hne. revert d'.
  induction d as [|[k' v'] d IH]; intros d'; cbn; [done|].
  destruct (Z.eqb_spec k k') as [->|Hne'].
  - intros [= <-]. destruct (Z.eqb_spec k0 k'); [done|done].
  - destruct (dict_del k d) as [d''|]; [|done]. intros [= <-]. cbn.
    destruct (Z.eqb_spec k0 k'); [done|]. by apply IH.
Qed.

End DictFacts.

Lemma del_key_incl (k : Z) (l : list Z) (x : Z) : x ∈ del_key k l -> x ∈ l.
Proof.
  induction l as [|k' l IH]; cbn [del_key]; [done|].
  rewrite elem_of_cons.
  destruct (Z.eqb_spec k k'); [by right|].
  rewrite elem_of_cons. intros [?|?]; [by left|right; auto].
Qed.

Lemma del_key_NoDup (k : Z) (l : list Z) : NoDup l -> NoDup (del_key k l).
Proof.
  induction l as [|k' l IH]; cbn [del_key]; [done|].
  rewrite NoDup_cons. intros [Hnotin Hnd].
  destruct (Z.eqb_spec k k'); [done|].
  apply NoDup_cons. split; [|by apply IH].
  intros Hin. apply Hnotin. by apply del_key_incl in Hin.
Qed.

Lemma del_key_notin (k : Z) (l : list Z) : NoDup l -> k ∉ del_key k l.
Proof.
  induction l as [|k' l IH]; cbn [del_key]; [intros _; apply not_elem_of_nil|].
  rewrite NoDup_cons. intros [Hnotin Hnd].
  destruct (Z.eqb_spec k k') as [->|Hne]; [done|].
  apply not_elem_of_cons. split; [done|]. by apply IH.
Qed.

Lemma del_key_other (k x : Z) (l : list Z) :
  x <> k -> x ∈ l -> x ∈ del_key k l.
Proof.
  intros Hne. induction l as [|k' l IH]; cbn [del_key]; [done|].
  rewrite elem_of_cons.
  destruct (Z.eqb_spec k k') as [->|Hne'].
  - intros [?|?]; [done|done].
  - rewrite elem_of_cons. intros [?|?]; [by left|right; auto].
Qed.

(** ** The tracker: identities *)

Section TrackerIds.
Import Tracker.

Implicit Types (s : MultiPersonTracker) (pid : Z).

Lemma extends_refl s : extends s s.
Proof. unfold extends. repeat split; [lia|]. intros k Hk. by left. Qed.

Lemma extends_trans s0 s s' : extends s0 s -> extends s s' -> extends s0 s'.
Proof.
  intros (Hn & Hm & Hd & Hk) (Hn' & Hm' & Hd' & Hk').
  unfold extends. split; [lia|]. split; [congruence|]. split; [congruence|].
  intros k Hin. destruct (Hk' k Hin) as [Hold|Hnew]; [|right; lia].
  exact (Hk k Hold).
Qed.

(** A method that keeps [wf] and only extends the state does so from any
    earlier state as well. *)
Lemma step_preserves {A} (c : M MultiPersonTracker A) :
  (forall s, wf s -> wf (final (c s)) /\ extends s (final (c s))) ->
  forall s0, preserves (fun s => wf s /\ extends s0 s) c.
Proof.
  intros Hc s0 s [Hwf Hext]. destruct (Hc s Hwf) as [Hwf' Hext'].
  split; [done|]. by apply extends_trans with s.
Qed.

Lemma preserves_step {A} (c : M MultiPersonTracker A) :
  (forall s0, preserves (fun s => wf s /\ extends s0 s) c) ->
  forall s, wf s -> wf (final (c s)) /\ extends s (final (c s)).
Proof. intros Hc s Hwf. apply (Hc s s). split; [done|apply extends_refl]. Qed.

Lemma wf_fresh s : wf s -> next_id s ∉ dict_keys (objects s).
Proof. intros (_ & _ & _ & Hall) Hin. specialize (Hall _ Hin). lia. Qed.

(** [_register] appends the identity [next_id] to both dictionaries and
    advances the counter by one. *)
Lemma register_eq (det : Detection) s :
  wf s ->
  _register det s
  = Ok tt {| next_id := next_id s + 1;
             objects := objects s
                        ++ [(next_id s, {| last_det := det;
                                           centroid := _get_centroid det |})];
             disappeared := disappeared s ++ [(next_id s, 0)];
             max_disappeared := max_disappeared s;
             max_distance := max_distance s |}.
Proof.
  intros Hwf. pose proof (wf_fresh s Hwf) as Hfresh.
  destruct Hwf as (Hkeys & _ & _).
  unfold _register, set_disappeared, set_objects, set_next_id. cbn.
  rewrite !dict_set_notin; [done|by rewrite Hkeys|done].
Qed.

Lemma register_step (det : Detection) s :
  wf s ->
  wf (final (_register det s)) /\ extends s (final (_register det s)).
Proof.
  intros Hwf. rewrite register_eq by done. cbn [final].
  pose proof (wf_fresh s Hwf) as Hfresh.
  destruct Hwf as (Hkeys & Hnd & Hpos & Hall).
  split.
  - unfold wf, dict_keys in *. cbn. rewrite !map_app, Hkeys. cbn.
    split; [done|]. split; [|split; [lia|]].
    + apply NoDup_app. split; [done|]. split.
      * intros x Hx Heq%list_elem_of_singleton. by subst x.
      * apply NoDup_singleton.
    + intros k [Hk|Heq%list_elem_of_singleton]%elem_of_app; [|lia].
      specialize (Hall k Hk). lia.
  - unfold extends, ids, dict_keys. cbn. split; [lia|].
    split; [done|]. split; [done|]. intros k.
    rewrite map_app, elem_of_app. cbn.
    intros [?|Heq%list_elem_of_singleton]; [by left|right; lia].
Qed.

(** [mark_disappeared] on an identity of the dictionary. *)
Lemma mark_disappeared_spec pid (n : Z) s :
  wf s -> dict_get pid (disappeared s) = Some n ->
  exists s',
    mark_disappeared pid s = Ok tt s'
    /\ wf s' /\ next_id s' = next_id s
    /\ max_disappeared s' = max_disappeared s
    /\ max_distance s' = max_distance s
    /\ (forall k, k <> pid ->
          dict_get k (disappeared s') = dict_get k (disappeared s)
          /\ dict_get k (objects s') = dict_get k (objects s))
    /\ (if max_disappeared s <? n + 1
        then dict_get pid (disappeared s') = None
             /\ dict_get pid (objects s') = None
             /\ ids s' = del_key pid (ids s)
        else dict_get pid (disappeared s') = Some (n + 1)
             /\ objects s' = objects s).
Proof.
  intros (Hkeys & Hnd & Hpos & Hall) Hget.
  pose proof (dict_get_elem_of _ _ _ Hget) as Hin.
  unfold mark_disappeared. rewrite Hget. cbn.
  destruct (max_disappeared s <? n + 1) eqn:Hmax.
  - unfold _deregister. cbn.
    assert (Hin' : pid ∈ dict_keys (objects s)) by (by rewrite <- Hkeys).
    destruct (dict_del_is_Some pid (objects s) Hin') as [o Ho].
    rewrite Ho. cbn.
    assert (Hin2 : pid ∈ dict_keys (dict_set pid (n + 1) (disappeared s)))
      by (by rewrite dict_set_in).
    destruct (dict_del_is_Some pid _ Hin2) as [d Hd]. rewrite Hd.
    pose proof (dict_del_keys _ _ _ Ho) as Hko.
    pose proof (dict_del_keys _ _ _ Hd) as Hkd.
    rewrite dict_set_in in Hkd by done.
    eexists. split; [done|]. unfold wf, ids.
    cbn [next_id objects disappeared max_disappeared max_distance
         set_disappeared set_objects].
    split; [|split; [done|split; [done|split; [done|split]]]].
    + split; [by rewrite Hko, Hkd, Hkeys|].
      split; [rewrite Hko; by apply del_key_NoDup|]. split; [done|].
      intros k Hk. rewrite Hko in Hk. apply Hall. by apply del_key_incl in Hk.
    + intros k Hne. split.
      * by rewrite (dict_get_del_ne _ _ _ _ Hne Hd), dict_get_set_ne.
      * by rewrite (dict_get_del_ne _ _ _ _ Hne Ho).
    + split; [|split].
      * apply dict_get_None. rewrite Hkd, Hkeys. by apply del_key_notin.
      * apply dict_get_None. rewrite Hko. by apply del_key_notin.
      * exact Hko.
  - eexists. split; [done|]. unfold wf, ids.
    cbn [next_id objects disappeared max_disappeared max_distance
         set_disappeared set_objects].
    split; [|split; [done|split; [done|split; [done|split]]]].
    + split; [by rewrite dict_set_in|done].
    + intros k Hne. by rewrite dict_get_set_ne.
    + by rewrite dict_get_set_eq.
Qed.

Lemma mark_disappeared_step pid s :
  wf s ->
  wf (final (mark_disappeared pid s))
  /\ extends s (final (mark_disappeared pid s)).
Proof.
  intros Hwf.
  destruct (dict_get pid (disappeared s)) as [n|] eqn:Hget.
  - destruct (mark_disappeared_spec pid n s Hwf Hget)
      as (s' & -> & Hwf' & Hn & Hm & Hd & _ & Hcase).
    cbn [final]. split; [done|].
    split; [lia|]. split; [done|]. split; [done|].
    intros k Hk. left.
    destruct (max_disappeared s <? n + 1).
    + destruct Hcase as (_ & _ & Hids). rewrite Hids in Hk.
      by apply del_key_incl in Hk.
    + destruct Hcase as (_ & Hobj). unfold ids in *. by rewrite Hobj in Hk.
  - unfold mark_disappeared. rewrite Hget. cbn. split; [done|].
    apply extends_refl.
Qed.

End TrackerIds.

Section TrackerUpdate.
Import Tracker.

Implicit Types (s : MultiPersonTracker) (pid : Z).
Context `{!SetOrder}.

(** The three ways an iteration of the matching loop can end: the pair is
    skipped, an index is out of range, or the track at [row] takes the
    detection at [col]. *)
Lemma match_pair_cases (detections : list Detection)
    (detection_centroids : list (Q * Q)) (D : list (list Q))
    (row col : nat) (ur uc : gset nat) s :
  let r := match_pair detections detection_centroids D (row, col) (ur, uc) s in
  r = Ok (ur, uc) s
  \/ r = Raise IndexError s
  \/ exists pid det c,
       dict_keys (objects s) !! row = Some pid
       /\ detections !! col = Some det
       /\ detection_centroids !! col = Some c
       /\ (row ∉ ur) /\ (col ∉ uc)
       /\ r = Ok (ur ∪ {[row]}, uc ∪ {[col]})
                (set_disappeared (dict_set pid 0 (disappeared s))
                   (set_objects
                      (dict_set pid {| last_det := det; centroid := c |}
                         (objects s)) s)).
Proof.
  cbv zeta. unfold match_pair.
  destruct (bool_decide (row ∈ ur)) eqn:Er; [by left|].
  destruct (bool_decide (col ∈ uc)) eqn:Ec; [by left|].
  cbn [orb]. apply bool_decide_eq_false in Er, Ec.
  unfold bind, gets, or_raise, modify, ret, raise.
  destruct (D !! row ≫= (.!! col)) as [d|]; [|by right; left].
  destruct (exceeds d (max_distance s)); [by left|].
  destruct (dict_keys (objects s) !! row) as [pid|] eqn:Ek; [|by right; left].
  destruct (detections !! col) as [det|] eqn:Ed; [|by right; left].
  destruct (detection_centroids !! col) as [c|] eqn:Ecs; [|by right; left].
  right; right. exists pid, det, c. done.
Qed.

Lemma match_pair_step (detections : list Detection)
    (detection_centroids : list (Q * Q)) (D : list (list Q))
    (rc : nat * nat) (used : gset nat * gset nat) s :
  wf s ->
  let r := match_pair detections detection_centroids D rc used s in
  wf (final r) /\ extends s (final r).
Proof.
  intros Hwf. destruct rc as [row col], used as [ur uc].
  destruct (match_pair_cases detections detection_centroids D row col ur uc s)
    as [Hr|[Hr|(pid & det & c & Hk & _ & _ & _ & _ & Hr)]];
    cbv zeta in *; rewrite Hr; cbn [final].
  - split; [done|apply extends_refl].
  - split; [done|apply extends_refl].
  - apply list_elem_of_lookup_2 in Hk.
    destruct Hwf as (Hkeys & Hnd & Hpos & Hall).
    assert (Hko : dict_keys (dict_set pid {| last_det := det; centroid := c |}
                               (objects s)) = dict_keys (objects s))
      by (by apply dict_set_in).
    assert (Hkd : dict_keys (dict_set pid 0 (disappeared s))
                  = dict_keys (disappeared s))
      by (apply dict_set_in; by rewrite Hkeys).
    unfold wf, extends, ids.
    cbn [next_id objects disappeared max_disappeared max_distance
         set_disappeared set_objects].
    rewrite Hko, Hkd. repeat split; try done; try lia.
    + by apply Hall.
    + by apply Hall.
    + intros k ?. by left.
Qed.

Lemma matching_step (detections : list Detection) s :
  wf s ->
  wf (final (matching detections s))
  /\ extends s (final (matching detections s)).
Proof.
  revert s. apply preserves_step. intros s0. unfold matching.
  apply preserves_bind; [apply preserves_gets|]. intros ocs.
  apply preserves_fold_each. intros rc used.
  apply step_preserves. intros s Hs. by apply match_pair_step.
Qed.

Lemma age_row_step (row : nat) s :
  wf s -> wf (final (age_row row s)) /\ extends s (final (age_row row s)).
Proof.
  revert s. apply preserves_step. intros s0. unfold age_row.
  apply preserves_bind; [apply preserves_gets|]. intros keys.
  apply preserves_bind; [apply preserves_or_raise|]. intros pid.
  apply step_preserves. intros s Hs. by apply mark_disappeared_step.
Qed.

Lemma register_col_step (detections : list Detection) (col : nat) s :
  wf s ->
  wf (final (register_col detections col s))
  /\ extends s (final (register_col detections col s)).
Proof.
  revert s. apply preserves_step. intros s0. unfold register_col.
  apply preserves_bind; [apply preserves_or_raise|]. intros det.
  apply step_preserves. intros s Hs. by apply register_step.
Qed.

(** Whatever the detections, and whether it returns or raises, [update]
    keeps the dictionaries consistent and only extends the state. *)
Lemma update_step (detections : list Detection) s :
  wf s ->
  wf (final (update detections s)) /\ extends s (final (update detections s)).
Proof.
  revert s. apply preserves_step. intros s0. unfold update.
  destruct (length detections =? 0)%nat.
  - apply preserves_bind; [apply preserves_gets|]. intros keys.
    apply preserves_bind; [|intros _; apply preserves_gets].
    apply preserves_for_each. intros pid.
    apply step_preserves. intros s Hs. by apply mark_disappeared_step.
  - apply preserves_bind; [apply preserves_gets|]. intros n.
    apply preserves_bind; [|intros _; apply preserves_gets].
    destruct (n =? 0)%nat.
    + apply preserves_for_each. intros det.
      apply step_preserves. intros s Hs. by apply register_step.
    + apply preserves_bind.
      * apply step_preserves. intros s Hs. by apply matching_step.
      * intros [ur uc]. destruct (length detections <=? n)%nat.
        -- apply preserves_for_each. intros row.
           apply step_preserves. intros s Hs. by apply age_row_step.
        -- apply preserves_for_each. intros col.
           apply step_preserves. intros s Hs. by apply register_col_step.
Qed.

Lemma init_wf (bound : Z) (reach : Q) : wf (init bound reach).
Proof.
  unfold wf. cbn. split; [done|]. split; [apply NoDup_nil_2|].
  split; [done|]. intros k Hk. by apply elem_of_nil in Hk.
Qed.

Lemma run_app (b1 b2 : list (list Detection)) s :
  run (b1 ++ b2) s = run b2 (run b1 s).
Proof. apply fold_left_app. Qed.

Lemma run_step (batches : list (list Detection)) s :
  wf s -> wf (run batches s) /\ extends s (run batches s).
Proof.
  revert s. induction batches as [|b l IH]; intros s Hwf.
  - split; [done|apply extends_refl].
  - cbn [run fold_left]. destruct (update_step b s Hwf) as [Hwf' Hext].
    destruct (IH _ Hwf') as [Hwf'' Hext'']. split; [done|].
    by apply extends_trans with (final (update b s)).
Qed.

(** C7.  From a fresh tracker and after the detections of any number of
    ticks, one more [update], whether it returns or raises: the counter
    starts at 0 and never goes back; the live identities are distinct; an
    identity that is live afterwards and was not before lies between the
    old and the new value of the counter, above every identity that was
    live at any earlier tick; an identity below the counter that is not
    live stays so.  [_register] hands out the value of the counter and
    advances it by one; [_deregister] leaves the counter alone. *)
Theorem track_ids_never_reused
    (bound : Z) (reach : Q) (before : list (list Detection))
    (detections : list Detection) :
  let s0 := init bound reach in
  let s := run before s0 in
  let s' := final (update detections s) in
  next_id s0 = 0
  /\ NoDup (ids s')
  /\ next_id s <= next_id s'
  /\ (forall k, k ∈ ids s' -> k ∉ ids s -> next_id s <= k < next_id s')
  /\ (forall earlier later k,
        before = earlier ++ later -> k ∈ ids (run earlier s0) ->
        0 <= k < next_id s)
  /\ (forall k, k < next_id s -> k ∉ ids s -> k ∉ ids s')
  /\ (forall det,
        ids (final (_register det s)) = ids s ++ [next_id s]
        /\ next_id (final (_register det s)) = next_id s + 1)
  /\ (forall pid, next_id (final (_deregister pid s)) = next_id s).
Proof.
  cbv zeta.
  set (s0 := init bound reach). set (s := run before s0).
  assert (Hwf0 : wf s0) by apply init_wf.
  destruct (run_step before s0 Hwf0) as [Hwf _]. fold s in Hwf.
  destruct (update_step detections s Hwf) as [Hwf' Hext].
  destruct Hext as (Hn & _ & _ & Hk).
  split; [done|]. split; [by destruct Hwf' as (_ & ? & _)|].
  split; [done|]. split; [|split; [|split; [|split]]].
  - intros k Hin Hnot. destruct (Hk k Hin) as [?|Hge]; [done|].
    destruct Hwf' as (_ & _ & _ & Hall). specialize (Hall k Hin). lia.
  - intros earlier later k -> Hin. subst s. rewrite run_app.
    destruct (run_step earlier s0 Hwf0) as [Hwf1 _].
    destruct (run_step later _ Hwf1) as [_ (Hmono & _)].
    destruct Hwf1 as (_ & _ & _ & Hall). specialize (Hall k Hin). lia.
  - intros k Hlt Hnot Hin. destruct (Hk k Hin) as [?|?]; [done|lia].
  - intros det. rewrite register_eq by done. unfold ids, dict_keys. cbn.
    by rewrite map_app.
  - intros pid. unfold _deregister.
    destruct (dict_del pid (objects s)) as [o|]; [|done]. cbn.
    by destruct (dict_del pid (disappeared s)).
Qed.

End TrackerUpdate.

(** ** The tracker: aging and registration *)

Section TrackerAging.
Import Tracker.

Implicit Types (s : MultiPersonTracker) (pid : Z).
Context `{!SetOrder}.

(** The loop [for person_id in list(self.disappeared.keys())] over
    distinct identities of the dictionary. *)
Lemma age_all (l : list Z) s :
  wf s -> NoDup l -> (forall k, k ∈ l -> k ∈ dict_keys (disappeared s)) ->
  exists s',
    for_each l mark_disappeared s = Ok tt s'
    /\ wf s' /\ next_id s' = next_id s
    /\ max_disappeared s' = max_disappeared s
    /\ max_distance s' = max_distance s
    /\ (forall k, k ∉ l ->
          dict_get k (disappeared s') = dict_get k (disappeared s)
          /\ dict_get k (objects s') = dict_get k (objects s))
    /\ (forall k n, k ∈ l -> dict_get k (disappeared s) = Some n ->
          if max_disappeared s <? n + 1
          then dict_get k (disappeared s') = None
               /\ dict_get k (objects s') = None
          else dict_get k (disappeared s') = Some (n + 1)
               /\ dict_get k (objects s') = dict_get k (objects s)).
Proof.
  revert s. induction l as [|k l IH]; intros s Hwf Hnd Hin.
  - exists s. cbn [for_each]. split; [done|]. split; [done|].
    split; [done|]. split; [done|]. split; [done|]. split; [done|].
    intros k n Hk. by apply elem_of_nil in Hk.
  - apply NoDup_cons in Hnd as [Hk Hnd].
    destruct (dict_get_is_Some k (disappeared s)) as [n Hn].
    { apply Hin. by left. }
    destruct (mark_disappeared_spec k n s Hwf Hn)
      as (s1 & Hstep & Hwf1 & Hid1 & Hm1 & Hd1 & Hother1 & Hcase1).
    destruct (IH s1 Hwf1 Hnd)
      as (s' & Hloop & Hwf' & Hid' & Hm' & Hd' & Hother' & Hcase').
    { intros k' Hk'. assert (Hne : k' <> k) by (by intros ->).
      destruct (Hother1 k' Hne) as [Hsame _].
      destruct (dict_get_is_Some k' (disappeared s)) as [n' Hn'].
      { apply Hin. by right. }
      apply dict_get_elem_of with n'. by rewrite Hsame. }
    exists s'. cbn [for_each]. unfold bind. rewrite Hstep.
    split; [done|]. split; [done|]. split; [congruence|].
    split; [congruence|]. split; [congruence|]. split.
    + intros k0 Hk0. apply not_elem_of_cons in Hk0 as [Hne Hk0].
      destruct (Hother' k0 Hk0) as [-> ->]. by apply Hother1.
    + intros k0 n0 Hk0 Hn0. apply elem_of_cons in Hk0 as [->|Hk0].
      * assert (n0 = n) as -> by congruence.
        destruct (Hother' k Hk) as [-> ->].
        destruct (max_disappeared s <? n + 1).
        -- by destruct Hcase1 as (? & ? & _).
        -- destruct Hcase1 as (? & Hobj). by rewrite Hobj.
      * assert (Hne : k0 <> k) by (by intros ->).
        destruct (Hother1 k0 Hne) as [Hsd Hso].
        specialize (Hcase' k0 n0 Hk0). rewrite Hsd, Hm1, Hso in Hcase'.
        by apply Hcase'.
Qed.

(** [update] without detections. *)
Lemma update_no_detections s :
  wf s ->
  exists s',
    update [] s = Ok (objects s') s'
    /\ wf s' /\ next_id s' = next_id s
    /\ (forall k, k ∈ ids s' -> k ∈ ids s)
    /\ (forall k n, dict_get k (disappeared s) = Some n ->
          if max_disappeared s <? n + 1
          then dict_get k (disappeared s') = None
               /\ dict_get k (objects s') = None
          else dict_get k (disappeared s') = Some (n + 1)
               /\ dict_get k (objects s') = dict_get k (objects s)).
Proof.
  intros Hwf. pose proof Hwf as (Hkeys & Hnd & _).
  destruct (age_all (dict_keys (disappeared s)) s Hwf)
    as (s' & Hloop & Hwf' & Hid & Hm & Hd & Hother & Hcase);
    [by rewrite Hkeys|done|].
  exists s'. unfold update. cbn [length Nat.eqb]. unfold bind, gets.
  rewrite Hloop. split; [done|]. split; [done|]. split; [done|]. split.
  - intros k Hk. unfold ids in *.
    destruct (decide (k ∈ dict_keys (objects s))) as [|Hnot]; [done|].
    exfalso. rewrite <- Hkeys in Hnot.
    destruct (Hother k Hnot) as [_ Ho].
    destruct (dict_get_is_Some k (objects s') Hk) as [v Hv].
    rewrite Hkeys in Hnot. apply dict_get_None in Hnot. congruence.
  - intros k n Hn. apply Hcase; [|done]. by apply dict_get_elem_of with n.
Qed.

End TrackerAging.

(** ** The tracker: greedy matching *)

Section TrackerMatching.
Import Tracker.

Implicit Types (s : MultiPersonTracker) (pid : Z).

Lemma argmin_from_range (l : list Q) (i best : nat) (bv : Q) :
  (best < i)%nat ->
  (fst (argmin_from i best bv l) < i + length l)%nat.
Proof.
  revert i best bv. induction l as [|v l IH]; intros i best bv Hlt; cbn.
  - lia.
  - destruct (Qltb v bv).
    + specialize (IH (S i) i v). lia.
    + specialize (IH (S i) best bv). lia.
Qed.

Lemma argmin_range (l : list Q) : l <> [] -> (argmin l < length l)%nat.
Proof.
  destruct l as [|v l]; [done|]. intros _. cbn.
  pose proof (argmin_from_range l 1 0 v). lia.
Qed.

Lemma insert_by_elem (x y : nat * Q) (l : list (nat * Q)) :
  y ∈ insert_by x l -> y = x \/ y ∈ l.
Proof.
  induction l as [|z l IH]; cbn.
  - intros ?%list_elem_of_singleton. by left.
  - destruct (Qleb (snd x) (snd z)).
    + intros [?|?]%elem_of_cons; [by left|by right].
    + intros [?|Hin]%elem_of_cons; [subst; right; by left|].
      destruct (IH Hin); [by left|right; by right].
Qed.

Lemma insertion_sort_elem (y : nat * Q) (l : list (nat * Q)) :
  y ∈ foldr insert_by [] l -> y ∈ l.
Proof.
  induction l as [|x l IH]; cbn; [done|].
  intros [->|Hin]%insert_by_elem; [by left|right; auto].
Qed.

(** [argsort] returns valid indices. *)
Lemma argsort_range (v : list Q) (i : nat) :
  i ∈ argsort v -> (i < length v)%nat.
Proof.
  unfold argsort. intros Hin.
  apply list_elem_of_fmap in Hin as ([j q] & -> & Hin).
  apply insertion_sort_elem in Hin. apply list_elem_of_In in Hin.
  apply in_combine_l in Hin. apply in_seq in Hin. cbn. lia.
Qed.

Lemma distance_matrix_lookup (ocs dcs : list (Q * Q)) (row col : nat) :
  (row < length ocs)%nat -> (col < length dcs)%nat ->
  is_Some (distance_matrix ocs dcs !! row ≫= (.!! col)).
Proof.
  intros Hr Hc. unfold distance_matrix.
  destruct (lookup_lt_is_Some_2 ocs row Hr) as [oc Hoc].
  destruct (lookup_lt_is_Some_2 dcs col Hc) as [dc Hdc].
  change (map ?f ?l) with (f <$> l).
  rewrite list_lookup_fmap, Hoc. cbn.
  change (map ?f ?l) with (f <$> l).
  rewrite list_lookup_fmap, Hdc. by eexists.
Qed.

Lemma argmins_range (ocs dcs : list (Q * Q)) (r : nat) :
  dcs <> [] ->
  (nth r (map argmin (distance_matrix ocs dcs)) 0 < length dcs)%nat.
Proof.
  intros Hne. unfold distance_matrix.
  destruct (decide (r < length ocs)%nat) as [Hlt|Hge].
  - rewrite map_map.
    destruct (lookup_lt_is_Some_2 ocs r Hlt) as [oc Hoc].
    erewrite nth_lookup_Some with (x := argmin (map (dist2 oc) dcs)).
    + pose proof (argmin_range (map (dist2 oc) dcs)) as Ha.
      rewrite length_map in Ha. apply Ha. by destruct dcs.
    + change (map ?f ?l) with (f <$> l). by rewrite list_lookup_fmap, Hoc.
  - rewrite nth_overflow; [destruct dcs; [done|cbn; lia]|].
    rewrite !length_map. lia.
Qed.

(** Under valid indices the loop body does not raise. *)
Lemma match_pair_in_range (detections : list Detection)
    (detection_centroids : list (Q * Q)) (D : list (list Q))
    (row col : nat) (ur uc : gset nat) s :
  is_Some (D !! row ≫= (.!! col)) ->
  (row < length (objects s))%nat ->
  (col < length detections)%nat ->
  length detection_centroids = length detections ->
  match_pair detections detection_centroids D (row, col) (ur, uc) s
  <> Raise IndexError s.
Proof.
  intros [d Hd] Hr Hc Hlen. unfold match_pair.
  destruct (bool_decide (row ∈ ur) || bool_decide (col ∈ uc)); [done|].
  unfold bind, gets, or_raise, modify, ret, raise. rewrite Hd.
  destruct (exceeds d (max_distance s)); [done|].
  destruct (lookup_lt_is_Some_2 (dict_keys (objects s)) row) as [pid ->].
  { unfold dict_keys. by rewrite length_map. }
  destruct (lookup_lt_is_Some_2 detections col Hc) as [det ->].
  destruct (lookup_lt_is_Some_2 detection_centroids col) as [c ->];
    [by rewrite Hlen|done].
Qed.

Lemma matched_refl s : matched s s ∅.
Proof.
  unfold matched. repeat split; try done.
  all: rewrite bool_decide_eq_false_2 in * by apply not_elem_of_empty;
    tauto.
Qed.

(** One matched pair extends the matching by its row. *)
Lemma matched_pair s s1 (ur : gset nat) (row : nat) pid (tr : Track) :
  wf s -> matched s s1 ur ->
  dict_keys (objects s1) !! row = Some pid ->
  matched s
    (set_disappeared (dict_set pid 0 (disappeared s1))
       (set_objects (dict_set pid tr (objects s1)) s1))
    (ur ∪ {[row]}).
Proof.
  intros (Hkeys & Hnd & _) (Hn & Hm & Hd & Hko & Hkd & Hrows) Hrow.
  pose proof (list_elem_of_lookup_2 _ _ _ Hrow) as Hin.
  unfold matched.
  cbn [next_id objects disappeared max_disappeared max_distance
       set_disappeared set_objects].
  split; [done|]. split; [done|]. split; [done|].
  split; [by rewrite dict_set_in|].
  split; [rewrite dict_set_in; [done|by rewrite Hkd, Hkeys, <- Hko]|].
  intros i pid_i Hi. rewrite Hko in Hrow.
  destruct (decide (i = row)) as [->|Hne].
  - assert (pid_i = pid) as -> by congruence.
    rewrite bool_decide_eq_true_2
      by (apply elem_of_union; right; by apply elem_of_singleton).
    apply dict_get_set_eq.
  - assert (Hpid : pid_i <> pid).
    { intros ->. apply Hne. by apply (NoDup_lookup _ _ _ pid Hnd). }
    specialize (Hrows i pid_i Hi).
    rewrite !dict_get_set_ne by done.
    destruct (bool_decide (i ∈ ur)) eqn:Eu.
    + apply bool_decide_eq_true in Eu.
      by rewrite bool_decide_eq_true_2 by (apply elem_of_union; by left).
    + apply bool_decide_eq_false in Eu.
      by rewrite bool_decide_eq_false_2
        by (rewrite elem_of_union, elem_of_singleton; tauto).
Qed.

(** The loop over the pairs, from a state already matched at [ur]. *)
Lemma matching_loop (detections : list Detection)
    (detection_centroids : list (Q * Q)) (D : list (list Q)) s
    (pairs : list (nat * nat)) :
  wf s ->
  length detection_centroids = length detections ->
  (forall row col, (row, col) ∈ pairs ->
     (row < length (objects s))%nat /\ (col < length detections)%nat
     /\ is_Some (D !! row ≫= (.!! col))) ->
  forall (ur uc : gset nat) s1,
    wf s1 -> matched s s1 ur ->
    exists ur' uc' s2,
      fold_each pairs (match_pair detections detection_centroids D) (ur, uc) s1
      = Ok (ur', uc') s2
      /\ wf s2 /\ matched s s2 ur'.
Proof.
  intros Hwf Hlen. induction pairs as [|[row col] pairs IH];
    intros Hpairs ur uc s1 Hwf1 Hm.
  - exists ur, uc, s1. done.
  - destruct (Hpairs row col) as (Hr & Hc & HD); [by left|].
    assert (Hlen1 : length (objects s1) = length (objects s)).
    { destruct Hm as (_ & _ & _ & Hko & _).
      apply (f_equal length) in Hko. unfold dict_keys in Hko.
      by rewrite !length_map in Hko. }
    pose proof (match_pair_in_range detections detection_centroids D row col
                  ur uc s1 HD ltac:(lia) Hc Hlen) as Hno.
    pose proof (match_pair_step detections detection_centroids D (row, col)
                  (ur, uc) s1 Hwf1) as [Hwf2 _].
    cbv zeta in Hwf2.
    assert (Hpairs' : forall row col, (row, col) ∈ pairs ->
              (row < length (objects s))%nat /\ (col < length detections)%nat
              /\ is_Some (D !! row ≫= (.!! col))).
    { intros r c Hin. apply Hpairs. by right. }
    cbn [fold_each]. unfold bind.
    destruct (match_pair_cases detections detection_centroids D row col
                ur uc s1)
      as [Hr1|[Hr1|(pid & det & c & Hk & _ & _ & _ & _ & Hr1)]];
      cbv zeta in Hr1.
    + rewrite Hr1. by apply IH.
    + done.
    + rewrite Hr1 in Hwf2 |- *. cbn [final] in Hwf2.
      apply IH; [done|done|]. by apply matched_pair.
Qed.

(** The matching of a non-empty list of detections against a non-empty
    dictionary of tracks returns, and leaves the unmatched tracks alone. *)
Lemma matching_ok (detections : list Detection) s :
  wf s -> detections <> [] ->
  exists ur uc s1,
    matching detections s = Ok (ur, uc) s1 /\ wf s1 /\ matched s s1 ur.
Proof.
  intros Hwf Hne. unfold matching, bind, gets.
  set (ocs := map (fun kv => centroid (snd kv)) (objects s)).
  set (dcs := _get_detection_centroids detections).
  set (D := distance_matrix ocs dcs).
  assert (Hdcs : length dcs = length detections)
    by (unfold dcs, _get_detection_centroids; by rewrite length_map).
  assert (Hocs : length ocs = length (objects s))
    by (unfold ocs; by rewrite length_map).
  assert (HD : length D = length ocs)
    by (unfold D, distance_matrix; by rewrite length_map).
  apply matching_loop; [done|done| |done|apply matched_refl].
  intros row col Hin. apply list_elem_of_In in Hin.
  pose proof (in_combine_l _ _ _ _ Hin) as Hrow.
  pose proof (in_combine_r _ _ _ _ Hin) as Hcol.
  apply list_elem_of_In, argsort_range in Hrow. rewrite length_map in Hrow.
  apply in_map_iff in Hcol as (r & <- & _).
  assert (Hc : (nth r (map argmin D) 0 < length dcs)%nat).
  { apply argmins_range. destruct detections; [done|]. done. }
  split; [lia|]. split; [lia|].
  apply distance_matrix_lookup; lia.
Qed.

End TrackerMatching.

(** ** The tracker: surplus detections *)

Section TrackerRegistration.
Import Tracker.

Implicit Types (s : MultiPersonTracker) (pid : Z).
Context `{!SetOrder}.

Lemma dict_get_app {V : Type} (k : Z) (d1 d2 : dict V) :
  dict_get k (d1 ++ d2)
  = match dict_get k d1 with Some v => Some v | None => dict_get k d2 end.
Proof.
  induction d1 as [|[k' v'] d1 IH]; cbn; [done|].
  by destruct (Z.eqb_spec k k').
Qed.

(** After [_register], the old entries are as they were and the new
    identity holds the detection with a counter of zero. *)
Lemma register_lookup (det : Detection) s :
  wf s ->
  let s' := final (_register det s) in
  _register det s = Ok tt s'
  /\ next_id s' = next_id s + 1
  /\ dict_get (next_id s) (objects s') = Some (new_track det)
  /\ dict_get (next_id s) (disappeared s') = Some 0
  /\ (forall k, k <> next_id s ->
        dict_get k (disappeared s') = dict_get k (disappeared s)
        /\ dict_get k (objects s') = dict_get k (objects s)).
Proof.
  intros Hwf. pose proof (wf_fresh s Hwf) as Hfresh.
  pose proof Hwf as (Hkeys & _).
  cbv zeta. rewrite register_eq by done.
  cbn [final next_id objects disappeared].
  split; [done|]. split; [done|].
  assert (Ho : dict_get (next_id s) (objects s) = None)
    by (by apply dict_get_None).
  assert (Hd : dict_get (next_id s) (disappeared s) = None)
    by (apply dict_get_None; by rewrite Hkeys).
  rewrite !dict_get_app, Ho, Hd. cbn. rewrite Z.eqb_refl.
  split; [done|]. split; [done|].
  intros k Hne. rewrite !dict_get_app. cbn.
  destruct (Z.eqb_spec k (next_id s)); [done|].
  split; [by destruct (dict_get k (disappeared s))|
          by destruct (dict_get k (objects s))].
Qed.

(** The loop [for col in unused_cols] over valid columns. *)
Lemma register_cols (detections : list Detection) (cols : list nat) s :
  wf s -> (forall c, c ∈ cols -> (c < length detections)%nat) ->
  exists s',
    for_each cols (register_col detections) s = Ok tt s'
    /\ wf s'
    /\ next_id s' = next_id s + Z.of_nat (length cols)
    /\ (forall k, k < next_id s ->
          dict_get k (disappeared s') = dict_get k (disappeared s)
          /\ dict_get k (objects s') = dict_get k (objects s))
    /\ (forall j col det,
          cols !! j = Some col -> detections !! col = Some det ->
          dict_get (next_id s + Z.of_nat j) (objects s') = Some (new_track det)
          /\ dict_get (next_id s + Z.of_nat j) (disappeared s') = Some 0).
Proof.
  revert s. induction cols as [|col cols IH]; intros s Hwf Hcols.
  - exists s. cbn [for_each length]. split; [done|]. split; [done|].
    split; [lia|]. split; [done|]. intros j c det Hj. done.
  - destruct (lookup_lt_is_Some_2 detections col) as [det Hdet].
    { apply Hcols. by left. }
    destruct (register_lookup det s Hwf) as (Hreg & Hn1 & Ho1 & Hd1 & Hother1).
    destruct (register_step det s Hwf) as [Hwf1 _].
    set (s1 := final (_register det s)) in *.
    destruct (IH s1 Hwf1) as (s' & Hloop & Hwf' & Hn' & Hold' & Hnew').
    { intros c Hc. apply Hcols. by right. }
    exists s'. cbn [for_each]. unfold bind, register_col at 1, bind, or_raise.
    rewrite Hdet. cbn [ret]. rewrite Hreg. split; [exact Hloop|].
    split; [done|]. split; [cbn [length]; lia|]. split.
    + intros k Hk. destruct (Hold' k ltac:(lia)) as [-> ->].
      apply Hother1. lia.
    + intros j c d Hj Hd. destruct j as [|j]; cbn in Hj.
      * injection Hj as <-. assert (d = det) as -> by congruence.
        rewrite Z.add_0_r. destruct (Hold' (next_id s) ltac:(lia)) as [-> ->].
        done.
      * destruct (Hnew' j c d Hj Hd) as [Ho Hdd].
        rewrite Hn1 in Ho, Hdd.
        replace (next_id s + Z.of_nat (S j)) with (next_id s + 1 + Z.of_nat j)
          by lia.
        done.
Qed.

Lemma unused_spec (n : nat) (used : gset nat) (c : nat) :
  c ∈ unused n used <-> (c < n)%nat /\ c ∉ used.
Proof.
  unfold unused.
  rewrite difference_order_perm, elem_of_elements, elem_of_difference,
    elem_of_list_to_set, elem_of_seq.
  split; intros [? ?]; (split; [lia|done]).
Qed.

Lemma unused_NoDup (n : nat) (used : gset nat) : NoDup (unused n used).
Proof.
  unfold unused. rewrite difference_order_perm. apply NoDup_elements.
Qed.

(** [update] with more detections than tracks, and at least one track. *)
Lemma update_surplus (detections : list Detection) s :
  wf s ->
  (0 < length (objects s) < length detections)%nat ->
  exists ur uc s1 s',
    matching detections s = Ok (ur, uc) s1
    /\ update detections s = Ok (objects s') s'
    /\ (forall i pid, ids s !! i = Some pid ->
          if bool_decide (i ∈ ur)
          then dict_get pid (disappeared s') = Some 0
          else dict_get pid (disappeared s') = dict_get pid (disappeared s)
               /\ dict_get pid (objects s') = dict_get pid (objects s))
    /\ (forall col det, detections !! col = Some det -> col ∉ uc ->
          exists id, next_id s <= id < next_id s'
            /\ dict_get id (objects s') = Some (new_track det)
            /\ dict_get id (disappeared s') = Some 0).
Proof.
  intros Hwf [Hpos Hlt].
  destruct (matching_ok detections s Hwf)
    as (ur & uc & s1 & Hmatch & Hwf1 & Hm).
  { destruct detections; [cbn in Hlt; lia|done]. }
  destruct (register_cols detections (unused (length detections) uc) s1 Hwf1)
    as (s' & Hloop & Hwf' & Hn' & Hold & Hnew).
  { intros c Hc. by apply unused_spec in Hc as [? _]. }
  destruct Hm as (Hn1 & _ & _ & Hko & _ & Hrows).
  exists ur, uc, s1, s'. split; [done|]. split.
  - assert (E0 : (length detections =? 0)%nat = false)
      by (apply Nat.eqb_neq; lia).
    assert (E1 : (length (objects s) =? 0)%nat = false)
      by (apply Nat.eqb_neq; lia).
    assert (E2 : (length detections <=? length (objects s))%nat = false)
      by (apply Nat.leb_gt; lia).
    unfold update. rewrite E0. unfold bind at 1, gets at 1. cbv beta.
    rewrite E1. unfold bind. rewrite Hmatch, E2, Hloop. done.
  - split.
    + intros i pid Hi. specialize (Hrows i pid Hi).
      assert (Hlive : pid < next_id s1).
      { destruct Hwf as (_ & _ & _ & Hall). rewrite Hn1.
        apply Hall. by apply list_elem_of_lookup_2 in Hi. }
      destruct (Hold pid Hlive) as [-> ->]. exact Hrows.
    + intros col det Hdet Hcol.
      assert (Hin : col ∈ unused (length detections) uc).
      { apply unused_spec. split; [|done].
        apply lookup_lt_is_Some. by eexists. }
      apply list_elem_of_lookup_1 in Hin as [j Hj].
      destruct (Hnew j col det Hj Hdet) as [Ho Hd].
      exists (next_id s1 + Z.of_nat j). rewrite <- Hn1.
      split; [|done]. apply lookup_lt_Some in Hj. lia.
Qed.

(** The two branches of the aging rule that work as the design document
    says.  From any state the tracker reaches.  Without detections
    [update] returns, registers nothing, and for every live track adds
    one to its counter, removing the track once the counter exceeds
    [max_disappeared].  With strictly more detections than tracks (and at
    least one track) it returns with every track still live, the counter
    of a matched track reset and an unmatched track untouched, and every
    unmatched detection registered under a new identity with a counter of
    zero.  So a track whose counter ends an [update] neither unchanged nor
    reset - incremented, or the track removed - was updated with at most
    as many detections as there were tracks. *)
Theorem aging_only_without_surplus_detections
    (bound : Z) (reach : Q) (before : list (list Detection))
    (detections : list Detection) :
  let s := run before (init bound reach) in
  (exists s',
     update [] s = Ok (objects s') s'
     /\ next_id s' = next_id s
     /\ (forall k, k ∈ ids s' -> k ∈ ids s)
     /\ (forall k n, dict_get k (disappeared s) = Some n ->
           if max_disappeared s <? n + 1
           then dict_get k (disappeared s') = None
                /\ dict_get k (objects s') = None
           else dict_get k (disappeared s') = Some (n + 1)
                /\ dict_get k (objects s') = dict_get k (objects s)))
  /\ ((0 < length (objects s) < length detections)%nat ->
      exists ur uc s1 s',
        matching detections s = Ok (ur, uc) s1
        /\ update detections s = Ok (objects s') s'
        /\ (forall i pid, ids s !! i = Some pid ->
              if bool_decide (i ∈ ur)
              then dict_get pid (disappeared s') = Some 0
              else dict_get pid (disappeared s') = dict_get pid (disappeared s)
                   /\ dict_get pid (objects s') = dict_get pid (objects s))
        /\ (forall col det, detections !! col = Some det -> col ∉ uc ->
              exists id, next_id s <= id < next_id s'
                /\ dict_get id (objects s') = Some (new_track det)
                /\ dict_get id (disappeared s') = Some 0))
  /\ (forall pid n,
        dict_get pid (disappeared s) = Some n ->
        dict_get pid (disappeared (final (update detections s))) <> Some n ->
        dict_get pid (disappeared (final (update detections s))) <> Some 0 ->
        (length detections <= length (objects s))%nat).
Proof.
  cbv zeta. set (s := run before (init bound reach)).
  assert (Hwf : wf s) by (apply run_step, init_wf).
  split; [|split].
  - destruct (update_no_detections s Hwf) as (s' & Hu & _ & Hn & Hk & Hc).
    exists s'. done.
  - intros Hlen. by apply update_surplus.
  - intros pid n Hn Hsame Hzero.
    destruct (decide (length detections <= length (objects s))%nat)
      as [|Hgt]; [done|]. exfalso.
    pose proof Hwf as (Hkeys & _).
    pose proof (dict_get_elem_of _ _ _ Hn) as Hin. rewrite Hkeys in Hin.
    assert (Hpos : (0 < length (objects s))%nat).
    { unfold dict_keys in Hin. destruct (objects s); [|cbn; lia].
      by apply elem_of_nil in Hin. }
    destruct (update_surplus detections s Hwf ltac:(lia))
      as (ur & uc & s1 & s' & _ & Hu & Htracks & _).
    rewrite Hu in Hsame, Hzero. cbn [final] in Hsame, Hzero.
    apply list_elem_of_lookup_1 in Hin as [i Hi].
    specialize (Htracks i pid Hi).
    destruct (bool_decide (i ∈ ur)); [done|].
    destruct Htracks as [Hd _]. congruence.
Qed.

End TrackerRegistration.

(** ** The tracker on concrete detections *)

Section TrackerExamples.
Import Tracker.
Local Existing Instance ascending_order.

(** Three detections against the two tracks of the first tick. *)
Lemma aging_only_without_surplus_detections_witness :
  exists s',
    update four_persons (run [two_persons] (init 30 50)) = Ok (objects s') s'.
Proof.
  destruct (aging_only_without_surplus_detections 30 50 [two_persons]
              four_persons) as (_ & Hsurplus & _).
  destruct Hsurplus as (ur & uc & s1 & s' & _ & Hu & _).
  { split; vm_compute; lia. }
  exists s'. exact Hu.
Defined.

(** Two detections far apart on a fresh tracker get the identities 0 and
    1; the same detections again keep them, with counters of zero. *)
Example two_tracks_registered_and_kept :
  let s1 := run [two_persons] (init 30 50) in
  let s2 := run [two_persons; two_persons] (init 30 50) in
  ids s1 = [0; 1] /\ ids s2 = [0; 1]
  /\ disappeared s2 = [(0, 0); (1, 0)] /\ next_id s2 = 2.
Proof. vm_compute. done. Qed.

(** Three detections against two tracks: the track near a detection is
    matched, the other one is neither aged nor removed, and the two
    unmatched detections are registered as 2 and 3. *)
Example surplus_detections_registered :
  let s := run [two_persons; four_persons] (init 30 50) in
  ids s = [0; 1; 2; 3]
  /\ disappeared s = [(0, 0); (1, 0); (2, 0); (3, 0)] /\ next_id s = 4.
Proof. vm_compute. done. Qed.

(** The aging loop reads [list(self.objects.keys())[row]] afresh at every
    iteration.  With [max_disappeared = 0], two tracks and one detection
    far from both, row 0 is aged and removed, and the read at row 1 then
    falls outside the one key that is left: [update] raises, and the
    second track has not been aged. *)
Example aging_after_eviction_raises :
  let s := run [two_persons] (init 0 50) in
  match update [detection_at 1000 1000 1002 1000] s with
  | Raise e s' => e = IndexError /\ disappeared s' = [(1, 0)]
  | Ok _ _ => False
  end.
Proof. vm_compute. done. Qed.

End TrackerExamples.

(** ** The two mappers side by side *)

Section MapperCells.

Lemma Qfloor_nonneg (q : Q) : (0 <= q)%Q -> 0 <= Qfloor q.
Proof.
  intros Hq. change 0 with (Qfloor 0). by apply Qfloor_resp_le.
Qed.

Lemma Qfloor_lt_Z (q : Q) (n : Z) : (q < inject_Z n)%Q -> Qfloor q < n.
Proof.
  intros Hq. rewrite Zlt_Qlt.
  apply Qle_lt_trans with q; [apply Qfloor_le|done].
Qed.

Lemma Qfloor_ge_Z (q : Q) (n : Z) : (inject_Z n <= q)%Q -> n <= Qfloor q.
Proof.
  intros Hq. rewrite <- (Qfloor_Z n). by apply Qfloor_resp_le.
Qed.

Lemma inject_Z_nonneg (n : Z) : 0 <= n -> (0 <= inject_Z n)%Q.
Proof. intros Hn. change 0%Q with (inject_Z 0). by rewrite <- Zle_Qle. Qed.

(** [np.clip(v, 0, n)] lies in [0, n], and is [v] when [v] does. *)
Lemma Qclip_range (v n : Q) :
  (0 <= n)%Q ->
  (0 <= Qclip v 0 n <= n)%Q /\ ((0 <= v <= n)%Q -> Qclip v 0 n = v).
Proof.
  intros Hn. unfold Qclip, Qminimum, Qmaximum.
  destruct (Qltb v 0) eqn:E1.
  - apply Qltb_spec in E1.
    assert (E2 : Qltb n 0 = false) by (by apply Qltb_false).
    rewrite E2. split; [split; [apply Qle_refl|done]|].
    intros [Hv _]. exfalso. exact (Qlt_not_le _ _ E1 Hv).
  - apply Qltb_false in E1. destruct (Qltb n v) eqn:E2.
    + apply Qltb_spec in E2. split; [split; [done|apply Qle_refl]|].
      intros [_ Hv]. exfalso. exact (Qlt_not_le _ _ E2 Hv).
    + apply Qltb_false in E2. done.
Qed.

(** Flooring and clamping into the cells gives the same cell before and
    after the coordinate was clamped into [0, n]. *)
Lemma clip_floor_Qclip (v : Q) (n : Z) :
  1 <= n ->
  clip (Qfloor (Qclip v 0 (inject_Z n))) 0 (n - 1) = clip (Qfloor v) 0 (n - 1).
Proof.
  intros Hn. unfold Qclip, Qminimum, Qmaximum.
  assert (Hn' : (0 <= inject_Z n)%Q) by (apply inject_Z_nonneg; lia).
  destruct (Qltb v 0) eqn:E1.
  - apply Qltb_spec in E1.
    assert (E2 : Qltb (inject_Z n) 0 = false) by (by apply Qltb_false).
    rewrite E2. pose proof (Qfloor_lt_Z v 0 E1).
    change (Qfloor 0) with 0. unfold clip. lia.
  - apply Qltb_false in E1. destruct (Qltb (inject_Z n) v) eqn:E2; [|done].
    apply Qltb_spec in E2. rewrite Qfloor_Z.
    pose proof (Qfloor_ge_Z v n (Qlt_le_weak _ _ E2)).
    unfold clip. lia.
Qed.

(** X1.  mapping.py: when [pixel_to_grid_cell] does not flag a pixel, a
    transform is loaded, the cell it returns is the floor of the projected
    point, untouched by the clamping, and it is a cell of the grid. *)
Theorem cell_is_floor_when_inside
    (self : Mapping.PixelToGridMapper) (x y : Q) (row col : Z) :
  Mapping.pixel_to_grid_cell self x y = (row, col, false) ->
  Mapping.is_ready self = true
  /\ row = Qfloor (fst (Mapping.pixel_to_grid_float self x y))
  /\ col = Qfloor (snd (Mapping.pixel_to_grid_float self x y))
  /\ 0 <= row < Mapping.rows self /\ 0 <= col < Mapping.cols self.
Proof.
  unfold Mapping.pixel_to_grid_cell, Mapping.is_ready.
  destruct (Mapping.pixel_to_grid_float self x y) as [row_f col_f] eqn:Ef.
  cbn [fst snd]. intros [= <- <- Hflag].
  apply orb_false_iff in Hflag as [Hflag H4].
  apply orb_false_iff in Hflag as [Hflag H3].
  apply orb_false_iff in Hflag as [H1 H2].
  apply Qltb_false in H1, H2.
  assert (H3' : (row_f < inject_Z (Mapping.rows self))%Q).
  { apply Qnot_le_lt. intros Hle. apply Qleb_spec in Hle. congruence. }
  assert (H4' : (col_f < inject_Z (Mapping.cols self))%Q).
  { apply Qnot_le_lt. intros Hle. apply Qleb_spec in Hle. congruence. }
  pose proof (Qfloor_nonneg _ H1). pose proof (Qfloor_nonneg _ H2).
  pose proof (Qfloor_lt_Z _ _ H3'). pose proof (Qfloor_lt_Z _ _ H4').
  split.
  - unfold Mapping.pixel_to_grid_float in Ef.
    destruct (Mapping.H self); [done|]. injection Ef as <- <-.
    exfalso. apply (Qle_not_lt _ _ H1). reflexivity.
  - unfold clip. lia.
Qed.

(** The pixel (3.5, 2.5) under the identity transform. *)
Lemma cell_is_floor_when_inside_witness :
  Mapping.pixel_to_grid_cell (identity_mapper 8 8) (7 # 2) (5 # 2)
  = (2, 3, false)
  /\ Mapping.is_ready (identity_mapper 8 8) = true.
Proof.
  assert (Hcell : Mapping.pixel_to_grid_cell (identity_mapper 8 8)
                    (7 # 2) (5 # 2) = (2, 3, false))
    by (vm_compute; reflexivity).
  split; [exact Hcell|].
  by destruct (cell_is_floor_when_inside _ _ _ _ _ Hcell) as (? & _).
Defined.

(** X2.  On the same transform and grid, [RobustPixelToGridMapper] and
    [PixelToGridMapper] return the same cell for every pixel, calibrated or
    not; the flag of [PixelToGridMapper] is the flag of
    [RobustPixelToGridMapper] or a negative projected coordinate. *)
Theorem mappers_agree_on_cell
    (m : Mapping.PixelToGridMapper)
    (r : RobustMapping.RobustPixelToGridMapper) (x y : Q) :
  RobustMapping.H r = Mapping.H m ->
  RobustMapping.rows r = Mapping.rows m ->
  RobustMapping.cols r = Mapping.cols m ->
  1 <= Mapping.rows m -> 1 <= Mapping.cols m ->
  let '(row_f, col_f) := Mapping.pixel_to_grid_float m x y in
  let '(row, col, outside) := Mapping.pixel_to_grid_cell m x y in
  let '(row', col', outside') := RobustMapping.pixel_to_grid_cell r x y in
  row' = row /\ col' = col
  /\ outside = Qltb row_f 0 || Qltb col_f 0 || outside'.
Proof.
  intros HH Hrows Hcols Hr Hc.
  unfold Mapping.pixel_to_grid_cell, RobustMapping.pixel_to_grid_cell,
    Mapping.pixel_to_grid_float, RobustMapping.pixel_to_grid_float.
  rewrite HH, Hrows, Hcols. destruct (Mapping.H m) as [h|].
  - destruct (dot h (x, y, 1%Q)) as [[w0 w1] w2].
    rewrite !clip_floor_Qclip by done.
    split; [done|]. split; [done|].
    assert (Hr' : (0 < inject_Z (Mapping.rows m))%Q).
    { change 0%Q with (inject_Z 0). rewrite <- Zlt_Qlt. lia. }
    assert (Hc' : (0 < inject_Z (Mapping.cols m))%Q).
    { change 0%Q with (inject_Z 0). rewrite <- Zlt_Qlt. lia. }
    rewrite !Qclip_nonneg by (by apply Qlt_le_weak).
    rewrite !Qclip_reaches by done. cbn [orb].
    by destruct (Qltb (w1 / (w2 + eps)) 0), (Qltb (w0 / (w2 + eps)) 0).
  - done.
Qed.

(** The pixel (-5, -5) under the identity transform: the same cell, and
    only [PixelToGridMapper] flags it. *)
Lemma mappers_agree_on_cell_witness :
  fst (RobustMapping.pixel_to_grid_cell (robust_identity_mapper 8 8) (-5) (-5))
  = fst (Mapping.pixel_to_grid_cell (identity_mapper 8 8) (-5) (-5)).
Proof.
  pose proof (mappers_agree_on_cell (identity_mapper 8 8)
                (robust_identity_mapper 8 8) (-5) (-5)) as Hthm.
  destruct (Mapping.pixel_to_grid_float (identity_mapper 8 8) (-5) (-5))
    as [row_f col_f].
  destruct (Mapping.pixel_to_grid_cell (identity_mapper 8 8) (-5) (-5))
    as [[row col] outside].
  destruct (RobustMapping.pixel_to_grid_cell (robust_identity_mapper 8 8)
              (-5) (-5)) as [[row' col'] outside'].
  destruct Hthm as (-> & -> & _); [reflexivity|reflexivity|reflexivity| | |];
    [cbn; lia|cbn; lia|reflexivity].
Defined.

(** X3.  robust_mapping.py: with a transform loaded,
    [pixel_to_grid_float] returns the point that [PixelToGridMapper]
    returns, clamped into [0, rows] x [0, cols]: every coordinate it
    returns lies in that range, and a coordinate that is already in it is
    returned unchanged. *)
Theorem robust_float_is_clamped_projection
    (m : Mapping.PixelToGridMapper)
    (r : RobustMapping.RobustPixelToGridMapper) (h : mat3) (x y : Q) :
  Mapping.H m = Some h -> RobustMapping.H r = Some h ->
  0 <= RobustMapping.rows r -> 0 <= RobustMapping.cols r ->
  let '(row_f, col_f) := Mapping.pixel_to_grid_float m x y in
  let '(row_f', col_f') := RobustMapping.pixel_to_grid_float r x y in
  (0 <= row_f' <= inject_Z (RobustMapping.rows r))%Q
  /\ (0 <= col_f' <= inject_Z (RobustMapping.cols r))%Q
  /\ ((0 <= row_f <= inject_Z (RobustMapping.rows r))%Q -> row_f' = row_f)
  /\ ((0 <= col_f <= inject_Z (RobustMapping.cols r))%Q -> col_f' = col_f).
Proof.
  intros Hm Hr Hrows Hcols.
  unfold Mapping.pixel_to_grid_float, RobustMapping.pixel_to_grid_float.
  rewrite Hm, Hr. destruct (dot h (x, y, 1%Q)) as [[w0 w1] w2].
  destruct (Qclip_range (w1 / (w2 + eps)) (inject_Z (RobustMapping.rows r)))
    as [? ?]; [by apply inject_Z_nonneg|].
  destruct (Qclip_range (w0 / (w2 + eps)) (inject_Z (RobustMapping.cols r)))
    as [? ?]; [by apply inject_Z_nonneg|].
  done.
Qed.

(** The pixel (10000, 3) under the identity transform: the row stays, the
    column is clamped to 8. *)
Lemma robust_float_is_clamped_projection_witness :
  let '(row_f', col_f') :=
    RobustMapping.pixel_to_grid_float (robust_identity_mapper 8 8) 10000 3 in
  (0 <= row_f' <= 8)%Q /\ (0 <= col_f' <= 8)%Q.
Proof.
  pose proof (robust_float_is_clamped_projection (identity_mapper 8 8)
                (robust_identity_mapper 8 8) eye3 10000 3) as Hthm.
  destruct (Mapping.pixel_to_grid_float (identity_mapper 8 8) 10000 3)
    as [row_f col_f].
  destruct (RobustMapping.pixel_to_grid_float (robust_identity_mapper 8 8)
              10000 3) as [row_f' col_f'].
  destruct Hthm as (Hrow & Hcol & _);
    [reflexivity|reflexivity|cbn; lia|cbn; lia|].
  split; [exact Hrow|exact Hcol].
Defined.

Lemma elem_of_py_range (n x : Z) : x ∈ py_range n <-> 0 <= x < n.
Proof.
  unfold py_range. rewrite list_elem_of_In, in_map_iff. split.
  - intros (i & <- & Hi%in_seq). lia.
  - intros Hx. exists (Z.to_nat x). split; [lia|]. apply in_seq. lia.
Qed.

(** X4.  mapping.py: on a grid with non-negative extent, [grid_lines]
    returns [rows + cols + 2] lines: exactly the horizontal lines at the
    rows 0 to [rows], each from column 0 to column [cols], and the vertical
    lines at the columns 0 to [cols], each from row 0 to row [rows]. *)
Theorem grid_lines_span_grid (self : Mapping.PixelToGridMapper) :
  0 <= Mapping.rows self -> 0 <= Mapping.cols self ->
  Z.of_nat (length (Mapping.grid_lines self))
  = Mapping.rows self + Mapping.cols self + 2
  /\ forall line,
       line ∈ Mapping.grid_lines self <->
       (exists r, 0 <= r <= Mapping.rows self
          /\ line = ((r, 0), (r, Mapping.cols self)))
       \/ (exists c, 0 <= c <= Mapping.cols self
             /\ line = ((0, c), (Mapping.rows self, c))).
Proof.
  intros Hr Hc. unfold Mapping.grid_lines. split.
  - rewrite length_app, !length_map. unfold py_range.
    rewrite !length_map, !length_seq. lia.
  - intros line. rewrite elem_of_app.
    change (map ?f ?l) with (f <$> l). rewrite !list_elem_of_fmap.
    split.
    + intros [(r0 & -> & Hin)|(c0 & -> & Hin)];
        apply elem_of_py_range in Hin; [left|right]; eexists;
        (split; [|reflexivity]); lia.
    + intros [(r0 & Hin & ->)|(c0 & Hin & ->)]; [left|right]; eexists;
        (split; [reflexivity|]); apply elem_of_py_range; lia.
Qed.

(** The 18 lines of the 8x8 grid. *)
Lemma grid_lines_span_grid_witness :
  Z.of_nat (length (Mapping.grid_lines (identity_mapper 8 8))) = 18.
Proof.
  destruct (grid_lines_span_grid (identity_mapper 8 8)) as [Hlen _];
    [cbn; lia|cbn; lia|].
  exact Hlen.
Defined.

End MapperCells.

(** ** The debouncer over whole histories *)

Section SmoothingHistories.
Import Smoothing.

(** One observation, read on the entry of its key before and after. *)
Lemma observe_core (self : LavaSmoother) pid foot row col b :
  let e := entry self (pid, foot) row col in
  let r := observe self pid foot row col b in
  let e' := entry (snd r) (pid, foot) row col in
  let triggered := b && negb (is_on_lava e) && (k self <=? lava_run e + 1) in
  k (snd r) = k self /\ m (snd r) = m self
  /\ frame_index (snd r) = frame_index self
  /\ fst r = triggered
  /\ lava_run e' = (if b then lava_run e + 1 else 0)
  /\ safe_run e' = (if b then 0 else safe_run e + 1)
  /\ is_on_lava e'
     = (if (triggered || is_on_lava e) && negb b && (m self <=? safe_run e + 1)
        then false else triggered || is_on_lava e).
Proof.
  cbv zeta.
  destruct (observe_state self pid foot row col b) as [Hst Htr].
  set (e := entry self (pid, foot) row col) in *.
  assert (He' : entry (snd (observe self pid foot row col b)) (pid, foot)
                  row col
                = fst (observe_entry self e row col b)).
  { unfold entry at 1. by rewrite Hst. }
  rewrite He', Htr.
  assert (Hk : k (snd (observe self pid foot row col b)) = k self
               /\ m (snd (observe self pid foot row col b)) = m self
               /\ frame_index (snd (observe self pid foot row col b))
                  = frame_index self).
  { unfold observe. by destruct (observe_entry _ _ _ _ _). }
  destruct Hk as (-> & -> & ->).
  unfold observe_entry.
  cbn [fst snd lava_run safe_run is_on_lava].
  split; [done|]. split; [done|]. split; [done|].
  destruct b; cbn [andb negb orb].
  - rewrite !andb_false_r. repeat split; done.
  - repeat split; done.
Qed.

Lemma entry_next_frame (self : LavaSmoother) key row col :
  lava_run (entry (next_frame self) key row col)
  = lava_run (entry self key row col)
  /\ safe_run (entry (next_frame self) key row col)
     = safe_run (entry self key row col)
  /\ is_on_lava (entry (next_frame self) key row col)
     = is_on_lava (entry self key row col).
Proof.
  unfold entry. cbn [state next_frame]. by destruct (state self !! key).
Qed.

Lemma entry_observe_other (self : LavaSmoother) pid foot row col b key r c :
  key <> (pid, foot) ->
  lava_run (entry (snd (observe self pid foot row col b)) key r c)
  = lava_run (entry self key r c)
  /\ safe_run (entry (snd (observe self pid foot row col b)) key r c)
     = safe_run (entry self key r c)
  /\ is_on_lava (entry (snd (observe self pid foot row col b)) key r c)
     = is_on_lava (entry self key r c).
Proof.
  intros Hne. unfold entry. rewrite observe_other by done.
  by destruct (state self !! key).
Qed.

(** What [observe] returns for a key, and what it leaves in the entry,
    is decided by the thresholds and by the two counters and the flag of
    the entry: two smoothers that agree on these keep agreeing when the
    first one is stepped through a history and the second one only
    through the observations of the key. *)
Lemma after_on_key (pid : Z) (foot : string) (row col : Z)
    (calls : list call) (s1 s2 : LavaSmoother) :
  k s1 = k s2 -> m s1 = m s2 ->
  lava_run (entry s1 (pid, foot) row col)
  = lava_run (entry s2 (pid, foot) row col) ->
  safe_run (entry s1 (pid, foot) row col)
  = safe_run (entry s2 (pid, foot) row col) ->
  is_on_lava (entry s1 (pid, foot) row col)
  = is_on_lava (entry s2 (pid, foot) row col) ->
  let s1' := after calls s1 in
  let s2' := after (List.filter (on_key pid foot) calls) s2 in
  k s1' = k s2' /\ m s1' = m s2'
  /\ lava_run (entry s1' (pid, foot) row col)
     = lava_run (entry s2' (pid, foot) row col)
  /\ safe_run (entry s1' (pid, foot) row col)
     = safe_run (entry s2' (pid, foot) row col)
  /\ is_on_lava (entry s1' (pid, foot) row col)
     = is_on_lava (entry s2' (pid, foot) row col).
Proof.
  revert s1 s2. induction calls as [|c calls IH]; intros s1 s2 Hk Hm Hl Hs Ho.
  - done.
  - cbn [List.filter]. unfold after in *. cbn [fold_left].
    destruct c as [|p f r c b]; cbn [on_key step].
    + destruct (entry_next_frame s1 (pid, foot) row col) as (El & Es & Eo).
      apply IH; [done|done|by rewrite El|by rewrite Es|by rewrite Eo].
    + destruct (bool_decide ((p, f) = (pid, foot))) eqn:E.
      * apply bool_decide_eq_true in E. injection E as -> ->.
        cbn [fold_left step].
        assert (Hcell : forall (s : LavaSmoother) (r0 c0 : Z),
                  lava_run (entry s (pid, foot) r0 c0)
                  = lava_run (entry s (pid, foot) row col)
                  /\ safe_run (entry s (pid, foot) r0 c0)
                     = safe_run (entry s (pid, foot) row col)
                  /\ is_on_lava (entry s (pid, foot) r0 c0)
                     = is_on_lava (entry s (pid, foot) row col)).
        { intros s r0 c0. unfold entry. by destruct (state s !! (pid, foot)). }
        pose proof (observe_core s1 pid foot r c b)
          as (Hk1 & Hm1 & _ & _ & Hl1 & Hs1 & Ho1).
        pose proof (observe_core s2 pid foot r c b)
          as (Hk2 & Hm2 & _ & _ & Hl2 & Hs2 & Ho2).
        cbv zeta in *.
        destruct (Hcell s1 r c) as (El1 & Es1 & Eo1).
        destruct (Hcell s2 r c) as (El2 & Es2 & Eo2).
        destruct (Hcell (snd (observe s1 pid foot r c b)) r c)
          as (El1' & Es1' & Eo1').
        destruct (Hcell (snd (observe s2 pid foot r c b)) r c)
          as (El2' & Es2' & Eo2').
        apply IH.
        -- congruence.
        -- congruence.
        -- rewrite <- El1', <- El2', Hl1, Hl2, El1, El2, Hl. done.
        -- rewrite <- Es1', <- Es2', Hs1, Hs2, Es1, Es2, Hs. done.
        -- rewrite <- Eo1', <- Eo2', Ho1, Ho2.
           rewrite El1, El2, Es1, Es2, Eo1, Eo2, Hk, Hm, Hl, Hs, Ho. done.
      * apply bool_decide_eq_false in E.
        assert (Hne : (pid, foot) <> (p, f)) by (by intros Heq).
        destruct (entry_observe_other s1 p f r c b (pid, foot) row col Hne)
          as (El & Es & Eo).
        apply IH.
        -- unfold observe. by destruct (observe_entry _ _ _ _ _).
        -- unfold observe. by destruct (observe_entry _ _ _ _ _).
        -- by rewrite El.
        -- by rewrite Es.
        -- by rewrite Eo.
Qed.

(** X5.  What [observe] returns for a (player, foot) key depends only on
    the earlier observations of that key: the calls of [next_frame] and
    the observations of the other players and feet in between can be left
    out of the history without changing it. *)
Theorem observe_depends_on_own_key_only
    (self : LavaSmoother) (calls : list call) (pid : Z) (foot : string)
    (row col : Z) (b : bool) :
  fst (observe (after calls self) pid foot row col b)
  = fst (observe (after (List.filter (on_key pid foot) calls) self)
           pid foot row col b).
Proof.
  destruct (after_on_key pid foot row col calls self self)
    as (Hk & _ & Hl & _ & Ho); try done.
  cbv zeta in *.
  pose proof (observe_core (after calls self) pid foot row col b)
    as (_ & _ & _ & -> & _).
  pose proof (observe_core (after (List.filter (on_key pid foot) calls) self)
                pid foot row col b) as (_ & _ & _ & -> & _).
  by rewrite Hk, Hl, Ho.
Qed.

Lemma feed_cons (self : LavaSmoother) pid foot row col b obs :
  fst (feed self pid foot row col (b :: obs))
  = fst (observe (next_frame self) pid foot row col b)
    :: fst (feed (snd (observe (next_frame self) pid foot row col b))
              pid foot row col obs)
  /\ snd (feed self pid foot row col (b :: obs))
     = snd (feed (snd (observe (next_frame self) pid foot row col b))
              pid foot row col obs).
Proof.
  cbn [feed].
  destruct (observe (next_frame self) pid foot row col b) as [t self'].
  cbn [fst snd]. by destruct (feed self' pid foot row col obs).
Qed.

Lemma feed_app (self : LavaSmoother) pid foot row col obs1 obs2 :
  fst (feed self pid foot row col (obs1 ++ obs2))
  = fst (feed self pid foot row col obs1)
    ++ fst (feed (snd (feed self pid foot row col obs1)) pid foot row col obs2)
  /\ snd (feed self pid foot row col (obs1 ++ obs2))
     = snd (feed (snd (feed self pid foot row col obs1)) pid foot row col obs2).
Proof.
  revert self. induction obs1 as [|b obs1 IH]; intros self; [done|].
  rewrite <- app_comm_cons.
  destruct (feed_cons self pid foot row col b (obs1 ++ obs2)) as [-> ->].
  destruct (feed_cons self pid foot row col b obs1) as [-> ->].
  cbv zeta. destruct (IH (snd (observe (next_frame self) pid foot row col b)))
    as [-> ->].
  done.
Qed.

(** One step of the harness on the entry of its key. *)
Lemma feed_step (self : LavaSmoother) pid foot row col b :
  let e := entry self (pid, foot) row col in
  let r := observe (next_frame self) pid foot row col b in
  let e' := entry (snd r) (pid, foot) row col in
  let triggered := b && negb (is_on_lava e) && (k self <=? lava_run e + 1) in
  k (snd r) = k self /\ m (snd r) = m self
  /\ fst r = triggered
  /\ lava_run e' = (if b then lava_run e + 1 else 0)
  /\ safe_run e' = (if b then 0 else safe_run e + 1)
  /\ is_on_lava e'
     = (if (triggered || is_on_lava e) && negb b && (m self <=? safe_run e + 1)
        then false else triggered || is_on_lava e).
Proof.
  cbv zeta.
  pose proof (observe_core (next_frame self) pid foot row col b) as Hc.
  cbv zeta in Hc.
  destruct (entry_next_frame self (pid, foot) row col) as (El & Es & Eo).
  rewrite El, Es, Eo in Hc. cbn [k m next_frame] in Hc.
  destruct Hc as (? & ? & _ & ? & ? & ? & ?). done.
Qed.

(** A flagged entry under hazard observations: nothing is returned and
    the flag stays. *)
Lemma feed_hazards_flagged (n : nat) (self : LavaSmoother) pid foot row col :
  is_on_lava (entry self (pid, foot) row col) = true ->
  let r := feed self pid foot row col (replicate n true) in
  fst r = replicate n false
  /\ k (snd r) = k self /\ m (snd r) = m self
  /\ is_on_lava (entry (snd r) (pid, foot) row col) = true
  /\ ((0 < n)%nat -> safe_run (entry (snd r) (pid, foot) row col) = 0).
Proof.
  revert self. induction n as [|n IH]; intros self Hon.
  { cbn. repeat split; try done. lia. }
  cbn [replicate]. cbv zeta.
  destruct (feed_cons self pid foot row col true (replicate n true))
    as [-> ->].
  destruct (feed_step self pid foot row col true)
    as (Hk & Hm & Ht & _ & Hs & Ho).
  cbv zeta in *. rewrite Hon in Ht, Ho. cbn [andb negb orb] in Ht, Ho.
  destruct (IH _ Ho) as (-> & -> & -> & -> & Hs'). rewrite Ht.
  repeat split; try done. intros _.
  destruct n as [|n]; [exact Hs|apply Hs'; lia].
Qed.

Lemma map_seq_false (f : nat -> bool) (a n : nat) :
  (forall i, f i = false) -> map f (seq a n) = replicate n false.
Proof.
  intros Hf. revert a. induction n as [|n IH]; intros a; [done|].
  cbn. by rewrite Hf, IH.
Qed.

(** An entry that is not flagged, with a run of [l < K] hazard
    observations so far, under [n] more: the one that brings the run to
    [K] returns [True], and it alone. *)
Lemma feed_hazards_idle (n : nat) (self : LavaSmoother) pid foot row col :
  is_on_lava (entry self (pid, foot) row col) = false ->
  lava_run (entry self (pid, foot) row col) < k self ->
  let l := lava_run (entry self (pid, foot) row col) in
  let r := feed self pid foot row col (replicate n true) in
  fst r = map (fun i => l + Z.of_nat i + 1 =? k self) (seq 0 n)
  /\ k (snd r) = k self /\ m (snd r) = m self
  /\ is_on_lava (entry (snd r) (pid, foot) row col)
     = (k self <=? l + Z.of_nat n)
  /\ ((0 < n)%nat -> safe_run (entry (snd r) (pid, foot) row col) = 0).
Proof.
  revert self. induction n as [|n IH]; intros self Hon Hl.
  { cbn. rewrite Z.add_0_r. split; [done|]. split; [done|]. split; [done|].
    split; [|lia]. rewrite Hon. symmetry. apply Z.leb_gt. lia. }
  cbn [replicate]. cbv zeta.
  destruct (feed_cons self pid foot row col true (replicate n true))
    as [-> ->].
  destruct (feed_step self pid foot row col true)
    as (Hk & Hm & Ht & Hl' & Hs & Ho).
  cbv zeta in *. rewrite Hon in Ht, Ho. cbn [andb negb orb] in Ht, Ho.
  rewrite !andb_false_r in Ho.
  cbn [seq map]. rewrite Ht, <- seq_shift, map_map.
  destruct (k self <=? lava_run (entry self (pid, foot) row col) + 1) eqn:E.
  - apply Z.leb_le in E. cbn [andb negb orb] in Ho.
    destruct (feed_hazards_flagged n _ pid foot row col Ho)
      as (-> & -> & -> & -> & Hs').
    rewrite Hk, Hm. split; [|split; [done|split; [done|split]]].
    + f_equal; [symmetry; apply Z.eqb_eq; lia|].
      symmetry. apply map_seq_false. intros i. apply Z.eqb_neq. lia.
    + symmetry. apply Z.leb_le. lia.
    + intros _. destruct n as [|n]; [exact Hs|apply Hs'; lia].
  - apply Z.leb_gt in E. cbn [andb negb orb] in Ho.
    destruct (IH (snd (observe (next_frame self) pid foot row col true)))
      as (-> & -> & -> & -> & Hs'); [done|rewrite Hk, Hl'; lia|].
    rewrite Hk, Hm, Hl'. split; [|split; [done|split; [done|split]]].
    + f_equal; [symmetry; apply Z.eqb_neq; lia|].
      apply map_ext. intros i. f_equal. lia.
    + f_equal. lia.
    + intros _. destruct n as [|n]; [exact Hs|apply Hs'; lia].
Qed.

(** An entry that is not flagged under safe observations: nothing is
    returned, the flag stays off and the hazard run is reset. *)
Lemma feed_safe_idle (j : nat) (self : LavaSmoother) pid foot row col :
  is_on_lava (entry self (pid, foot) row col) = false ->
  let r := feed self pid foot row col (replicate j false) in
  fst r = replicate j false
  /\ k (snd r) = k self /\ m (snd r) = m self
  /\ is_on_lava (entry (snd r) (pid, foot) row col) = false
  /\ ((0 < j)%nat -> lava_run (entry (snd r) (pid, foot) row col) = 0).
Proof.
  revert self. induction j as [|j IH]; intros self Hon.
  { cbn. repeat split; try done. lia. }
  cbn [replicate]. cbv zeta.
  destruct (feed_cons self pid foot row col false (replicate j false))
    as [-> ->].
  destruct (feed_step self pid foot row col false)
    as (Hk & Hm & Ht & Hl & _ & Ho).
  cbv zeta in *. rewrite Hon in Ht, Ho. cbn [andb negb orb] in Ht, Ho.
  destruct (IH _ Ho) as (-> & -> & -> & -> & Hl'). rewrite Ht.
  repeat split; try done. intros _.
  destruct j as [|j]; [exact Hl|apply Hl'; lia].
Qed.

(** A flagged entry with [sr] safe observations in a row, under [j]
    more: nothing is returned, and the flag is cleared once the run
    reaches [M]. *)
Lemma feed_safe_flagged (j : nat) (self : LavaSmoother) pid foot row col :
  is_on_lava (entry self (pid, foot) row col) = true ->
  let sr := safe_run (entry self (pid, foot) row col) in
  let r := feed self pid foot row col (replicate j false) in
  fst r = replicate j false
  /\ k (snd r) = k self /\ m (snd r) = m self
  /\ is_on_lava (entry (snd r) (pid, foot) row col)
     = (j =? 0)%nat || (sr + Z.of_nat j <? m self)
  /\ ((0 < j)%nat -> lava_run (entry (snd r) (pid, foot) row col) = 0).
Proof.
  revert self. induction j as [|j IH]; intros self Hon.
  { cbn. repeat split; try done. lia. }
  cbn [replicate]. cbv zeta.
  destruct (feed_cons self pid foot row col false (replicate j false))
    as [-> ->].
  destruct (feed_step self pid foot row col false)
    as (Hk & Hm & Ht & Hl & Hs & Ho).
  cbv zeta in *. rewrite Hon in Ht, Ho. cbn [andb negb orb] in Ht, Ho.
  rewrite Ht. cbn [Nat.eqb orb].
  destruct (m self <=? safe_run (entry self (pid, foot) row col) + 1) eqn:E.
  - apply Z.leb_le in E.
    destruct (feed_safe_idle j _ pid foot row col Ho)
      as (-> & -> & -> & -> & Hl').
    rewrite Hk, Hm. repeat split; try done.
    + symmetry. apply Z.ltb_ge. lia.
    + intros _. destruct j as [|j]; [exact Hl|apply Hl'; lia].
  - apply Z.leb_gt in E.
    destruct (IH _ Ho) as (-> & -> & -> & -> & Hl').
    rewrite Hk, Hm, Hs. repeat split; try done.
    + destruct j as [|j]; cbn [Nat.eqb orb].
      * symmetry. apply Z.ltb_lt. lia.
      * f_equal. lia.
    + intros _. destruct j as [|j]; [exact Hl|apply Hl'; lia].
Qed.

Lemma init_entry (K M0 : Z) key row col :
  is_on_lava (entry (init K M0) key row col) = false
  /\ lava_run (entry (init K M0) key row col) = 0
  /\ safe_run (entry (init K M0) key row col) = 0.
Proof. unfold entry. cbn. by rewrite lookup_empty. Qed.

(** X6.  On a fresh debouncer with threshold [K >= 1], a run of hazard
    observations of one foot, each after [next_frame], returns [True] on
    its [K]-th observation and [False] on every other one, however long
    the run. *)
Theorem hazard_run_triggers_once
    (K M0 : Z) (pid : Z) (foot : string) (row col : Z) (n : nat) :
  1 <= K ->
  fst (feed (init K M0) pid foot row col (replicate n true))
  = map (fun i => Z.of_nat i + 1 =? K) (seq 0 n).
Proof.
  intros HK.
  destruct (init_entry K M0 (pid, foot) row col) as (Ho & Hl & _).
  destruct (feed_hazards_idle n (init K M0) pid foot row col Ho)
    as (-> & _); [rewrite Hl; cbn; lia|].
  rewrite Hl. done.
Qed.

(** Five hazard frames with [K = 3], as in the test of the repository. *)
Lemma hazard_run_triggers_once_witness :
  fst (feed (init 3 2) 1 "left" 2 3 (replicate 5 true))
  = [false; false; true; false; false].
Proof.
  rewrite (hazard_run_triggers_once 3 2 1 "left" 2 3 5) by lia.
  reflexivity.
Defined.

Lemma map_seq_threshold (K : Z) :
  1 <= K ->
  map (fun i => Z.of_nat i + 1 =? K) (seq 0 (Z.to_nat K))
  = replicate (Z.to_nat K - 1) false ++ [true].
Proof.
  intros HK.
  replace (Z.to_nat K) with (S (Z.to_nat K - 1)) at 1 by lia.
  rewrite seq_S, map_app. cbn [map Nat.add]. f_equal.
  - assert (Hall : forall a n, (a + n <= Z.to_nat K - 1)%nat ->
              map (fun i => Z.of_nat i + 1 =? K) (seq a n)
              = replicate n false).
    { intros a n. revert a. induction n as [|n IH]; intros a Hle; [done|].
      cbn [seq map replicate]. f_equal; [apply Z.eqb_neq; lia|].
      apply IH. lia. }
    apply Hall. lia.
  - f_equal. apply Z.eqb_eq. lia.
Qed.

(** X7.  Hysteresis.  On a fresh debouncer with threshold [K >= 1], [K]
    hazard observations of a foot return [True] on the last one.  After
    [j] safe observations and then [n] more hazard ones, the foot triggers
    again, on the [K]-th of them, exactly when the safe run was at least
    [M] long (and not empty); after a shorter one every further hazard
    observation returns [False]. *)
Theorem retrigger_needs_m_safe_frames
    (K M0 : Z) (pid : Z) (foot : string) (row col : Z) (j n : nat) :
  1 <= K ->
  fst (feed (init K M0) pid foot row col
         (replicate (Z.to_nat K) true ++ replicate j false
          ++ replicate n true))
  = replicate (Z.to_nat K - 1) false ++ [true] ++ replicate j false
    ++ (if (1 <=? Z.of_nat j) && (M0 <=? Z.of_nat j)
        then map (fun i => Z.of_nat i + 1 =? K) (seq 0 n)
        else replicate n false).
Proof.
  intros HK.
  destruct (init_entry K M0 (pid, foot) row col) as (Ho & Hl & _).
  destruct (feed_app (init K M0) pid foot row col (replicate (Z.to_nat K) true)
              (replicate j false ++ replicate n true)) as [-> _].
  destruct (feed_hazards_idle (Z.to_nat K) (init K M0) pid foot row col Ho)
    as (-> & Hk1 & Hm1 & Ho1 & Hs1); [rewrite Hl; cbn; lia|].
  rewrite Hl in Ho1 |- *. cbn [k init] in Hk1, Hm1, Ho1 |- *.
  set (s1 := snd (feed (init K M0) pid foot row col
                    (replicate (Z.to_nat K) true))) in *.
  assert (Ho1' : is_on_lava (entry s1 (pid, foot) row col) = true).
  { rewrite Ho1. apply Z.leb_le. lia. }
  specialize (Hs1 ltac:(lia)).
  change (fun i : nat => 0 + Z.of_nat i + 1 =? K)
    with (fun i : nat => Z.of_nat i + 1 =? K).
  rewrite map_seq_threshold by done. rewrite <- !app_assoc. do 2 f_equal.
  destruct (feed_app s1 pid foot row col (replicate j false)
              (replicate n true)) as [-> _].
  destruct (feed_safe_flagged j s1 pid foot row col Ho1')
    as (-> & Hk2 & Hm2 & Ho2 & Hl2).
  rewrite Hs1, Hm1 in Ho2. cbn [m init] in Ho2.
  set (s2 := snd (feed s1 pid foot row col (replicate j false))) in *.
  f_equal.
  destruct ((1 <=? Z.of_nat j) && (M0 <=? Z.of_nat j)) eqn:E.
  - apply andb_true_iff in E as [E1 E2]. apply Z.leb_le in E1, E2.
    assert (Ho2' : is_on_lava (entry s2 (pid, foot) row col) = false).
    { rewrite Ho2. apply orb_false_iff. split.
      - apply Nat.eqb_neq. lia.
      - apply Z.ltb_ge. lia. }
    specialize (Hl2 ltac:(lia)).
    destruct (feed_hazards_idle n s2 pid foot row col Ho2') as (-> & _);
      [rewrite Hl2, Hk2, Hk1; lia|].
    rewrite Hl2, Hk2, Hk1. done.
  - assert (Ho2' : is_on_lava (entry s2 (pid, foot) row col) = true).
    { rewrite Ho2. apply andb_false_iff in E as [E|E].
      - apply Z.leb_gt in E. assert (j = 0%nat) as -> by lia. done.
      - apply Z.leb_gt in E. apply orb_true_iff. right.
        apply Z.ltb_lt. lia. }
    by destruct (feed_hazards_flagged n s2 pid foot row col Ho2')
      as (-> & _).
Qed.

(** With [K = 2] and [M = 2]: one safe frame does not re-arm the foot,
    two do. *)
Lemma retrigger_needs_m_safe_frames_witness :
  fst (feed (init 2 2) 1 "left" 0 0
         [true; true; false; true; true])
  = [false; true; false; false; false]
  /\ fst (feed (init 2 2) 1 "left" 0 0
            [true; true; false; false; true; true])
     = [false; true; false; false; false; true].
Proof.
  split.
  - exact (retrigger_needs_m_safe_frames 2 2 1 "left" 0 0 1 2 ltac:(lia)).
  - exact (retrigger_needs_m_safe_frames 2 2 1 "left" 0 0 2 2 ltac:(lia)).
Defined.

(** X8.  After any history of calls, a flagged entry whose last
    observation was safe has had fewer than [M] safe observations in a
    row: the flag never outlasts [M] consecutive safe frames. *)
Theorem flag_never_outlasts_m_safe_frames
    (K M0 : Z) (calls : list call) (key : Z * string) (s : FootState) :
  state (after calls (init K M0)) !! key = Some s ->
  is_on_lava s = true -> lava_run s = 0 -> safe_run s < M0.
Proof.
  revert key s. induction calls as [|c calls IH] using rev_ind;
    intros key s.
  - cbn. by rewrite lookup_empty.
  - rewrite after_app. cbn [after fold_left].
    set (self := after calls (init K M0)) in *.
    assert (HMs : m self = M0) by apply (after_k calls (init K M0)).
    destruct c as [|pid foot row col b]; [apply IH|].
    cbn [step]. destruct (decide (key = (pid, foot))) as [->|Hne].
    + destruct (observe_state self pid foot row col b) as [-> _].
      intros [= <-].
      destruct (after_entry K M0 calls (pid, foot) row col) as [[Hl Hs] _].
      fold self in Hl, Hs.
      unfold observe_entry. cbn [fst is_on_lava lava_run safe_run].
      destruct b; cbn [andb negb]; [lia|]. rewrite HMs.
      destruct (is_on_lava (entry self (pid, foot) row col)); [|done].
      cbn [andb]. destruct (M0 <=? _) eqn:E; [done|].
      apply Z.leb_gt in E. lia.
    + rewrite observe_other by done. apply IH.
Qed.

(** The entry of a foot that triggered and then stepped off for one
    frame, with [M = 2]. *)
Lemma flag_never_outlasts_m_safe_frames_witness :
  exists s,
    state (after [Observe 1 "left" 0 0 true; Observe 1 "left" 0 0 false]
             (init 1 2)) !! (1, "left"%string) = Some s
    /\ safe_run s < 2.
Proof.
  eexists. split; [vm_compute; reflexivity|].
  eapply (flag_never_outlasts_m_safe_frames 1 2
            [Observe 1 "left" 0 0 true; Observe 1 "left" 0 0 false]
            (1, "left"%string));
    vm_compute; reflexivity.
Defined.

End SmoothingHistories.

(** ** The tracker: what the states it reaches have in common *)

Section TrackerInvariants.
Import Tracker.

Implicit Types (s : MultiPersonTracker) (pid : Z).
Context `{!SetOrder}.

Lemma wf_disappeared_nil s : wf s -> objects s = [] -> disappeared s = [].
Proof.
  intros (Hk & _) Ho. rewrite Ho in Hk. by destruct (disappeared s).
Qed.

(** The loop [for detection in detections: self._register(detection)]. *)
Lemma register_all (detections : list Detection) s :
  wf s ->
  let fresh_ids :=
    map (fun i => next_id s + Z.of_nat i) (seq 0 (length detections)) in
  for_each detections _register s
  = Ok tt {| next_id := next_id s + Z.of_nat (length detections);
             objects :=
               objects s ++ combine fresh_ids (map new_track detections);
             disappeared :=
               disappeared s ++ map (fun id => (id, 0)) fresh_ids;
             max_disappeared := max_disappeared s;
             max_distance := max_distance s |}.
Proof.
  revert s. induction detections as [|det detections IH]; intros s Hwf.
  - cbn. rewrite Z.add_0_r, !app_nil_r. by destruct s.
  - cbv zeta. cbn [for_each]. unfold bind.
    destruct (register_step det s Hwf) as [Hwf1 _].
    rewrite register_eq in Hwf1 |- * by done. cbn [final] in Hwf1.
    rewrite (IH _ Hwf1). cbv zeta.
    cbn [next_id objects disappeared max_disappeared max_distance length].
    rewrite <- !app_assoc. cbn [seq map combine app].
    assert (Hshift :
              map (fun i => next_id s + Z.of_nat i)
                (map S (seq 0 (length detections)))
              = map (fun i => next_id s + 1 + Z.of_nat i)
                  (seq 0 (length detections))).
    { rewrite map_map. apply map_ext. intros i. lia. }
    rewrite <- seq_shift, Hshift, Z.add_0_r. do 2 f_equal. lia.
Qed.

(** X9.  With no live track, [update] registers every detection, in the
    order of the list: the detection at position [i] becomes the track
    [next_id + i], holding that detection and its centroid, with a
    counter of zero, and the counter of identities advances by the number
    of detections. *)
Theorem first_update_registers_all (detections : list Detection) s :
  wf s -> objects s = [] ->
  let fresh_ids :=
    map (fun i => next_id s + Z.of_nat i) (seq 0 (length detections)) in
  exists s',
    update detections s = Ok (objects s') s'
    /\ objects s' = combine fresh_ids (map new_track detections)
    /\ disappeared s' = map (fun id => (id, 0)) fresh_ids
    /\ next_id s' = next_id s + Z.of_nat (length detections).
Proof.
  intros Hwf Ho. cbv zeta.
  pose proof (wf_disappeared_nil s Hwf Ho) as Hd.
  destruct detections as [|det detections].
  - exists s. unfold update. cbn [length Nat.eqb]. unfold bind, gets.
    rewrite Hd. cbn. rewrite Ho, Z.add_0_r. done.
  - eexists. unfold update. cbn [length Nat.eqb].
    unfold bind at 1, gets at 1. cbv beta. rewrite Ho. cbn [length Nat.eqb].
    unfold bind. rewrite register_all by done. cbv zeta. unfold gets.
    rewrite Ho, Hd. cbn [app]. split; [reflexivity|]. done.
Qed.

(** [mark_disappeared] hands out no identity. *)
Lemma mark_disappeared_ids pid s :
  wf s ->
  let s' := final (mark_disappeared pid s) in
  wf s' /\ next_id s' = next_id s /\ (forall k, k ∈ ids s' -> k ∈ ids s).
Proof.
  intros Hwf. cbv zeta.
  destruct (dict_get pid (disappeared s)) as [n|] eqn:Hget.
  - destruct (mark_disappeared_spec pid n s Hwf Hget)
      as (s' & -> & Hwf' & Hn & _ & _ & _ & Hcase).
    cbn [final]. split; [done|]. split; [done|].
    intros k Hk. destruct (max_disappeared s <? n + 1).
    + destruct Hcase as (_ & _ & Hids). rewrite Hids in Hk.
      by apply del_key_incl in Hk.
    + destruct Hcase as (_ & Hobj). unfold ids in *. by rewrite Hobj in Hk.
  - unfold mark_disappeared. rewrite Hget. done.
Qed.

Lemma age_rows_ids (rows : list nat) s0 :
  preserves (fun s => wf s /\ next_id s = next_id s0
                      /\ forall k, k ∈ ids s -> k ∈ ids s0)
    (for_each rows age_row).
Proof.
  apply preserves_for_each. intros row. unfold age_row.
  apply preserves_bind; [apply preserves_gets|]. intros keys.
  apply preserves_bind; [apply preserves_or_raise|]. intros pid.
  intros s (Hwf & Hn & Hk).
  destruct (mark_disappeared_ids pid s Hwf) as (Hwf' & Hn' & Hk').
  split; [done|]. split; [congruence|]. intros k Hin. by apply Hk, Hk'.
Qed.

(** X10.  With at least one detection and at most as many detections
    as live tracks, [update] registers nothing, whether it returns or
    raises: the counter of identities stays and every track that is live
    afterwards was live before.  A detection that no track took is
    dropped. *)
Theorem no_registration_without_surplus (detections : list Detection) s :
  wf s -> detections <> [] ->
  (length detections <= length (objects s))%nat ->
  let s' := final (update detections s) in
  next_id s' = next_id s /\ (forall k, k ∈ ids s' -> k ∈ ids s).
Proof.
  intros Hwf Hne Hle. cbv zeta.
  assert (E0 : (length detections =? 0)%nat = false).
  { apply Nat.eqb_neq. by destruct detections. }
  apply Nat.eqb_neq in E0 as E0'.
  assert (E1 : (length (objects s) =? 0)%nat = false)
    by (apply Nat.eqb_neq; lia).
  assert (E2 : (length detections <=? length (objects s))%nat = true)
    by (by apply Nat.leb_le).
  destruct (matching_ok detections s Hwf Hne)
    as (ur & uc & s1 & Hmatch & Hwf1 & Hm).
  destruct Hm as (Hn1 & _ & _ & Hko & _).
  assert (Hfinal : final (update detections s)
                   = final (for_each (unused (length (objects s)) ur)
                              age_row s1)).
  { unfold update. rewrite E0. unfold bind at 1, gets at 1. cbv beta.
    rewrite E1. unfold bind. rewrite Hmatch, E2.
    by destruct (for_each _ _ s1). }
  pose proof (age_rows_ids (unused (length (objects s)) ur) s1 s1) as Hloop.
  destruct Hloop as (_ & Hn & Hk).
  { split; [done|]. split; [done|]. done. }
  rewrite Hfinal. split; [congruence|].
  intros k Hin. specialize (Hk k Hin). unfold ids in *. by rewrite <- Hko.
Qed.

Lemma ascending_app (l : list Z) (x : Z) :
  ascending l -> (forall y, y ∈ l -> y < x) -> ascending (l ++ [x]).
Proof.
  induction l as [|a l IH]; cbn [ascending app].
  - intros _ _. split; [|done]. intros y Hy. by apply elem_of_nil in Hy.
  - intros [Ha Hl] Hx. split.
    + intros y [Hy|Hy]%elem_of_app; [by apply Ha|].
      apply list_elem_of_singleton in Hy as ->. apply Hx. by left.
    + apply IH; [done|]. intros y Hy. apply Hx. by right.
Qed.

Lemma ascending_del_key (k : Z) (l : list Z) :
  ascending l -> ascending (del_key k l).
Proof.
  induction l as [|a l IH]; cbn [ascending del_key]; [done|].
  intros [Ha Hl]. destruct (Z.eqb_spec k a); [done|].
  cbn [ascending]. split; [|by apply IH].
  intros y Hy. apply Ha. by apply del_key_incl in Hy.
Qed.

(** What [_register] keeps. *)
Lemma register_inv (det : Detection) s :
  wf s -> counters_bounded s -> ascending (ids s) ->
  let s' := final (_register det s) in
  counters_bounded s' /\ ascending (ids s').
Proof.
  intros Hwf Hc Ha. cbv zeta.
  destruct (register_lookup det s Hwf) as (Hreg & _ & _ & Hd & Hother).
  cbv zeta in *. split.
  - intros pid n Hn.
    assert (Hmax : max_disappeared (final (_register det s))
                   = max_disappeared s) by (by rewrite register_eq).
    rewrite Hmax.
    destruct (decide (pid = next_id s)) as [->|Hne].
    + rewrite Hd in Hn. injection Hn as <-. lia.
    + destruct (Hother pid Hne) as [Hsame _]. rewrite Hsame in Hn.
      exact (Hc pid n Hn).
  - rewrite register_eq by done. unfold ids, dict_keys in *.
    cbn [final objects]. rewrite map_app. cbn [map fst].
    apply ascending_app; [done|].
    intros y Hy. destruct Hwf as (_ & _ & _ & Hall).
    specialize (Hall y Hy). lia.
Qed.

(** What [mark_disappeared] keeps. *)
Lemma mark_disappeared_inv pid s :
  wf s -> counters_bounded s -> ascending (ids s) ->
  let s' := final (mark_disappeared pid s) in
  counters_bounded s' /\ ascending (ids s').
Proof.
  intros Hwf Hc Ha. cbv zeta.
  destruct (dict_get pid (disappeared s)) as [n|] eqn:Hget.
  - destruct (mark_disappeared_spec pid n s Hwf Hget)
      as (s' & -> & _ & _ & Hmax & _ & Hother & Hcase).
    cbn [final]. pose proof (Hc pid n Hget) as Hn. split.
    + intros k nk Hk. rewrite Hmax.
      destruct (decide (k = pid)) as [->|Hne].
      * destruct (max_disappeared s <? n + 1) eqn:E.
        -- destruct Hcase as (Hnone & _). congruence.
        -- destruct Hcase as (Hsome & _). apply Z.ltb_ge in E.
           rewrite Hsome in Hk. injection Hk as <-. lia.
      * destruct (Hother k Hne) as [Hsame _]. rewrite Hsame in Hk.
        exact (Hc k nk Hk).
    + destruct (max_disappeared s <? n + 1).
      * destruct Hcase as (_ & _ & ->). by apply ascending_del_key.
      * destruct Hcase as (_ & Hobj). unfold ids in *. by rewrite Hobj.
  - unfold mark_disappeared. rewrite Hget. done.
Qed.

(** What an iteration of the matching loop keeps. *)
Lemma match_pair_inv (detections : list Detection)
    (detection_centroids : list (Q * Q)) (D : list (list Q))
    (rc : nat * nat) (used : gset nat * gset nat) s :
  wf s -> counters_bounded s -> ascending (ids s) ->
  let s' := final (match_pair detections detection_centroids D rc used s) in
  counters_bounded s' /\ ascending (ids s').
Proof.
  intros Hwf Hc Ha. destruct rc as [row col], used as [ur uc].
  destruct (match_pair_cases detections detection_centroids D row col ur uc s)
    as [Hr|[Hr|(pid & det & c & Hk & _ & _ & _ & _ & Hr)]];
    cbv zeta in *; rewrite Hr; cbn [final]; [done|done|].
  apply list_elem_of_lookup_2 in Hk. split.
  - intros k n. cbn [disappeared set_disappeared max_disappeared set_objects].
    destruct (decide (k = pid)) as [->|Hne].
    + rewrite dict_get_set_eq. intros [= <-]. lia.
    + rewrite dict_get_set_ne by done. apply (Hc k n).
  - unfold ids in *. cbn [objects set_disappeared set_objects].
    by rewrite dict_set_in.
Qed.

(** The three properties together are kept by every method, whether it
    returns or raises. *)
Lemma update_inv (detections : list Detection) :
  preserves (fun s => wf s /\ counters_bounded s /\ ascending (ids s))
    (update detections).
Proof.
  assert (Hmark : forall pid,
            preserves (fun s => wf s /\ counters_bounded s
                                /\ ascending (ids s))
              (mark_disappeared pid)).
  { intros pid s (Hwf & Hc & Ha).
    destruct (mark_disappeared_step pid s Hwf) as [Hwf' _].
    destruct (mark_disappeared_inv pid s Hwf Hc Ha). done. }
  assert (Hreg : forall det,
            preserves (fun s => wf s /\ counters_bounded s
                                /\ ascending (ids s))
              (_register det)).
  { intros det s (Hwf & Hc & Ha).
    destruct (register_step det s Hwf) as [Hwf' _].
    destruct (register_inv det s Hwf Hc Ha). done. }
  unfold update. destruct (length detections =? 0)%nat.
  - apply preserves_bind; [apply preserves_gets|]. intros keys.
    apply preserves_bind; [|intros _; apply preserves_gets].
    by apply preserves_for_each.
  - apply preserves_bind; [apply preserves_gets|]. intros n.
    apply preserves_bind; [|intros _; apply preserves_gets].
    destruct (n =? 0)%nat; [by apply preserves_for_each|].
    apply preserves_bind.
    + unfold matching.
      apply preserves_bind; [apply preserves_gets|]. intros ocs.
      apply preserves_fold_each. intros rc used s (Hwf & Hc & Ha).
      destruct (match_pair_step detections
                  (_get_detection_centroids detections)
                  (distance_matrix ocs (_get_detection_centroids detections))
                  rc used s Hwf) as [Hwf' _].
      destruct (match_pair_inv detections
                  (_get_detection_centroids detections)
                  (distance_matrix ocs (_get_detection_centroids detections))
                  rc used s Hwf Hc Ha). done.
    + intros [ur uc]. destruct (length detections <=? n)%nat.
      * apply preserves_for_each. intros row. unfold age_row.
        apply preserves_bind; [apply preserves_gets|]. intros keys.
        apply preserves_bind; [apply preserves_or_raise|]. intros pid.
        apply Hmark.
      * apply preserves_for_each. intros col. unfold register_col.
        apply preserves_bind; [apply preserves_or_raise|]. intros det.
        apply Hreg.
Qed.

Lemma run_inv (batches : list (list Detection)) s :
  wf s /\ counters_bounded s /\ ascending (ids s) ->
  wf (run batches s) /\ counters_bounded (run batches s)
  /\ ascending (ids (run batches s)).
Proof.
  revert s. induction batches as [|b l IH]; intros s Hs; [done|].
  cbn [run fold_left]. apply IH. by apply update_inv.
Qed.

Lemma init_inv (bound : Z) (reach : Q) :
  wf (init bound reach) /\ counters_bounded (init bound reach)
  /\ ascending (ids (init bound reach)).
Proof. split; [apply init_wf|]. split; [|done]. by intros pid n. Qed.

Lemma run_max_disappeared (batches : list (list Detection)) s :
  wf s -> max_disappeared (run batches s) = max_disappeared s.
Proof.
  intros Hwf. by destruct (run_step batches s Hwf) as (_ & _ & ? & _).
Qed.

(** X11.  From a fresh tracker and after the detections of any number
    of ticks, whether the updates returned or raised, the counter of every
    live track lies between 0 and [max_disappeared]: no track stays live
    once it has been missing for more than [max_disappeared] updates in a
    row. *)
Theorem counters_never_exceed_max_disappeared
    (bound : Z) (reach : Q) (batches : list (list Detection)) (pid n : Z) :
  dict_get pid (disappeared (run batches (init bound reach))) = Some n ->
  0 <= n <= Z.max 0 bound.
Proof.
  intros Hn.
  destruct (run_inv batches (init bound reach) (init_inv bound reach))
    as (_ & Hc & _).
  specialize (Hc pid n Hn).
  by rewrite run_max_disappeared in Hc by apply init_wf.
Qed.

(** X12.  From a fresh tracker and after the detections of any number
    of ticks, the live identities stand in strictly ascending order in
    [self.objects]: the dictionary that [update] returns is iterated from
    the oldest track to the newest. *)
Theorem live_ids_ascending
    (bound : Z) (reach : Q) (batches : list (list Detection)) :
  ascending (ids (run batches (init bound reach))).
Proof.
  by destruct (run_inv batches (init bound reach) (init_inv bound reach))
    as (_ & _ & ?).
Qed.

End TrackerInvariants.

Section TrackerInvariantsExamples.
Import Tracker.
Local Existing Instance ascending_order.

(** Two detections on a fresh tracker become the tracks 0 and 1. *)
Lemma first_update_registers_all_witness :
  exists s',
    update two_persons (init 30 50) = Ok (objects s') s'
    /\ ids s' = [0; 1] /\ next_id s' = 2.
Proof.
  destruct (first_update_registers_all two_persons (init 30 50))
    as (s' & Hu & Ho & _ & Hn); [apply init_wf|reflexivity|].
  exists s'. split; [exact Hu|]. split; [|exact Hn].
  unfold ids. rewrite Ho. reflexivity.
Defined.

(** One detection far from the two tracks of the first tick: both tracks
    stay, and no third one appears. *)
Lemma no_registration_without_surplus_witness :
  let s := run [two_persons] (init 30 50) in
  next_id (final (update [detection_at 1000 1000 1002 1000] s)) = 2.
Proof.
  destruct (no_registration_without_surplus
              [detection_at 1000 1000 1002 1000]
              (run [two_persons] (init 30 50))) as [Hn _].
  - apply run_step, init_wf.
  - discriminate.
  - vm_compute. lia.
  - exact Hn.
Defined.

(** Two persons seen once and then missing for two updates. *)
Lemma counters_never_exceed_max_disappeared_witness :
  dict_get 0 (disappeared (run [two_persons; []; []] (init 30 50))) = Some 2
  /\ 0 <= 2 <= Z.max 0 30.
Proof.
  assert (Hn : dict_get 0 (disappeared (run [two_persons; []; []]
                                          (init 30 50))) = Some 2)
    by (vm_compute; reflexivity).
  split; [exact Hn|].
  exact (counters_never_exceed_max_disappeared 30 50 [two_persons; []; []]
           0 2 Hn).
Defined.

End TrackerInvariantsExamples.

(** ** The tracker: which detection a track takes *)

Section TrackerNearest.
Import Tracker.

Implicit Types (s : MultiPersonTracker) (pid : Z).

(** [argmin_from] returns a smallest value and where it stands. *)
Lemma argmin_from_spec (l : list Q) (i best : nat) (bv : Q) :
  let r := argmin_from i best bv l in
  (snd r <= bv)%Q
  /\ (forall x, x ∈ l -> (snd r <= x)%Q)
  /\ ((fst r = best /\ snd r = bv)
      \/ exists j, fst r = (i + j)%nat /\ l !! j = Some (snd r)).
Proof.
  revert i best bv. induction l as [|x l IH]; intros i best bv; cbn.
  - split; [apply Qle_refl|]. split; [|by left].
    intros x Hx. by apply elem_of_nil in Hx.
  - destruct (Qltb x bv) eqn:E.
    + apply Qltb_spec in E.
      destruct (IH (S i) i x) as (Hle & Hall & Hpos). cbv zeta in *.
      split; [apply Qle_trans with x; [done|by apply Qlt_le_weak]|].
      split.
      * intros y [->|Hy]%elem_of_cons; [done|by apply Hall].
      * right. destruct Hpos as [[-> ->]|(j & -> & Hj)].
        -- exists 0%nat. split; [lia|done].
        -- exists (S j). split; [lia|done].
    + apply Qltb_false in E.
      destruct (IH (S i) best bv) as (Hle & Hall & Hpos). cbv zeta in *.
      split; [done|]. split.
      * intros y [->|Hy]%elem_of_cons; [by apply Qle_trans with bv|].
        by apply Hall.
      * destruct Hpos as [?|(j & -> & Hj)]; [by left|right].
        exists (S j). split; [lia|done].
Qed.

(** [v.argmin()] is the position of a smallest value of [v]. *)
Lemma argmin_spec (l : list Q) :
  l <> [] ->
  exists v, l !! argmin l = Some v /\ forall x, x ∈ l -> (v <= x)%Q.
Proof.
  destruct l as [|v0 l]; [done|]. intros _. unfold argmin.
  destruct (argmin_from_spec l 1 0 v0) as (Hle & Hall & Hpos).
  cbv zeta in *. exists (snd (argmin_from 1 0 v0 l)). split.
  - destruct Hpos as [[-> ->]|(j & -> & Hj)]; done.
  - intros x [->|Hx]%elem_of_cons; [done|by apply Hall].
Qed.

Lemma insert_by_perm (x : nat * Q) (l : list (nat * Q)) :
  insert_by x l ≡ₚ x :: l.
Proof.
  induction l as [|y l IH]; cbn; [done|].
  destruct (Qleb (snd x) (snd y)); [done|].
  rewrite IH. apply Permutation_swap.
Qed.

Lemma insertion_sort_perm (l : list (nat * Q)) : foldr insert_by [] l ≡ₚ l.
Proof.
  induction l as [|x l IH]; cbn; [done|]. by rewrite insert_by_perm, IH.
Qed.

Lemma map_fst_combine {A B : Type} (l : list A) (l' : list B) :
  length l = length l' -> map fst (combine l l') = l.
Proof.
  revert l'. induction l as [|a l IH]; intros [|b l'] Hlen; try done.
  cbn. f_equal. apply IH. by injection Hlen.
Qed.

(** [v.argsort()] is a rearrangement of the indices of [v]. *)
Lemma argsort_perm (v : list Q) : argsort v ≡ₚ seq 0 (length v).
Proof.
  unfold argsort. change (map fst ?l) with (fst <$> l).
  rewrite insertion_sort_perm. change (fst <$> ?l) with (map fst l).
  by rewrite map_fst_combine by (by rewrite length_seq).
Qed.

Lemma argsort_elem_of (v : list Q) (i : nat) :
  i ∈ argsort v <-> (i < length v)%nat.
Proof.
  rewrite argsort_perm, list_elem_of_In, in_seq. lia.
Qed.

Lemma elem_of_combine_map {A B : Type} (f : A -> B) (l : list A) (a : A)
    (b : B) :
  (a, b) ∈ combine l (map f l) <-> a ∈ l /\ b = f a.
Proof.
  induction l as [|x l IH]; cbn.
  - split; [by intros ?%elem_of_nil|by intros [?%elem_of_nil _]].
  - rewrite !elem_of_cons, IH. split.
    + intros [[= -> ->]|[? ?]]; [by split; [left|]|by split; [right|]].
    + intros [[->|?] ->]; [by left|by right].
Qed.

Lemma lookup_map {A B : Type} (f : A -> B) (l : list A) (i : nat) :
  map f l !! i = f <$> (l !! i).
Proof. apply list_lookup_fmap. Qed.

(** The rows and the entries of the matrix [D], read on the tracks
    and the detections. *)
Lemma distance_matrix_row (detections : list Detection) s (i : nat) pid
    (tr : Track) :
  objects s !! i = Some (pid, tr) ->
  distance_matrix (map (fun kv => centroid (snd kv)) (objects s))
    (_get_detection_centroids detections) !! i
  = Some (distances tr detections).
Proof.
  intros Hi. unfold distance_matrix, distances, _get_detection_centroids.
  unfold dict in *. rewrite !lookup_map, Hi. cbn. by rewrite map_map.
Qed.

Lemma distance_matrix_choice (detections : list Detection) s (i : nat) pid
    (tr : Track) :
  objects s !! i = Some (pid, tr) ->
  nth i (map argmin
           (distance_matrix (map (fun kv => centroid (snd kv)) (objects s))
              (_get_detection_centroids detections))) 0%nat
  = nearest tr detections.
Proof.
  intros Hi. apply nth_lookup_Some.
  by rewrite lookup_map, (distance_matrix_row detections s i pid tr Hi).
Qed.

Lemma distances_lookup (tr : Track) (detections : list Detection) (c : nat)
    (det : Detection) :
  detections !! c = Some det ->
  distances tr detections !! c
  = Some (dist2 (centroid tr) (_get_centroid det)).
Proof. intros Hc. unfold distances. by rewrite lookup_map, Hc. Qed.

Lemma keys_lookup {V : Type} (d : dict V) (i : nat) (k : Z) (v : V) :
  d !! i = Some (k, v) -> dict_keys d !! i = Some k.
Proof.
  intros Hi. unfold dict_keys, dict in *. by rewrite lookup_map, Hi.
Qed.

(** One iteration of the matching loop on the pair of a row and its
    column: the pair is skipped, because the row or the column is taken or
    the distance exceeds the bound; or an index is out of range; or the
    row takes the detection at its column. *)
Lemma match_pair_assigned (detections : list Detection) (D : list (list Q))
    (choice : nat -> nat) s s2 (ur uc : gset nat) (row : nat) :
  wf s -> wf s2 -> matched s s2 ur ->
  assigned detections D choice s s2 ur uc ->
  let r := match_pair detections (_get_detection_centroids detections) D
             (row, choice row) (ur, uc) s2 in
  (r = Ok (ur, uc) s2
   /\ (row ∈ ur \/ choice row ∈ uc
       \/ exists d, D !! row ≫= (.!! (choice row)) = Some d
                    /\ exceeds d (max_distance s) = true))
  \/ r = Raise IndexError s2
  \/ exists s3,
       r = Ok (ur ∪ {[row]}, uc ∪ {[choice row]}) s3
       /\ wf s3 /\ (row ∉ ur)
       /\ matched s s3 (ur ∪ {[row]})
       /\ assigned detections D choice s s3 (ur ∪ {[row]})
            (uc ∪ {[choice row]}).
Proof.
  intros Hwf Hwf2 Hm (Hrows & Hcols & Hinj). cbv zeta.
  pose proof (match_pair_step detections (_get_detection_centroids detections)
                D (row, choice row) (ur, uc) s2 Hwf2) as [Hwf3 _].
  cbv zeta in Hwf3. revert Hwf3.
  unfold match_pair.
  destruct (bool_decide (row ∈ ur)) eqn:Er.
  { apply bool_decide_eq_true in Er. intros _. left. split; [done|by left]. }
  destruct (bool_decide (choice row ∈ uc)) eqn:Ec.
  { apply bool_decide_eq_true in Ec. intros _. left.
    split; [done|right; by left]. }
  cbn [orb]. apply bool_decide_eq_false in Er, Ec.
  unfold bind, gets, or_raise, modify, ret, raise.
  destruct (D !! row ≫= (.!! (choice row))) as [d|] eqn:Ed;
    [|intros _; right; by left].
  pose proof Hm as (_ & _ & Hdist & Hko & _).
  rewrite Hdist.
  destruct (exceeds d (max_distance s)) eqn:Ex.
  { intros _. left. split; [done|]. right; right. by exists d. }
  destruct (dict_keys (objects s2) !! row) as [pid|] eqn:Ek;
    [|intros _; right; by left].
  destruct (detections !! choice row) as [det|] eqn:Edet;
    [|intros _; right; by left].
  destruct (_get_detection_centroids detections !! choice row) as [c|] eqn:Ecs;
    [|intros _; right; by left].
  cbn [final]. intros Hwf3. right; right. eexists. split; [reflexivity|].
  split; [done|]. split; [done|].
  split.
  { exact (matched_pair s s2 ur row pid {| last_det := det; centroid := c |}
             Hwf Hm Ek). }
  assert (Hc : c = _get_centroid det).
  { unfold _get_detection_centroids in Ecs.
    rewrite lookup_map, Edet in Ecs. by injection Ecs. }
  subst c. rewrite Hko in Ek.
  destruct Hwf as (_ & Hnd & _).
  split; [|split].
  - intros i [Hi|Hi]%elem_of_union.
    + destruct (Hrows i Hi) as (pid_i & det_i & d_i & Hk & Hd & Ho & HD & He).
      exists pid_i, det_i, d_i. split; [done|]. split; [done|].
      split; [|done].
      assert (Hne : pid_i <> pid).
      { intros ->. apply Er.
        by rewrite <- (NoDup_lookup _ _ _ pid Hnd Hk Ek). }
      cbn [objects set_disappeared set_objects].
      by rewrite dict_get_set_ne.
    + apply elem_of_singleton in Hi as ->.
      exists pid, det, d. split; [done|]. split; [done|].
      split; [|done].
      cbn [objects set_disappeared set_objects].
      by rewrite dict_get_set_eq.
  - intros c0. rewrite elem_of_union, elem_of_singleton, Hcols. split.
    + intros [(i & Hi & <-)| ->].
      * exists i. split; [|done]. apply elem_of_union. by left.
      * exists row. split; [|done]. apply elem_of_union. right.
        by apply elem_of_singleton.
    + intros (i & [Hi|Hi]%elem_of_union & <-).
      * left. by exists i.
      * apply elem_of_singleton in Hi as ->. by right.
  - intros i i' [Hi|Hi]%elem_of_union [Hi'|Hi']%elem_of_union Heq.
    + by apply Hinj.
    + apply elem_of_singleton in Hi' as ->. exfalso. apply Ec.
      apply Hcols. by exists i.
    + apply elem_of_singleton in Hi as ->. exfalso. apply Ec.
      apply Hcols. by exists i'.
    + apply elem_of_singleton in Hi as ->.
      by apply elem_of_singleton in Hi' as ->.
Qed.

Lemma assigned_empty (detections : list Detection) (D : list (list Q))
    (choice : nat -> nat) s :
  assigned detections D choice s s ∅ ∅.
Proof.
  split; [|split].
  - intros i Hi. by apply not_elem_of_empty in Hi.
  - intros c. split; [by intros ?%not_elem_of_empty|].
    intros (i & Hi & _). by apply not_elem_of_empty in Hi.
  - intros i i' Hi. by apply not_elem_of_empty in Hi.
Qed.

(** The loop over the pairs of the rows [rows], each with its column. *)
Lemma matching_loop_assigned (detections : list Detection)
    (D : list (list Q)) (choice : nat -> nat) s (rows : list nat) :
  wf s ->
  forall (ur uc : gset nat) s2 (ur' uc' : gset nat) s3,
    wf s2 -> matched s s2 ur -> assigned detections D choice s s2 ur uc ->
    fold_each (combine rows (map choice rows))
      (match_pair detections (_get_detection_centroids detections) D)
      (ur, uc) s2 = Ok (ur', uc') s3 ->
    wf s3 /\ matched s s3 ur' /\ assigned detections D choice s s3 ur' uc'
    /\ forall i, i ∈ ur \/ i ∈ rows ->
         forall d, D !! i ≫= (.!! (choice i)) = Some d ->
           exceeds d (max_distance s) = false ->
           (forall i', i' ∈ rows -> i' <> i -> choice i' <> choice i) ->
           (forall i', i' ∈ ur -> i' <> i -> choice i' <> choice i) ->
           i ∈ ur'.
Proof.
  intros Hwf. induction rows as [|row rows IH];
    intros ur uc s2 ur' uc' s3 Hwf2 Hm Ha.
  - cbn. intros [= <- <- <-]. split; [done|]. split; [done|]. split; [done|].
    intros i [Hi|Hi] _ _ _ _; [done|]. by apply elem_of_nil in Hi.
  - cbn [map combine fold_each]. unfold bind.
    destruct (match_pair_assigned detections D choice s s2 ur uc row
                Hwf Hwf2 Hm Ha)
      as [[Hr Hwhy]|[Hr|(s2' & Hr & Hwf2' & Hrow & Hm' & Ha')]];
      cbv zeta in Hr; rewrite Hr; [|done|].
    + intros Hloop.
      destruct (IH ur uc s2 ur' uc' s3 Hwf2 Hm Ha Hloop)
        as (Hwf3 & Hm3 & Ha3 & Hlive).
      split; [done|]. split; [done|]. split; [done|].
      intros i Hi d Hd Hex Hrows Hur.
      destruct (decide (i ∈ ur)) as [Hin|Hnotin].
      { apply (Hlive i (or_introl Hin) d); try done.
        intros i' Hi'. apply Hrows. by right. }
      destruct Hi as [?|Hi]; [done|].
      apply elem_of_cons in Hi as [->|Hi].
      * exfalso. destruct Hwhy as [?|[Hc|(d' & Hd' & Hex')]]; [done| |].
        -- destruct Ha as (_ & Hcols & _).
           apply Hcols in Hc as (i' & Hi' & Heq).
           apply (Hur i' Hi'); [|done]. by intros ->.
        -- congruence.
      * apply (Hlive i (or_intror Hi) d); try done.
        intros i' Hi'. apply Hrows. by right.
    + intros Hloop.
      destruct (IH _ _ s2' ur' uc' s3 Hwf2' Hm' Ha' Hloop)
        as (Hwf3 & Hm3 & Ha3 & Hlive).
      split; [done|]. split; [done|]. split; [done|].
      intros i Hi d Hd Hex Hrows Hur.
      destruct (decide (i = row)) as [->|Hne].
      { apply (Hlive row) with d; try done.
        - left. apply elem_of_union. right. by apply elem_of_singleton.
        - intros i' Hi'. apply Hrows. by right.
        - intros i' [Hi'|Hi']%elem_of_union Hne'; [by apply Hur|].
          by apply elem_of_singleton in Hi'. }
      apply (Hlive i) with d; try done.
      * destruct Hi as [Hi|Hi].
        -- left. apply elem_of_union. by left.
        -- apply elem_of_cons in Hi as [?|Hi]; [done|by right].
      * intros i' Hi'. apply Hrows. by right.
      * intros i' [Hi'|Hi']%elem_of_union Hne'; [by apply Hur|].
        apply elem_of_singleton in Hi' as ->. apply Hrows; [by left|done].
Qed.

(** The matching of [update], read on the tracks: what a row that was
    used has taken, and when a row is sure to be used. *)
Lemma matching_assigned (detections : list Detection) s (ur uc : gset nat)
    s1 :
  wf s -> matching detections s = Ok (ur, uc) s1 ->
  wf s1 /\ matched s s1 ur
  /\ (forall i pid tr, objects s !! i = Some (pid, tr) -> i ∈ ur ->
        exists det,
          detections !! nearest tr detections = Some det
          /\ dict_get pid (objects s1) = Some (new_track det)
          /\ exceeds (dist2 (centroid tr) (_get_centroid det))
               (max_distance s) = false)
  /\ (forall i i' pid pid' tr tr',
        objects s !! i = Some (pid, tr) ->
        objects s !! i' = Some (pid', tr') ->
        i ∈ ur -> i' ∈ ur ->
        nearest tr detections = nearest tr' detections -> i = i')
  /\ (forall i pid tr det,
        objects s !! i = Some (pid, tr) ->
        detections !! nearest tr detections = Some det ->
        exceeds (dist2 (centroid tr) (_get_centroid det)) (max_distance s)
        = false ->
        (forall i' pid' tr', objects s !! i' = Some (pid', tr') -> i' <> i ->
           nearest tr' detections <> nearest tr detections) ->
        i ∈ ur).
Proof.
  intros Hwf. unfold matching, bind, gets.
  set (D := distance_matrix (map (fun kv => centroid (snd kv)) (objects s))
              (_get_detection_centroids detections)).
  set (choice := fun r : nat => nth r (map argmin D) 0%nat).
  intros Hloop.
  destruct (matching_loop_assigned detections D choice s
              (argsort (map row_min D)) Hwf ∅ ∅ s ur uc s1 Hwf
              (matched_refl s) (assigned_empty detections D choice s) Hloop)
    as (Hwf1 & Hm & (Hrows & Hcols & Hinj) & Hlive).
  assert (Hchoice : forall i pid tr, objects s !! i = Some (pid, tr) ->
            choice i = nearest tr detections).
  { intros i pid tr Hi. by apply (distance_matrix_choice detections s i pid). }
  assert (Hentry : forall i pid tr det,
            objects s !! i = Some (pid, tr) ->
            detections !! nearest tr detections = Some det ->
            D !! i ≫= (.!! (choice i))
            = Some (dist2 (centroid tr) (_get_centroid det))).
  { intros i pid tr det Hi Hdet. unfold D.
    rewrite (distance_matrix_row detections s i pid tr Hi). cbn.
    rewrite (Hchoice i pid tr Hi). by apply distances_lookup. }
  split; [done|]. split; [done|]. split; [|split].
  - intros i pid tr Hi Hin.
    destruct (Hrows i Hin) as (pid0 & det & d & Hk & Hdet & Ho & Hd & Hex).
    rewrite (keys_lookup _ _ _ _ Hi) in Hk. injection Hk as <-.
    rewrite (Hchoice i pid tr Hi) in Hdet.
    rewrite (Hentry i pid tr det Hi Hdet) in Hd. injection Hd as <-.
    by exists det.
  - intros i i' pid pid' tr tr' Hi Hi' Hin Hin' Heq. apply Hinj; [done..|].
    by rewrite (Hchoice i pid tr Hi), (Hchoice i' pid' tr' Hi').
  - intros i pid tr det Hi Hdet Hex Hfree.
    apply (Hlive i) with (dist2 (centroid tr) (_get_centroid det)).
    + right. apply argsort_elem_of. unfold D, distance_matrix.
      rewrite !length_map. apply lookup_lt_Some in Hi. exact Hi.
    + by apply (Hentry i pid tr).
    + done.
    + intros i' Hi' Hne. apply argsort_elem_of in Hi'.
      unfold D, distance_matrix in Hi'. rewrite !length_map in Hi'.
      destruct (lookup_lt_is_Some_2 (objects s) i' Hi') as [[pid' tr'] Hl].
      rewrite (Hchoice i' pid' tr' Hl), (Hchoice i pid tr Hi).
      by apply (Hfree i' pid' tr').
    + intros i' Hi'. by apply not_elem_of_empty in Hi'.
Qed.

(** X13.  In the matching of [update], a track that is matched takes
    its nearest detection - the first one in the list among equally near
    ones - and that detection lies within [max_distance]: the track then
    holds the detection and its centroid, with a counter of zero. *)
Theorem matched_track_takes_nearest_detection
    (detections : list Detection) s (ur uc : gset nat) s1 (i : nat) pid
    (tr : Track) :
  wf s -> matching detections s = Ok (ur, uc) s1 ->
  objects s !! i = Some (pid, tr) -> i ∈ ur ->
  exists det,
    detections !! nearest tr detections = Some det
    /\ dict_get pid (objects s1) = Some (new_track det)
    /\ dict_get pid (disappeared s1) = Some 0
    /\ exceeds (dist2 (centroid tr) (_get_centroid det)) (max_distance s)
       = false
    /\ forall det', det' ∈ detections ->
         (dist2 (centroid tr) (_get_centroid det)
          <= dist2 (centroid tr) (_get_centroid det'))%Q.
Proof.
  intros Hwf Hmatch Hi Hin.
  destruct (matching_assigned detections s ur uc s1 Hwf Hmatch)
    as (_ & Hm & Htakes & _).
  destruct (Htakes i pid tr Hi Hin) as (det & Hdet & Ho & Hex).
  exists det. split; [done|]. split; [done|]. split; [|split; [done|]].
  - destruct Hm as (_ & _ & _ & _ & _ & Hcount).
    specialize (Hcount i pid (keys_lookup _ _ _ _ Hi)).
    by rewrite bool_decide_eq_true_2 in Hcount.
  - intros det' Hdet'.
    destruct (argmin_spec (distances tr detections)) as (v & Hv & Hmin).
    { unfold distances. destruct detections; [|done].
      by apply elem_of_nil in Hdet'. }
    fold (nearest tr detections) in Hv.
    rewrite (distances_lookup tr detections _ det Hdet) in Hv.
    injection Hv as <-. apply Hmin. unfold distances.
    apply list_elem_of_In.
    apply (in_map (fun d => dist2 (centroid tr) (_get_centroid d))).
    by apply list_elem_of_In.
Qed.

(** X14.  The matching of [update] gives no detection to two tracks:
    two different tracks that are both matched took different positions
    of the detection list.  A track whose nearest detection is taken by
    another track is therefore left unmatched, whatever other detection
    lies within its reach. *)
Theorem no_detection_given_to_two_tracks
    (detections : list Detection) s (ur uc : gset nat) s1 (i i' : nat)
    pid pid' (tr tr' : Track) :
  wf s -> matching detections s = Ok (ur, uc) s1 ->
  objects s !! i = Some (pid, tr) -> objects s !! i' = Some (pid', tr') ->
  i <> i' -> i ∈ ur -> i' ∈ ur ->
  nearest tr detections <> nearest tr' detections.
Proof.
  intros Hwf Hmatch Hi Hi' Hne Hin Hin' Heq.
  destruct (matching_assigned detections s ur uc s1 Hwf Hmatch)
    as (_ & _ & _ & Hinj & _).
  apply Hne. by apply (Hinj i i' pid pid' tr tr').
Qed.

(** X15.  In the matching of [update], a track whose nearest detection
    lies within [max_distance] and is the nearest detection of no other
    track is matched. *)
Theorem track_within_reach_is_matched
    (detections : list Detection) s (ur uc : gset nat) s1 (i : nat) pid
    (tr : Track) (det : Detection) :
  wf s -> matching detections s = Ok (ur, uc) s1 ->
  objects s !! i = Some (pid, tr) ->
  detections !! nearest tr detections = Some det ->
  exceeds (dist2 (centroid tr) (_get_centroid det)) (max_distance s) = false ->
  (forall i' pid' tr', objects s !! i' = Some (pid', tr') -> i' <> i ->
     nearest tr' detections <> nearest tr detections) ->
  i ∈ ur.
Proof.
  intros Hwf Hmatch Hi Hdet Hex Hfree.
  destruct (matching_assigned detections s ur uc s1 Hwf Hmatch)
    as (_ & _ & _ & _ & Hlive).
  by apply (Hlive i pid tr det).
Qed.

End TrackerNearest.

Section TrackerNearestExamples.
Import Tracker.
Local Existing Instance ascending_order.

(** Three detections against the two tracks of the first tick: the
    track 0 takes the detection next to it. *)
Lemma matched_track_takes_nearest_detection_witness :
  exists det,
    dict_get 0
      (objects (final (matching four_persons
                         (run [two_persons] (init 30 50)))))
    = Some (new_track det).
Proof.
  destruct (matched_track_takes_nearest_detection four_persons
              (run [two_persons] (init 30 50)) {[0%nat]} {[1%nat]}
              (final (matching four_persons (run [two_persons] (init 30 50))))
              0 0 (new_track (detection_at 0 0 2 0)))
    as (det & _ & Ho & _).
  - apply run_step, init_wf.
  - vm_compute. reflexivity.
  - vm_compute. reflexivity.
  - by apply elem_of_singleton.
  - exists det. exact Ho.
Defined.

(** The two tracks of the first tick, seen again at the same places. *)
Lemma no_detection_given_to_two_tracks_witness :
  nearest (new_track (detection_at 0 0 2 0)) two_persons
  <> nearest (new_track (detection_at 500 500 502 500)) two_persons.
Proof.
  apply (no_detection_given_to_two_tracks two_persons
           (run [two_persons] (init 30 50)) {[0%nat; 1%nat]}
           {[0%nat; 1%nat]}
           (final (matching two_persons (run [two_persons] (init 30 50))))
           0 1 0 1).
  - apply run_step, init_wf.
  - vm_compute. reflexivity.
  - vm_compute. reflexivity.
  - vm_compute. reflexivity.
  - lia.
  - apply elem_of_union. left. by apply elem_of_singleton.
  - apply elem_of_union. right. by apply elem_of_singleton.
Defined.

(** One track and a detection two pixels away from it. *)
Lemma track_within_reach_is_matched_witness :
  exists ur uc s1,
    matching [detection_at 2 0 4 0] (run [[detection_at 0 0 2 0]] (init 30 50))
    = Ok (ur, uc) s1
    /\ 0%nat ∈ ur.
Proof.
  destruct (matching_ok [detection_at 2 0 4 0]
              (run [[detection_at 0 0 2 0]] (init 30 50)))
    as (ur & uc & s1 & Hmatch & _); [apply run_step, init_wf|done|].
  exists ur, uc, s1. split; [exact Hmatch|].
  apply (track_within_reach_is_matched [detection_at 2 0 4 0]
           (run [[detection_at 0 0 2 0]] (init 30 50)) ur uc s1 0 0
           (new_track (detection_at 0 0 2 0)) (detection_at 2 0 4 0)).
  - apply run_step, init_wf.
  - exact Hmatch.
  - vm_compute. reflexivity.
  - vm_compute. reflexivity.
  - vm_compute. reflexivity.
  - intros [|i'] pid' tr' Hl Hne; [done|]. vm_compute in Hl. discriminate.
Defined.

End TrackerNearestExamples.

(** ** The tracker: the aging loop after an eviction *)

Section TrackerAgingLoop.
Import Tracker.

Implicit Types (s : MultiPersonTracker) (pid : Z).
Context `{!SetOrder}.

Lemma length_del_key (k : Z) (l : list Z) :
  (length (del_key k l) <= length l)%nat
  /\ (k ∈ l -> S (length (del_key k l)) = length l).
Proof.
  induction l as [|a l [IHle IHin]]; cbn [del_key length].
  - split; [done|]. by intros ?%elem_of_nil.
  - destruct (Z.eqb_spec k a) as [->|Hne]; [split; [lia|done]|].
    cbn [length]. split; [lia|].
    intros [?|Hin]%elem_of_cons; [done|]. by rewrite (IHin Hin).
Qed.

Lemma length_ids s : length (ids s) = length (objects s).
Proof. unfold ids, dict_keys. by rewrite length_map. Qed.

Lemma age_row_some (row : nat) pid s :
  ids s !! row = Some pid -> age_row row s = mark_disappeared pid s.
Proof.
  intros Hrow. unfold age_row, bind, gets, or_raise. unfold ids in Hrow.
  by rewrite Hrow.
Qed.

Lemma age_row_none (row : nat) s :
  ids s !! row = None -> age_row row s = Raise IndexError s.
Proof.
  intros Hrow. unfold age_row, bind, gets, or_raise. unfold ids in Hrow.
  by rewrite Hrow.
Qed.

(** An iteration of the aging loop on a row that holds a track. *)
Lemma age_row_spec (row : nat) pid s :
  wf s -> ids s !! row = Some pid ->
  exists n s',
    dict_get pid (disappeared s) = Some n
    /\ age_row row s = Ok tt s' /\ wf s'
    /\ max_disappeared s' = max_disappeared s
    /\ (length (objects s') <= length (objects s))%nat
    /\ (if max_disappeared s <? n + 1
        then S (length (objects s')) = length (objects s)
        else objects s' = objects s
             /\ forall k, k <> pid ->
                  dict_get k (disappeared s') = dict_get k (disappeared s)).
Proof.
  intros Hwf Hrow. pose proof Hwf as (Hkeys & _).
  pose proof (list_elem_of_lookup_2 _ _ _ Hrow) as Hin.
  destruct (dict_get_is_Some pid (disappeared s)) as [n Hn];
    [by rewrite Hkeys|].
  destruct (mark_disappeared_spec pid n s Hwf Hn)
    as (s' & Heq & Hwf' & _ & Hmax & _ & Hother & Hcase).
  exists n, s'. rewrite (age_row_some row pid s Hrow).
  split; [done|]. split; [done|]. split; [done|]. split; [done|].
  destruct (length_del_key pid (ids s)) as [Hle Hlen].
  destruct (max_disappeared s <? n + 1).
  - destruct Hcase as (_ & _ & Hids).
    rewrite <- !length_ids, Hids. split; [done|]. by apply Hlen.
  - destruct Hcase as (_ & Hobj). rewrite Hobj. split; [done|].
    split; [done|]. intros k Hk. by apply Hother.
Qed.

(** Once the dictionary is too short for a row that is still to come,
    the loop raises. *)
Lemma age_rows_short (rows : list nat) (m : nat) s :
  wf s -> m ∈ rows -> (length (objects s) <= m)%nat ->
  exists s', for_each rows age_row s = Raise IndexError s'.
Proof.
  revert s. induction rows as [|h rows IH]; intros s Hwf Hm Hlen.
  { by apply elem_of_nil in Hm. }
  cbn [for_each]. unfold bind.
  destruct (ids s !! h) as [pid|] eqn:Hh.
  - destruct (age_row_spec h pid s Hwf Hh)
      as (n & s1 & _ & -> & Hwf1 & _ & Hle & _).
    apply lookup_lt_Some in Hh. rewrite length_ids in Hh.
    apply elem_of_cons in Hm as [->|Hm]; [lia|].
    apply IH; [done|done|lia].
  - rewrite (age_row_none h s Hh). by eexists.
Qed.

(** The loop either returns or raises [IndexError]. *)
Lemma age_rows_outcome (rows : list nat) s :
  wf s ->
  (exists s', for_each rows age_row s = Ok tt s')
  \/ (exists s', for_each rows age_row s = Raise IndexError s').
Proof.
  revert s. induction rows as [|h rows IH]; intros s Hwf.
  { left. by exists s. }
  cbn [for_each]. unfold bind.
  destruct (ids s !! h) as [pid|] eqn:Hh.
  - destruct (age_row_spec h pid s Hwf Hh) as (n & s1 & _ & -> & Hwf1 & _).
    by apply IH.
  - rewrite (age_row_none h s Hh). right. by eexists.
Qed.

(** A row whose track is at its last allowed miss, followed in the loop
    by the last row of the dictionary. *)
Lemma age_rows_evicting (pre post : list nat) (row m : nat) pid (n : Z) s :
  wf s -> ids s !! row = Some pid ->
  dict_get pid (disappeared s) = Some n -> max_disappeared s < n + 1 ->
  (length (objects s) <= S m)%nat -> m ∈ post ->
  exists s', for_each (pre ++ row :: post) age_row s = Raise IndexError s'.
Proof.
  revert s. induction pre as [|h pre IH]; intros s Hwf Hrow Hn Hmax Hlen Hm.
  - cbn [app for_each]. unfold bind.
    destruct (age_row_spec row pid s Hwf Hrow)
      as (n' & s1 & Hn' & -> & Hwf1 & _ & _ & Hcase).
    assert (n' = n) as -> by congruence.
    assert (E : (max_disappeared s <? n + 1) = true) by (apply Z.ltb_lt; lia).
    rewrite E in Hcase.
    apply (age_rows_short post m s1); [done|done|lia].
  - cbn [app for_each]. unfold bind.
    destruct (ids s !! h) as [pid_h|] eqn:Hh.
    + destruct (age_row_spec h pid_h s Hwf Hh)
        as (n_h & s1 & Hn_h & -> & Hwf1 & Hmax1 & Hle & Hcase).
      destruct (max_disappeared s <? n_h + 1) eqn:E.
      * apply (age_rows_short (pre ++ row :: post) m s1); [done| |lia].
        apply elem_of_app. right. by right.
      * destruct Hcase as (Hobj & Hother). apply Z.ltb_ge in E.
        assert (Hne : pid <> pid_h).
        { intros ->. assert (n_h = n) by congruence. lia. }
        apply IH; try done.
        -- unfold ids in *. by rewrite Hobj.
        -- by rewrite (Hother pid Hne).
        -- by rewrite Hmax1.
        -- by rewrite Hobj.
    + rewrite (age_row_none h s Hh). by eexists.
Qed.

(** With one track the loop has at most one row to visit. *)
Lemma unused_one (ur : gset nat) :
  unused 1 ur = [] \/ unused 1 ur = [0%nat].
Proof.
  pose proof (unused_NoDup 1 ur) as Hnd.
  assert (Hall : forall i, i ∈ unused 1 ur -> i = 0%nat).
  { intros i [Hi _]%unused_spec. lia. }
  destruct (unused 1 ur) as [|a [|b l]]; [by left| |].
  - right. f_equal. apply Hall. by left.
  - exfalso. apply NoDup_cons in Hnd as [Hab _]. apply Hab.
    rewrite (Hall a), (Hall b); [by left|right; by left|by left].
Qed.

(** [update] on the branch that ages unmatched tracks. *)
Lemma update_aging (detections : list Detection) s (ur uc : gset nat) s1 :
  detections <> [] ->
  (0 < length (objects s))%nat ->
  (length detections <= length (objects s))%nat ->
  matching detections s = Ok (ur, uc) s1 ->
  update detections s
  = match for_each (unused (length (objects s)) ur) age_row s1 with
    | Ok _ s' => Ok (objects s') s'
    | Raise e s' => Raise e s'
    end.
Proof.
  intros Hne Hpos Hle Hmatch.
  assert (E0 : (length detections =? 0)%nat = false).
  { apply Nat.eqb_neq. by destruct detections. }
  assert (E1 : (length (objects s) =? 0)%nat = false)
    by (apply Nat.eqb_neq; lia).
  assert (E2 : (length detections <=? length (objects s))%nat = true)
    by (by apply Nat.leb_le).
  unfold update. rewrite E0. unfold bind at 1, gets at 1. cbv beta.
  rewrite E1. unfold bind. rewrite Hmatch, E2. done.
Qed.

(** C4.  The branch that the design document gives the aging of
    unmatched tracks to - at least one detection, at most as many
    detections as tracks - does not age them all.  Its loop reads
    [list(self.objects.keys())[row]] afresh at every iteration: once it
    has evicted the track of an unmatched row, the key list is one
    shorter, and when the last row of the dictionary is still to come
    [update] raises [IndexError].  When the last row is the very next one
    visited, the evicted track is the only one the loop has touched:
    every other unmatched track is still live, its counter as it was. *)
Theorem aging_stops_after_eviction
    (detections : list Detection) s (ur uc : gset nat) s1
    (pre post : list nat) (row : nat) pid (n : Z) :
  wf s -> detections <> [] ->
  (length detections <= length (objects s))%nat ->
  matching detections s = Ok (ur, uc) s1 ->
  unused (length (objects s)) ur = pre ++ row :: post ->
  (length (objects s) - 1)%nat ∈ post ->
  ids s !! row = Some pid ->
  dict_get pid (disappeared s) = Some n -> max_disappeared s < n + 1 ->
  exists s',
    update detections s = Raise IndexError s'
    /\ (pre = [] -> head post = Some (length (objects s) - 1)%nat ->
        ids s' = del_key pid (ids s)
        /\ forall i p, i ∉ ur -> i <> row -> ids s !! i = Some p ->
             p ∈ ids s'
             /\ dict_get p (disappeared s') = dict_get p (disappeared s)).
Proof.
  intros Hwf Hne Hle Hmatch Horder Hlast Hrow Hn Hmax.
  destruct (matching_ok detections s Hwf Hne)
    as (ur0 & uc0 & s0 & Hmatch0 & Hwf1 & Hm).
  rewrite Hmatch in Hmatch0. injection Hmatch0 as <- <- <-.
  destruct Hm as (_ & Hmax1 & _ & Hko & _ & Hrows).
  assert (Hur : row ∉ ur).
  { assert (Hin : row ∈ unused (length (objects s)) ur).
    { rewrite Horder. apply elem_of_app. right. by left. }
    by apply unused_spec in Hin as [_ ?]. }
  assert (Hpos : (0 < length (objects s))%nat).
  { apply lookup_lt_Some in Hrow. rewrite length_ids in Hrow. lia. }
  pose proof (Hrows row pid Hrow) as Hrow1.
  rewrite (bool_decide_eq_false_2 (row ∈ ur)) in Hrow1 by done.
  destruct Hrow1 as [Hd _].
  assert (Hrow' : ids s1 !! row = Some pid) by (unfold ids; by rewrite Hko).
  assert (Hn1 : dict_get pid (disappeared s1) = Some n) by (by rewrite Hd).
  assert (Hlen1 : length (objects s1) = length (objects s)).
  { rewrite <- !length_ids. unfold ids. by rewrite Hko. }
  rewrite (update_aging detections s ur uc s1) by done.
  rewrite Horder.
  destruct (age_rows_evicting pre post row (length (objects s) - 1) pid n s1)
    as (s' & Hraise); try done; [by rewrite Hmax1|lia|].
  exists s'. rewrite Hraise. split; [done|].
  intros -> Hhead. destruct post as [|m post]; [done|].
  injection Hhead as ->.
  revert Hraise. cbn [app for_each]. unfold bind.
  destruct (mark_disappeared_spec pid n s1 Hwf1 Hn1)
    as (s2 & Hstep & Hwf2 & _ & _ & _ & Hother & Hcase).
  rewrite (age_row_some row pid s1 Hrow'), Hstep.
  assert (E : (max_disappeared s1 <? n + 1) = true)
    by (apply Z.ltb_lt; lia).
  rewrite E in Hcase. destruct Hcase as (_ & _ & Hids).
  assert (Hshort : ids s2 !! (length (objects s) - 1)%nat = None).
  { apply lookup_ge_None. rewrite Hids.
    destruct (length_del_key pid (ids s1)) as [_ Hdel].
    specialize (Hdel (list_elem_of_lookup_2 _ _ _ Hrow')).
    rewrite length_ids in Hdel. lia. }
  rewrite (age_row_none _ s2 Hshort). intros [= <-].
  split; [rewrite Hids; unfold ids; by rewrite Hko|].
  intros i p Hi Hir Hp.
  assert (Hpne : p <> pid).
  { intros ->. destruct Hwf as (_ & Hnd & _).
    by pose proof (NoDup_lookup _ _ _ _ Hnd Hp Hrow). }
  specialize (Hrows i p Hp).
  rewrite (bool_decide_eq_false_2 (i ∈ ur)) in Hrows by done.
  destruct Hrows as [Hdp Hop]. destruct (Hother p Hpne) as [Hd2 Ho2].
  split; [|by rewrite Hd2, Hdp].
  destruct (dict_get_is_Some p (objects s)) as [v Hv];
    [by apply list_elem_of_lookup_2 in Hp|].
  apply dict_get_elem_of with v. by rewrite Ho2, Hop.
Qed.

(** The key that a row reads once an earlier row has been evicted. *)
Lemma lookup_del_key_ge (l : list Z) (k : Z) (i j : nat) :
  NoDup l -> l !! i = Some k -> (i <= j)%nat ->
  del_key k l !! j = l !! S j.
Proof.
  revert i j. induction l as [|a l IH]; intros i j Hnd Hi Hij; [done|].
  apply NoDup_cons in Hnd as [Ha Hnd]. cbn [del_key].
  destruct i as [|i]; cbn in Hi.
  - injection Hi as ->. by rewrite Z.eqb_refl.
  - destruct (Z.eqb_spec k a) as [->|Hne].
    + by apply list_elem_of_lookup_2 in Hi.
    + destruct j as [|j]; [lia|]. cbn. apply (IH i); [done|done|lia].
Qed.

(** X16.  The aging loop of [update] reads
    [list(self.objects.keys())[row]] afresh at every iteration, so an
    eviction moves the tracks behind it one row up.  When the loop visits
    two unmatched rows, the lower one first, and evicts its track, the
    second iteration ages the track that stood one row below the second
    row: that track was matched in this very update, and it is evicted
    when [max_disappeared] is below one, its counter set to one
    otherwise, while the unmatched track of the second row stays live
    with its counter as it was. *)
Theorem eviction_shifts_aging_to_next_track
    (detections : list Detection) s (ur uc : gset nat) s1
    (row row' : nat) pid pid' pid'' (n : Z) :
  wf s -> detections <> [] ->
  (length detections <= length (objects s))%nat ->
  matching detections s = Ok (ur, uc) s1 ->
  unused (length (objects s)) ur = [row; row'] -> (row < row')%nat ->
  ids s !! row = Some pid -> ids s !! row' = Some pid' ->
  ids s !! S row' = Some pid'' ->
  dict_get pid (disappeared s) = Some n -> max_disappeared s < n + 1 ->
  exists s',
    update detections s = Ok (objects s') s'
    /\ (S row' ∈ ur)
    /\ (pid ∉ ids s')
    /\ pid' ∈ ids s'
    /\ dict_get pid' (disappeared s') = dict_get pid' (disappeared s)
    /\ (if max_disappeared s <? 1 then pid'' ∉ ids s'
        else dict_get pid'' (disappeared s') = Some 1).
Proof.
  intros Hwf Hne Hle Hmatch Horder Hlt Hrow Hrow' Hrow'' Hn Hmax.
  destruct (matching_ok detections s Hwf Hne)
    as (ur0 & uc0 & s0 & Hmatch0 & Hwf1 & Hm).
  rewrite Hmatch in Hmatch0. injection Hmatch0 as <- <- <-.
  destruct Hm as (_ & Hmax1 & _ & Hko & _ & Hrows).
  pose proof Hwf as (_ & Hnd & _).
  assert (Hin : forall i, i ∈ unused (length (objects s)) ur
                          <-> i = row \/ i = row').
  { intros i. rewrite Horder, elem_of_cons, list_elem_of_singleton. done. }
  assert (Hur : row ∉ ur).
  { assert (H0 : row ∈ unused (length (objects s)) ur)
      by (apply Hin; by left).
    by apply unused_spec in H0 as [_ ?]. }
  assert (Hur' : row' ∉ ur).
  { assert (H0 : row' ∈ unused (length (objects s)) ur)
      by (apply Hin; by right).
    by apply unused_spec in H0 as [_ ?]. }
  assert (Hur'' : S row' ∈ ur).
  { destruct (decide (S row' ∈ ur)) as [|Hnot]; [done|]. exfalso.
    assert (H0 : S row' ∈ unused (length (objects s)) ur).
    { apply unused_spec. split; [|done].
      apply lookup_lt_Some in Hrow''. by rewrite length_ids in Hrow''. }
    apply Hin in H0. lia. }
  assert (Hpos : (0 < length (objects s))%nat).
  { apply lookup_lt_Some in Hrow. rewrite length_ids in Hrow. lia. }
  assert (Hne1 : pid' <> pid).
  { intros ->. pose proof (NoDup_lookup _ _ _ _ Hnd Hrow Hrow'). lia. }
  assert (Hne2 : pid'' <> pid).
  { intros ->. pose proof (NoDup_lookup _ _ _ _ Hnd Hrow Hrow''). lia. }
  assert (Hne3 : pid' <> pid'').
  { intros ->. pose proof (NoDup_lookup _ _ _ _ Hnd Hrow' Hrow''). lia. }
  pose proof (Hrows row pid Hrow) as H1.
  rewrite (bool_decide_eq_false_2 (row ∈ ur)) in H1 by done.
  destruct H1 as [Hd1 _].
  pose proof (Hrows row' pid' Hrow') as H2.
  rewrite (bool_decide_eq_false_2 (row' ∈ ur)) in H2 by done.
  destruct H2 as [Hd2 Ho2].
  pose proof (Hrows (S row') pid'' Hrow'') as H3.
  rewrite (bool_decide_eq_true_2 (S row' ∈ ur)) in H3 by done.
  assert (Hids1 : ids s1 = ids s) by (unfold ids; by rewrite Hko).
  assert (Hn1 : dict_get pid (disappeared s1) = Some n) by (by rewrite Hd1).
  destruct (mark_disappeared_spec pid n s1 Hwf1 Hn1)
    as (s2 & Hstep & Hwf2 & _ & Hmax2 & _ & Hother & Hcase).
  assert (E : (max_disappeared s1 <? n + 1) = true)
    by (apply Z.ltb_lt; lia).
  rewrite E in Hcase. destruct Hcase as (_ & Hgone & Hids2).
  assert (Hread : ids s2 !! row' = Some pid'').
  { rewrite Hids2, Hids1.
    rewrite (lookup_del_key_ge (ids s) pid row row') by (done || lia).
    done. }
  destruct (Hother pid'' Hne2) as [Hd'' Ho''].
  assert (Hn2 : dict_get pid'' (disappeared s2) = Some 0)
    by (by rewrite Hd'').
  destruct (mark_disappeared_spec pid'' 0 s2 Hwf2 Hn2)
    as (s3 & Hstep3 & Hwf3 & _ & _ & _ & Hother3 & Hcase3).
  exists s3.
  rewrite (update_aging detections s ur uc s1) by done.
  rewrite Horder. cbn [for_each]. unfold bind.
  rewrite (age_row_some row pid s1) by (by rewrite Hids1).
  rewrite Hstep, (age_row_some row' pid'' s2 Hread), Hstep3.
  cbn [ret]. split; [done|]. split; [done|].
  destruct (Hother3 pid (not_eq_sym Hne2)) as [_ Ho3].
  destruct (Hother3 pid' Hne3) as [Hd3' Ho3'].
  destruct (Hother pid' Hne1) as [Hd2' Ho2'].
  split; [|split; [|split]].
  - apply dict_get_None. by rewrite Ho3.
  - destruct (dict_get_is_Some pid' (objects s)) as [v Hv];
      [by apply list_elem_of_lookup_2 in Hrow'|].
    apply dict_get_elem_of with v. by rewrite Ho3', Ho2', Ho2.
  - by rewrite Hd3', Hd2', Hd2.
  - rewrite Hmax2, Hmax1 in Hcase3. change (0 + 1) with 1 in Hcase3.
    destruct (max_disappeared s <? 1).
    + destruct Hcase3 as (_ & Hgone3 & _). by apply dict_get_None.
    + by destruct Hcase3 as [? _].
Qed.

(** X17.  [update] raises nothing but [IndexError], and only on the
    branch that ages unmatched tracks: when it raises there was at least
    one detection, at most as many detections as tracks, and at least two
    tracks. *)
Theorem update_raises_only_index_error
    (detections : list Detection) s (e : exn) s' :
  wf s -> update detections s = Raise e s' ->
  e = IndexError /\ detections <> []
  /\ (length detections <= length (objects s))%nat
  /\ (2 <= length (objects s))%nat.
Proof.
  intros Hwf Hraise.
  destruct detections as [|det detections].
  { destruct (update_no_detections s Hwf) as (s0 & Hu & _). congruence. }
  destruct (decide (length (objects s) = 0)%nat) as [Hzero|Hpos].
  { exfalso. revert Hraise. unfold update. cbn [length Nat.eqb].
    unfold bind at 1, gets at 1. cbv beta. rewrite Hzero. cbn [Nat.eqb].
    unfold bind. by rewrite register_all. }
  destruct (decide (length (det :: detections) <= length (objects s))%nat)
    as [Hle|Hgt].
  2:{ destruct (update_surplus (det :: detections) s Hwf ltac:(lia))
        as (? & ? & ? & s0 & _ & Hu & _). congruence. }
  destruct (matching_ok (det :: detections) s Hwf ltac:(done))
    as (ur & uc & s1 & Hmatch & Hwf1 & Hm).
  rewrite (update_aging (det :: detections) s ur uc s1) in Hraise
    by (done || lia).
  split; [|split; [done|split; [done|]]].
  - destruct (age_rows_outcome (unused (length (objects s)) ur) s1 Hwf1)
      as [[s0 Heq]|[s0 Heq]]; rewrite Heq in Hraise; congruence.
  - destruct (decide (2 <= length (objects s))%nat) as [|Hone]; [done|].
    exfalso. assert (Hlen : length (objects s) = 1%nat) by lia.
    destruct Hm as (_ & _ & _ & Hko & _).
    assert (Hrow : exists pid, ids s1 !! 0%nat = Some pid).
    { apply lookup_lt_is_Some_2. unfold ids. rewrite Hko.
      fold (ids s). rewrite length_ids. lia. }
    destruct Hrow as [pid Hrow].
    destruct (age_row_spec 0 pid s1 Hwf1 Hrow) as (n & s2 & _ & Hage & _).
    rewrite Hlen in Hraise.
    destruct (unused_one ur) as [Heq|Heq]; rewrite Heq in Hraise;
      cbn [for_each] in Hraise.
    + cbn in Hraise. congruence.
    + unfold bind in Hraise. rewrite Hage in Hraise. cbn in Hraise. congruence.
Qed.

End TrackerAgingLoop.

Section TrackerAgingLoopExamples.
Import Tracker.
Local Existing Instance ascending_order.

(** Two tracks that may not miss a frame, and one detection far from
    both: the loop visits row 0, then row 1.  The track 0 is evicted and
    the read at row 1 raises; the track 1, as unmatched as the track 0,
    is still live with a counter of zero. *)
Lemma aging_stops_after_eviction_witness :
  exists s',
    update far_person (run [two_persons] (init 0 50)) = Raise IndexError s'
    /\ ids s' = [1] /\ dict_get 1 (disappeared s') = Some 0.
Proof.
  destruct (aging_stops_after_eviction far_person
              (run [two_persons] (init 0 50)) ∅ ∅
              (final (matching far_person (run [two_persons] (init 0 50))))
              [] [1%nat] 0 0 0) as (s' & Hraise & Hstate).
  - apply run_step, init_wf.
  - discriminate.
  - vm_compute. lia.
  - vm_compute. reflexivity.
  - vm_compute. reflexivity.
  - vm_compute. apply list_elem_of_here.
  - vm_compute. reflexivity.
  - vm_compute. reflexivity.
  - vm_compute. reflexivity.
  - destruct Hstate as [Hids Hrest]; [reflexivity|reflexivity|].
    exists s'. split; [exact Hraise|]. split; [exact Hids|].
    destruct (Hrest 1%nat 1) as [_ Hd];
      [apply not_elem_of_empty|discriminate|reflexivity|].
    exact Hd.
Defined.

(** Three tracks that may not miss a frame, and one detection where the
    third one stands: the third track is matched, the loop visits row 0,
    then row 1.  The track 0 is evicted; the second iteration reads the
    key of the third track at row 1 and evicts it, and the track 1, which
    was not seen, is the one that is left. *)
Lemma eviction_shifts_aging_to_next_track_witness :
  exists s',
    update far_person (run [three_persons] (init 0 50)) = Ok (objects s') s'
    /\ 1 ∈ ids s' /\ 2 ∉ ids s'.
Proof.
  destruct (eviction_shifts_aging_to_next_track far_person
              (run [three_persons] (init 0 50)) {[2%nat]} {[0%nat]}
              (final (matching far_person (run [three_persons] (init 0 50))))
              0 1 0 1 2 0) as (s' & Hu & _ & _ & Hin & _ & Hout).
  - apply run_step, init_wf.
  - discriminate.
  - vm_compute. lia.
  - vm_compute. reflexivity.
  - vm_compute. reflexivity.
  - lia.
  - vm_compute. reflexivity.
  - vm_compute. reflexivity.
  - vm_compute. reflexivity.
  - vm_compute. reflexivity.
  - vm_compute. reflexivity.
  - exists s'. split; [exact Hu|]. split; [exact Hin|]. exact Hout.
Defined.

(** The same two tracks and the same far detection. *)
Lemma update_raises_only_index_error_witness :
  (2 <= length (objects (run [two_persons] (init 0 50))))%nat.
Proof.
  destruct (update [detection_at 1000 1000 1002 1000]
              (run [two_persons] (init 0 50))) as [o s'|e s'] eqn:Hu.
  - exfalso. vm_compute in Hu. discriminate.
  - by destruct (update_raises_only_index_error
                   [detection_at 1000 1000 1002 1000]
                   (run [two_persons] (init 0 50)) e s'
                   (proj1 (run_step [two_persons] (init 0 50) (init_wf 0 50)))
                   Hu) as (_ & _ & _ & ?).
Defined.

End TrackerAgingLoopExamples.

(** ** One track, one detection: the order does not matter *)

Section AnyOrder.

(** With at most one index to choose from, every order gives the same
    list. *)
Lemma unused_any_order (H1 H2 : SetOrder) (n : nat) (used : gset nat) :
  (n <= 1)%nat ->
  Tracker.unused (H := H1) n used = Tracker.unused (H := H2) n used.
Proof.
  intros Hn.
  assert (Hshape : forall H : SetOrder,
            (Tracker.unused (H := H) n used = []
             /\ ~ ((0 < n)%nat /\ 0%nat ∉ used))
            \/ (Tracker.unused (H := H) n used = [0%nat]
                /\ (0 < n)%nat /\ 0%nat ∉ used)).
  { intros H.
    pose proof (unused_NoDup (H := H) n used) as Hnd.
    pose proof (unused_spec (H := H) n used) as Hspec.
    destruct (Tracker.unused (H := H) n used) as [|a [|b l]].
    - left. split; [done|]. intros Hin. apply (Hspec 0%nat) in Hin.
      by apply elem_of_nil in Hin.
    - right. assert (a = 0%nat) as ->.
      { destruct (Hspec a) as [Ha _]. specialize (Ha ltac:(by left)). lia. }
      split; [done|]. apply Hspec. by left.
    - exfalso. apply NoDup_cons in Hnd as [Hab _]. apply Hab.
      destruct (Hspec a) as [Ha _]. specialize (Ha ltac:(by left)).
      destruct (Hspec b) as [Hb _]. specialize (Hb ltac:(right; by left)).
      assert (a = b) as -> by lia. by left. }
  destruct (Hshape H1) as [[-> Hno1]|[-> Hyes1]],
           (Hshape H2) as [[-> Hno2]|[-> Hyes2]]; tauto.
Qed.

Lemma update_any_order (H1 H2 : SetOrder)
    (detections : list Tracker.Detection) (s : Tracker.MultiPersonTracker) :
  (length (Tracker.objects s) <= 1)%nat -> (length detections <= 1)%nat ->
  Tracker.update (H := H1) detections s
  = Tracker.update (H := H2) detections s.
Proof.
  intros Ho Hd. unfold Tracker.update.
  destruct (length detections =? 0)%nat; [done|].
  unfold bind, gets.
  destruct (length (Tracker.objects s) =? 0)%nat; [done|].
  destruct (Tracker.matching detections s) as [[ur uc] s1|e1 s1]; [|done].
  rewrite (unused_any_order H1 H2 (length (Tracker.objects s)) ur) by done.
  by rewrite (unused_any_order H1 H2 (length detections) uc) by done.
Qed.

Lemma tick_any_order (H1 H2 : SetOrder)
    (players_det : list Tracker.Detection) (current_time : Q) (event_ms : Z)
    (now : Q) (rand : nat -> Z) (self : RobustServer.RobustLavaServer) :
  (length (Tracker.objects (RobustServer.tracker self)) <= 1)%nat ->
  (length players_det <= 1)%nat ->
  RobustServer.tick (H := H1) players_det current_time event_ms now rand self
  = RobustServer.tick (H := H2) players_det current_time event_ms now rand
      self.
Proof.
  intros Ho Hd.
  unfold RobustServer.tick, RobustServer._detect_person_feet, bind, modify.
  cbn [RobustServer.tracker RobustServer.set_smoother
       RobustServer.set_frame_id].
  by rewrite (update_any_order H1 H2 players_det _ Ho Hd).
Qed.

End AnyOrder.

(** ** A server without calibration *)

Section Uncalibrated.
Import RobustServer.
Context `{!SetOrder}.

(** Without a transform every foot gets the cell (0, 0), flagged out of
    bounds, and the hazard test, which reads the cell and not the flag,
    is the membership of (0, 0) in the hazard set. *)
Lemma uncalibrated_hazard_test (self : RobustLavaServer) (limb : Tracker.Limb) :
  RobustMapping.H (mapper self) = None ->
  0 < RobustMapping.rows (mapper self) ->
  0 < RobustMapping.cols (mapper self) ->
  0 < rows self -> 0 < cols self ->
  grid (foot_data self limb) = (0, 0)
  /\ oob (foot_data self limb) = true
  /\ is_lava_at self (grid (foot_data self limb))
     = bool_decide ((0, 0) ∈ lava_tiles self).
Proof.
  intros HH Hmr Hmc Hr Hc.
  unfold foot_data, RobustMapping.pixel_to_grid_cell,
    RobustMapping.pixel_to_grid_float. rewrite HH. cbn.
  assert (Er : clip ((-1) `div` 1) 0 (RobustMapping.rows (mapper self) - 1) = 0)
    by (unfold clip; change ((-1) `div` 1) with (-1); lia).
  assert (Ec : clip ((-1) `div` 1) 0 (RobustMapping.cols (mapper self) - 1) = 0)
    by (unfold clip; change ((-1) `div` 1) with (-1); lia).
  rewrite Er, Ec.
  assert (H0r : (0 <? rows self) = true) by (apply Z.ltb_lt; lia).
  assert (H0c : (0 <? cols self) = true) by (apply Z.ltb_lt; lia).
  rewrite H0r, H0c. done.
Qed.

(** C1.  On a server started without calibration files whose client has
    marked (0, 0) as lava, for every pixel: the float mapping returns the
    sentinel (-1, -1); the foot is reported on the cell (0, 0), out of
    bounds; the hazard test on that cell is true.  A person standing
    anywhere for three ticks then sets off an event on the cell (0, 0). *)
Theorem uncalibrated_foot_is_on_hazard (x y : Q) (conf : option Q) :
  let limb := {| Tracker.pixel := (x, y); Tracker.confidence := conf |} in
  let foot := foot_data uncalibrated_server limb in
  let dets := [detection_at 320 240 330 240] in
  let s1 := final (tick dets 10 10000 10 (fun _ => 0) uncalibrated_server) in
  let s2 := final (tick dets 11 11000 11 (fun _ => 0) s1) in
  RobustMapping.pixel_to_grid_float (mapper uncalibrated_server) x y
  = ((-1)%Q, (-1)%Q)
  /\ grid foot = (0, 0)
  /\ oob foot = true
  /\ is_lava_at uncalibrated_server (grid foot) = true
  /\ match tick dets 12 12000 12 (fun _ => 0) s2 with
     | Ok (persons, events) _ =>
         map (fun e => (ev_person_id e, ev_foot e, ev_grid e)) events
         = [(0, "left"%string, (0, 0))]
         /\ map (fun p => oob (left_foot p)) persons = [true]
     | Raise _ _ => False
     end.
Proof.
  cbv zeta. split; [reflexivity|].
  destruct (uncalibrated_hazard_test uncalibrated_server
              {| Tracker.pixel := (x, y); Tracker.confidence := conf |})
    as (Hg & Ho & Hl); [reflexivity..|].
  split; [exact Hg|]. split; [exact Ho|]. split.
  - rewrite Hl. vm_compute. reflexivity.
  - rewrite (tick_any_order _ ascending_order _ 10 10000 10 _
               uncalibrated_server) by (vm_compute; lia).
    rewrite (tick_any_order _ ascending_order _ 11 11000 11)
      by (vm_compute; lia).
    rewrite (tick_any_order _ ascending_order _ 12 12000 12)
      by (vm_compute; lia).
    vm_compute. done.
Qed.

End Uncalibrated.

(** ** The server: what each step may change *)

Section ServerFrames.
Import RobustServer.
Context `{!SetOrder}.

Lemma set_collision_id (self : RobustLavaServer) :
  set_collision (collision_detected self) (collision_message self)
    (last_collision_time self) self = self.
Proof. by destruct self. Qed.

(** [check_foot] writes the debouncer and, when it queues an event, the
    three collision fields; nothing else. *)
Lemma check_foot_shape (current_time : Q) (event_ms pid : Z)
    (foot_name : string) (foot : FootData) (self : RobustLavaServer)
    (events : list CollisionEvent) :
  let sm' :=
    snd (Smoothing.observe (smoother self) pid foot_name
           (fst (grid foot)) (snd (grid foot)) (is_lava_at self (grid foot))) in
  exists detected msg time,
    fst (check_foot current_time event_ms pid foot_name foot (self, events))
    = set_collision detected msg time (set_smoother sm' self).
Proof.
  cbv zeta. rewrite check_foot_eq. destruct (collision_fires _ _ _ _ _).
  - by eexists _, _, _.
  - eexists _, _, _. cbn [fst]. symmetry. apply set_collision_id.
Qed.

Lemma smoother_observe_params (sm : Smoothing.LavaSmoother) pid foot row col b :
  Smoothing.k (snd (Smoothing.observe sm pid foot row col b)) = Smoothing.k sm
  /\ Smoothing.m (snd (Smoothing.observe sm pid foot row col b))
     = Smoothing.m sm
  /\ Smoothing.frame_index (snd (Smoothing.observe sm pid foot row col b))
     = Smoothing.frame_index sm.
Proof.
  unfold Smoothing.observe. by destruct (Smoothing.observe_entry _ _ _ _ _).
Qed.

(** The whole test of a tick: the state it leaves is the state it
    started from with another debouncer, of the same thresholds and frame
    index, and other collision fields. *)
Lemma check_persons_shape (current_time : Q) (event_ms : Z)
    (persons : list PersonData) (self : RobustLavaServer)
    (events : list CollisionEvent) :
  exists detected msg time sm,
    fst (fold_left (check_person current_time event_ms) persons (self, events))
    = set_collision detected msg time (set_smoother sm self)
    /\ Smoothing.k sm = Smoothing.k (smoother self)
    /\ Smoothing.m sm = Smoothing.m (smoother self)
    /\ Smoothing.frame_index sm = Smoothing.frame_index (smoother self).
Proof.
  revert self events. induction persons as [|p persons IH];
    intros self events.
  - exists (collision_detected self), (collision_message self),
      (last_collision_time self), (smoother self).
    cbn [fold_left fst]. split; [|done]. by destruct self.
  - cbn [fold_left]. unfold check_person at 2.
    destruct (check_foot_shape current_time event_ms (person_id p) "left"
                (left_foot p) self events) as (d1 & m1 & t1 & H1).
    cbv zeta in H1.
    destruct (check_foot current_time event_ms (person_id p) "left"
                (left_foot p) (self, events)) as [s1 e1].
    cbn [fst] in H1.
    destruct (check_foot_shape current_time event_ms (person_id p) "right"
                (right_foot p) s1 e1) as (d2 & m2 & t2 & H2).
    cbv zeta in H2.
    destruct (check_foot current_time event_ms (person_id p) "right"
                (right_foot p) (s1, e1)) as [s2 e2].
    cbn [fst] in H2.
    destruct (IH s2 e2) as (d & m & t & sm & -> & Hk & Hm & Hf).
    exists d, m, t, sm. rewrite H2, H1 in *. split; [done|].
    cbn [smoother set_collision set_smoother] in Hk, Hm, Hf.
    destruct (smoother_observe_params
                (snd (Smoothing.observe (smoother self) (person_id p) "left"
                        (fst (grid (left_foot p))) (snd (grid (left_foot p)))
                        (is_lava_at self (grid (left_foot p)))))
                (person_id p) "right"
                (fst (grid (right_foot p))) (snd (grid (right_foot p)))
                (is_lava_at
                   (set_collision d1 m1 t1
                      (set_smoother
                         (snd (Smoothing.observe (smoother self) (person_id p)
                                 "left" (fst (grid (left_foot p)))
                                 (snd (grid (left_foot p)))
                                 (is_lava_at self (grid (left_foot p)))))
                         self))
                   (grid (right_foot p)))) as (Hk2 & Hm2 & Hf2).
    destruct (smoother_observe_params (smoother self) (person_id p) "left"
                (fst (grid (left_foot p))) (snd (grid (left_foot p)))
                (is_lava_at self (grid (left_foot p)))) as (Hk1 & Hm1 & Hf1).
    split; [congruence|]. split; congruence.
Qed.

Lemma server_eta (self : RobustLavaServer) :
  self
  = set_lava_tiles (lava_tiles self)
      (set_collision (collision_detected self) (collision_message self)
         (last_collision_time self) (set_game_active (game_active self) self)).
Proof. by destruct self. Qed.

(** [_handle_message] writes the hazard set, or the session flag and the
    collision flag and message; nothing else, whether it returns or
    raises.  It never clears the session flag. *)
Lemma handle_message_shape (data : json) (self : RobustLavaServer) :
  exists tiles active detected msg,
    final (_handle_message data self)
    = set_lava_tiles tiles
        (set_collision detected msg (last_collision_time self)
           (set_game_active active self))
    /\ (active = true \/ active = game_active self)
    /\ (detected = false \/ detected = collision_detected self).
Proof.
  assert (Hself : exists tiles active detected msg,
            self = set_lava_tiles tiles
                     (set_collision detected msg (last_collision_time self)
                        (set_game_active active self))
            /\ (active = true \/ active = game_active self)
            /\ (detected = false \/ detected = collision_detected self)).
  { eexists _, _, _, _. split; [apply server_eta|]. split; by right. }
  unfold _handle_message.
  destruct data as [| | | | | |d]; try exact Hself.
  destruct (json_is_str (json_get "type" d) "tile_update").
  - unfold bind.
    destruct (py_iter _ self) as [incoming s0|e s0] eqn:E0.
    + pose proof (stateless_ok _ _ _ _ (stateless_py_iter _) E0) as ->.
      destruct (fold_each incoming add_tile ∅ self) as [tiles s1|e s1] eqn:E1.
      * pose proof (stateless_ok _ _ _ _
                      (stateless_fold_each _ _ _ stateless_add_tile) E1) as ->.
        exists tiles, (game_active self), (collision_detected self),
          (collision_message self).
        split; [|split; by right]. cbn [modify final]. by destruct self.
      * pose proof (stateless_fold_each incoming add_tile ∅
                      stateless_add_tile self) as Hs.
        rewrite E1 in Hs. cbn [final] in Hs |- *. by subst s1.
    + pose proof (stateless_py_iter (S := RobustLavaServer)
                    (default (JList []) (json_get "lava_tiles" d)) self) as Hs.
      rewrite E0 in Hs. cbn [final] in Hs |- *. by subst s0.
  - destruct (json_is_str (json_get "type" d) "restart_game");
      [|exact Hself].
    exists (lava_tiles self), true, false, ""%string.
    split; [|split; by left]. cbn [modify final]. by destruct self.
Qed.

(** [_maybe_demo_tiles] writes the hazard set and the time of the last
    fill; nothing else, whether it returns or raises. *)
Lemma maybe_demo_tiles_shape (now : Q) (rand : nat -> Z)
    (self : RobustLavaServer) :
  exists tiles time,
    final (_maybe_demo_tiles now rand self)
    = set_last_demo_time time (set_lava_tiles tiles self).
Proof.
  assert (Hself : forall s : RobustLavaServer,
            s = set_last_demo_time (last_demo_time s)
                  (set_lava_tiles (lava_tiles s) s)) by (by intros []).
  unfold _maybe_demo_tiles.
  destruct (negb (demo_enabled self));
    [eexists _, _; cbn [final]; apply Hself|].
  destruct (demo_due now self);
    [|eexists _, _; cbn [final]; apply Hself].
  assert (Hp : preserves
            (fun s => exists tiles time,
               s = set_last_demo_time time (set_lava_tiles tiles self))
            (run! modify (set_lava_tiles ∅) in
             run! for_each (seq 0 (Z.to_nat (demo_tiles_num self)))
                    (demo_tile rand) in
             modify (set_last_demo_time now))%py).
  { apply preserves_bind.
    { apply preserves_modify. intros s (tiles & time & ->).
      by eexists _, _. }
    intros _. apply preserves_bind.
    - apply preserves_for_each. intros i. unfold demo_tile.
      apply preserves_bind; [apply preserves_gets|]. intros nr.
      apply preserves_bind.
      { unfold randrange. destruct (nr <=? 0);
          [apply preserves_raise|apply preserves_ret]. }
      intros r. apply preserves_bind; [apply preserves_gets|]. intros nc.
      apply preserves_bind.
      { unfold randrange. destruct (nc <=? 0);
          [apply preserves_raise|apply preserves_ret]. }
      intros c. apply preserves_modify. intros s (tiles & time & ->).
      by eexists _, _.
    - intros _. apply preserves_modify. intros s (tiles & time & ->).
      by eexists _, _. }
  apply Hp. eexists _, _. apply Hself.
Qed.

(** The thresholds of the tracker are never assigned. *)
Lemma update_params (detections : list Tracker.Detection) (a : Z) (b : Q) :
  preserves (fun s => Tracker.max_disappeared s = a
                      /\ Tracker.max_distance s = b)
    (Tracker.update detections).
Proof.
  assert (Hdereg : forall pid,
            preserves (fun s => Tracker.max_disappeared s = a
                                /\ Tracker.max_distance s = b)
              (Tracker._deregister pid)).
  { intros pid s Hs. unfold Tracker._deregister.
    destruct (dict_del pid (Tracker.objects s)); [|done]. cbn.
    by destruct (dict_del pid (Tracker.disappeared s)). }
  assert (Hmark : forall pid,
            preserves (fun s => Tracker.max_disappeared s = a
                                /\ Tracker.max_distance s = b)
              (Tracker.mark_disappeared pid)).
  { intros pid s Hs. unfold Tracker.mark_disappeared.
    destruct (dict_get pid (Tracker.disappeared s)) as [n|]; [|done].
    cbn [Tracker.max_disappeared Tracker.set_disappeared].
    destruct (Tracker.max_disappeared s <? n + 1); [|done].
    by apply Hdereg. }
  assert (Hreg : forall det,
            preserves (fun s => Tracker.max_disappeared s = a
                                /\ Tracker.max_distance s = b)
              (Tracker._register det)).
  { by intros det s Hs. }
  unfold Tracker.update. destruct (length detections =? 0)%nat.
  - apply preserves_bind; [apply preserves_gets|]. intros keys.
    apply preserves_bind; [|intros _; apply preserves_gets].
    by apply preserves_for_each.
  - apply preserves_bind; [apply preserves_gets|]. intros n.
    apply preserves_bind; [|intros _; apply preserves_gets].
    destruct (n =? 0)%nat; [by apply preserves_for_each|].
    apply preserves_bind.
    + unfold Tracker.matching.
      apply preserves_bind; [apply preserves_gets|]. intros ocs.
      apply preserves_fold_each. intros [row col] [ur uc] s Hs.
      destruct (match_pair_cases detections
                  (Tracker._get_detection_centroids detections)
                  (Tracker.distance_matrix ocs
                     (Tracker._get_detection_centroids detections))
                  row col ur uc s)
        as [Hr|[Hr|(pid & det & c & _ & _ & _ & _ & _ & Hr)]];
        cbv zeta in Hr; rewrite Hr; done.
    + intros [ur uc]. destruct (length detections <=? n)%nat.
      * apply preserves_for_each. intros row. unfold Tracker.age_row.
        apply preserves_bind; [apply preserves_gets|]. intros keys.
        apply preserves_bind; [apply preserves_or_raise|]. intros pid.
        apply Hmark.
      * apply preserves_for_each. intros col. unfold Tracker.register_col.
        apply preserves_bind; [apply preserves_or_raise|]. intros det.
        apply Hreg.
Qed.

(** One iteration of the loop, step by step. *)
Lemma tick_steps (players_det : list Tracker.Detection) (current_time : Q)
    (event_ms : Z) (now : Q) (rand : nat -> Z) (self : RobustLavaServer) :
  let s1 :=
    set_smoother (Smoothing.next_frame (smoother self))
      (set_frame_id (frame_id self + 1) self) in
  tick players_det current_time event_ms now rand self
  = match Tracker.update players_det (tracker self) with
    | Raise e t' => Raise e (set_tracker t' s1)
    | Ok tracks t' =>
        let s2 := set_tracker t' s1 in
        let persons := map (person_data s2) tracks in
        let r := _check_lava_collisions current_time event_ms persons s2 in
        match _maybe_demo_tiles now rand (fst r) with
        | Ok _ s4 => Ok (persons, snd r) s4
        | Raise e s4 => Raise e s4
        end
    end.
Proof.
  cbv zeta. unfold tick, bind, modify, _detect_person_feet, ret.
  cbn [tracker set_smoother set_frame_id].
  destruct (Tracker.update players_det (tracker self)) as [tracks t'|e t'];
    [|done].
  destruct (_check_lava_collisions _ _ _ _) as [s3 events]. cbn [fst snd].
  by destruct (_maybe_demo_tiles now rand s3).
Qed.

(** The state a tick leaves, whether it returns or raises: the frame
    counters advanced by one, the tracker updated, and, when the tracker
    returned, other collision fields, debouncer entries, hazard set and
    time of the last fill. *)
Lemma tick_shape (players_det : list Tracker.Detection) (current_time : Q)
    (event_ms : Z) (now : Q) (rand : nat -> Z) (self : RobustLavaServer) :
  exists tiles time detected msg ctime sm,
    final (tick players_det current_time event_ms now rand self)
    = set_last_demo_time time
        (set_lava_tiles tiles
           (set_collision detected msg ctime
              (set_smoother sm
                 (set_tracker
                    (final (Tracker.update players_det (tracker self)))
                    (set_frame_id (frame_id self + 1) self)))))
    /\ Smoothing.k sm = Smoothing.k (smoother self)
    /\ Smoothing.m sm = Smoothing.m (smoother self)
    /\ Smoothing.frame_index sm = Smoothing.frame_index (smoother self) + 1.
Proof.
  rewrite tick_steps. cbv zeta.
  destruct (Tracker.update players_det (tracker self)) as [tracks t'|e t'].
  - set (s2 := set_tracker t'
                 (set_smoother (Smoothing.next_frame (smoother self))
                    (set_frame_id (frame_id self + 1) self))).
    set (persons := map (person_data s2) tracks).
    destruct (check_persons_shape current_time event_ms persons s2 [])
      as (d & m & t & sm & Hs & Hk & Hm & Hf).
    fold (_check_lava_collisions current_time event_ms persons s2) in Hs.
    destruct (maybe_demo_tiles_shape now rand
                (fst (_check_lava_collisions current_time event_ms persons s2)))
      as (tiles & time & Hd).
    exists tiles, time, d, m, t, sm. split; [|done].
    destruct (_maybe_demo_tiles now rand _) as [[] s4|e s4];
      cbn [final] in Hd |- *; rewrite Hd, Hs; reflexivity.
  - exists (lava_tiles self), (last_demo_time self), (collision_detected self),
      (collision_message self), (last_collision_time self),
      (Smoothing.next_frame (smoother self)).
    split; [|done]. cbn [final]. by destruct self.
Qed.

End ServerFrames.

(** ** The server over whole histories *)

Section ServerHistories.
Import RobustServer.
Context `{!SetOrder}.

Lemma perform_config (a : action) (self : RobustLavaServer) :
  config (perform a self) = config self
  /\ (game_active self = true -> game_active (perform a self) = true).
Proof.
  destruct a as [c|c|data|dets t ms now rand|]; cbn [perform].
  - done.
  - done.
  - destruct (handle_message_shape data self)
      as (tiles & active & detected & msg & -> & Hactive & _).
    split; [done|]. cbn [game_active set_lava_tiles set_collision
                         set_game_active].
    intros Hon. destruct Hactive; congruence.
  - destruct (tick_shape dets t ms now rand self)
      as (tiles & time & detected & msg & ctime & sm & -> & Hk & Hm & _).
    split; [|done]. unfold config.
    cbn [rows cols demo_enabled demo_interval demo_tiles_num
         collision_cooldown mapper smoother tracker set_last_demo_time
         set_lava_tiles set_collision set_smoother set_tracker set_frame_id].
    rewrite Hk, Hm.
    destruct (update_params dets (Tracker.max_disappeared (tracker self))
                (Tracker.max_distance (tracker self)) (tracker self))
      as [-> ->]; done.
  - unfold space_key. by destruct (collision_detected self).
Qed.

Lemma perform_all_config (history : list action) (self : RobustLavaServer) :
  config (perform_all history self) = config self
  /\ (game_active self = true ->
      game_active (perform_all history self) = true).
Proof.
  revert self. induction history as [|a l IH]; intros self; [done|].
  unfold perform_all in *. cbn [fold_left].
  destruct (perform_config a self) as [Hc Hg].
  destruct (IH (perform a self)) as [Hc' Hg'].
  split; [congruence|auto].
Qed.

(** X18.  Whatever happens to a server - connections, client messages,
    iterations of the loop that return or raise, key presses - the extent
    of its grid, its demo settings, its cooldown, the transform and extent
    of its mapper and the thresholds of its debouncer and tracker stay
    what they were; and nothing clears [game_active]: a server starts
    active and stays active, collisions included. *)
Theorem configuration_and_session_never_change
    (n_rows n_cols : Z) (enabled : bool) (interval : Q) (tiles_num : Z)
    (mapper0 : RobustMapping.RobustPixelToGridMapper)
    (consecutive_frames clear_frames : Z) (history : list action)
    (self : RobustLavaServer) :
  config (perform_all history self) = config self
  /\ game_active
       (perform_all history
          (init n_rows n_cols enabled interval tiles_num mapper0
             consecutive_frames clear_frames)) = true.
Proof.
  split; [apply perform_all_config|]. by apply perform_all_config.
Qed.

Lemma perform_frame_id (a : action) (self : RobustLavaServer) :
  let n := if is_tick a then 1 else 0 in
  frame_id (perform a self) = frame_id self + n
  /\ Smoothing.frame_index (smoother (perform a self))
     = Smoothing.frame_index (smoother self) + n.
Proof.
  destruct a as [c|c|data|dets t ms now rand|]; cbn [perform is_tick];
    cbv zeta; rewrite ?Z.add_0_r.
  - done.
  - done.
  - by destruct (handle_message_shape data self)
      as (tiles & active & detected & msg & -> & _).
  - destruct (tick_shape dets t ms now rand self)
      as (tiles & time & detected & msg & ctime & sm & -> & _ & _ & Hf).
    cbn [frame_id smoother set_last_demo_time set_lava_tiles set_collision
         set_smoother set_tracker set_frame_id].
    by rewrite Hf.
  - unfold space_key. by destruct (collision_detected self).
Qed.

(** X19.  [frame_id] and the frame index of the debouncer advance
    together, by one at every iteration of the loop that reads a frame,
    whether the iteration completes or raises, and by nothing else: after
    any history both have grown by the number of iterations in it. *)
Theorem frame_counters_count_ticks
    (history : list action) (self : RobustLavaServer) :
  let n := Z.of_nat (length (List.filter is_tick history)) in
  frame_id (perform_all history self) = frame_id self + n
  /\ Smoothing.frame_index (smoother (perform_all history self))
     = Smoothing.frame_index (smoother self) + n.
Proof.
  revert self. induction history as [|a l IH]; intros self.
  - cbn. by rewrite !Z.add_0_r.
  - unfold perform_all in *. cbn [fold_left List.filter]. cbv zeta.
    destruct (perform_frame_id a self) as [Hf Hs].
    destruct (IH (perform a self)) as [Hf' Hs']. cbv zeta in *.
    rewrite Hf', Hs', Hf, Hs.
    destruct (is_tick a); cbn [length]; lia.
Qed.

(** X20.  [_handle_message] never touches the clients, the tracker, the
    debouncer, the frame counter, the time of the last collision or of the
    last demo fill, whatever the message and whether it returns or raises:
    it can only replace the hazard set, set [game_active], and clear the
    collision flag and message. *)
Theorem handle_message_leaves_the_pipeline_alone
    (data : json) (self : RobustLavaServer) :
  let self' := final (_handle_message data self) in
  clients self' = clients self
  /\ tracker self' = tracker self
  /\ smoother self' = smoother self
  /\ frame_id self' = frame_id self
  /\ last_collision_time self' = last_collision_time self
  /\ last_demo_time self' = last_demo_time self
  /\ (game_active self' = true \/ game_active self' = game_active self)
  /\ (collision_detected self' = false
      \/ collision_detected self' = collision_detected self).
Proof.
  cbv zeta.
  destruct (handle_message_shape data self)
    as (tiles & active & detected & msg & -> & Hactive & Hflag).
  repeat split; done.
Qed.

End ServerHistories.

(** ** The server: the events of a tick *)

Section ServerEvents.
Import RobustServer.

(** An observation that fires is on a hazard cell of the grid, in an
    active session. *)
Lemma collision_fires_hazard (current_time : Q) (pid : Z)
    (foot_name : string) (foot : FootData) (self : RobustLavaServer) :
  collision_fires current_time pid foot_name foot self = true ->
  game_active self = true
  /\ grid foot ∈ lava_tiles self
  /\ 0 <= fst (grid foot) < rows self /\ 0 <= snd (grid foot) < cols self.
Proof.
  unfold collision_fires, is_lava_at. destruct (grid foot) as [row col].
  cbn [fst snd]. intros H.
  apply andb_true_iff in H as [H _].
  apply andb_true_iff in H as [H Hactive].
  apply andb_true_iff in H as [_ H].
  apply andb_true_iff in H as [Hin Hmem].
  apply bool_decide_eq_true in Hmem.
  apply andb_true_iff in Hin as [Hin H4].
  apply andb_true_iff in Hin as [Hin H3].
  apply andb_true_iff in Hin as [H1 H2].
  repeat split; try done; lia.
Qed.

(** The events of the test of a tick, from any state and any events
    queued so far. *)
Lemma check_persons_events (current_time : Q) (event_ms : Z)
    (persons : list PersonData) (self : RobustLavaServer)
    (events : list CollisionEvent) (e : CollisionEvent) :
  e ∈ snd (fold_left (check_person current_time event_ms) persons
             (self, events)) ->
  e ∈ events
  \/ (game_active self = true
      /\ ev_grid e ∈ lava_tiles self
      /\ (0 <= fst (ev_grid e) < rows self
          /\ 0 <= snd (ev_grid e) < cols self)
      /\ (ev_type e = "event_on_lava"%string /\ ev_timestamp e = event_ms
          /\ ev_consecutive_frames e = Smoothing.k (smoother self))
      /\ exists p, p ∈ persons /\ ev_person_id e = person_id p
           /\ ((ev_foot e = "left"%string /\ ev_grid e = grid (left_foot p))
               \/ (ev_foot e = "right"%string
                   /\ ev_grid e = grid (right_foot p)))).
Proof.
  revert self events. induction persons as [|p persons IH];
    intros self events; [by left|].
  cbn [fold_left]. unfold check_person at 2.
  pose proof (check_foot_frame current_time event_ms (person_id p) "left"
                (left_foot p) (self, events)) as Hf1.
  pose proof (check_foot_eq current_time event_ms (person_id p) "left"
                (left_foot p) self events) as He1.
  destruct (check_foot current_time event_ms (person_id p) "left"
              (left_foot p) (self, events)) as [s1 e1].
  pose proof (check_foot_frame current_time event_ms (person_id p) "right"
                (right_foot p) (s1, e1)) as Hf2.
  pose proof (check_foot_eq current_time event_ms (person_id p) "right"
                (right_foot p) s1 e1) as He2.
  destruct (check_foot current_time event_ms (person_id p) "right"
              (right_foot p) (s1, e1)) as [s2 e2].
  cbn [fst] in Hf1, Hf2. cbv zeta in He1, He2.
  destruct Hf1 as (Hr1 & Hc1 & Hl1 & Hg1 & _ & Hk1).
  destruct Hf2 as (Hr2 & Hc2 & Hl2 & Hg2 & _ & Hk2).
  intros Hin. destruct (IH s2 e2 Hin) as [Hin2|Hnew].
  - (* an event of this person, or an earlier one *)
    assert (Hright : e ∈ e1
              \/ (collision_fires current_time (person_id p) "right"
                    (right_foot p) s1 = true
                  /\ e = event_for event_ms (person_id p) "right"
                         (right_foot p) s1)).
    { destruct (collision_fires current_time (person_id p) "right"
                  (right_foot p) s1); injection He2 as _ ->; [|by left].
      apply elem_of_app in Hin2 as [?|Heq]; [by left|right].
      by apply list_elem_of_singleton in Heq. }
    assert (Hleft : e ∈ e1 ->
              e ∈ events
              \/ (collision_fires current_time (person_id p) "left"
                    (left_foot p) self = true
                  /\ e = event_for event_ms (person_id p) "left"
                         (left_foot p) self)).
    { intros He. destruct (collision_fires current_time (person_id p) "left"
                             (left_foot p) self);
        injection He1 as _ ->; [|by left].
      apply elem_of_app in He as [?|Heq]; [by left|right].
      by apply list_elem_of_singleton in Heq. }
    destruct Hright as [He|[Hfire ->]].
    + destruct (Hleft He) as [?|[Hfire ->]]; [by left|right].
      destruct (collision_fires_hazard _ _ _ _ _ Hfire) as (? & ? & ? & ?).
      cbn [event_for ev_grid ev_type ev_timestamp ev_consecutive_frames
           ev_person_id ev_foot].
      split_and!; try done; try lia.
      exists p. split; [by left|]. split; [done|by left].
    + right.
      destruct (collision_fires_hazard _ _ _ _ _ Hfire) as (? & ? & ? & ?).
      cbn [event_for ev_grid ev_type ev_timestamp ev_consecutive_frames
           ev_person_id ev_foot].
      rewrite <- Hg1, <- Hl1, <- Hr1, <- Hc1, <- Hk1.
      split_and!; try done; try lia.
      exists p. split; [by left|]. split; [done|by right].
  - right. destruct Hnew as (Hg & Hl & Hrange & (Ht & Hms & Hk) & p' & Hp' & Hid).
    rewrite Hg2, Hg1 in Hg. rewrite Hl2, Hl1 in Hl.
    rewrite Hr2, Hr1, Hc2, Hc1 in Hrange. rewrite Hk2, Hk1 in Hk.
    split_and!; try done; try lia. exists p'. split; [by right|done].
Qed.

(** X21.  Every event that [_check_lava_collisions] queues is an event
    on a hazard cell: its cell is in the hazard set and within the grid,
    the session is active, and it names a person of the snapshot and the
    cell of that person's left or right foot; it carries the time stamp
    taken for it and the threshold of the debouncer. *)
Theorem events_only_on_hazard_cells
    (current_time : Q) (event_ms : Z) (persons : list PersonData)
    (self : RobustLavaServer) (e : CollisionEvent) :
  e ∈ snd (_check_lava_collisions current_time event_ms persons self) ->
  game_active self = true
  /\ ev_grid e ∈ lava_tiles self
  /\ (0 <= fst (ev_grid e) < rows self /\ 0 <= snd (ev_grid e) < cols self)
  /\ (ev_type e = "event_on_lava"%string /\ ev_timestamp e = event_ms
      /\ ev_consecutive_frames e = Smoothing.k (smoother self))
  /\ exists p, p ∈ persons /\ ev_person_id e = person_id p
       /\ ((ev_foot e = "left"%string /\ ev_grid e = grid (left_foot p))
           \/ (ev_foot e = "right"%string /\ ev_grid e = grid (right_foot p))).
Proof.
  intros Hin. unfold _check_lava_collisions in Hin.
  destruct (check_persons_events _ _ _ _ _ _ Hin) as [Hnil|?]; [|done].
  by apply elem_of_nil in Hnil.
Qed.

(** The event of the first person on the lava cell. *)
Lemma events_only_on_hazard_cells_witness :
  exists e,
    e ∈ snd (_check_lava_collisions 10 10000 [person_on 1 (0, 0)] lava_server)
    /\ ev_grid e ∈ lava_tiles lava_server.
Proof.
  exists (event_for 10000 1 "left" (left_foot (person_on 1 (0, 0)))
            lava_server).
  assert (Hin : event_for 10000 1 "left" (left_foot (person_on 1 (0, 0)))
                  lava_server
                ∈ snd (_check_lava_collisions 10 10000 [person_on 1 (0, 0)]
                         lava_server)).
  { vm_compute. apply list_elem_of_here. }
  split; [exact Hin|].
  by destruct (events_only_on_hazard_cells _ _ _ _ _ Hin) as (_ & ? & _).
Defined.

(** One observation queues at most one event, and an event sets the
    time of the last collision to the clock reading of the call. *)
Lemma check_foot_one (current_time : Q) (event_ms pid : Z)
    (foot_name : string) (foot : FootData) (self : RobustLavaServer)
    (events : list CollisionEvent) :
  let r := check_foot current_time event_ms pid foot_name foot (self, events) in
  collision_cooldown (fst r) = collision_cooldown self
  /\ (snd r = events
      \/ (exists e, snd r = events ++ [e])
         /\ last_collision_time (fst r) = current_time).
Proof.
  cbv zeta. rewrite check_foot_eq.
  destruct (collision_fires _ _ _ _ _); cbn [fst snd].
  - split; [done|]. right. split; [by eexists|done].
  - split; [done|by left].
Qed.

Lemma cooling_after_event (current_time : Q) (self : RobustLavaServer) :
  last_collision_time self = current_time ->
  (0 <= collision_cooldown self)%Q ->
  Qltb (collision_cooldown self) (current_time - last_collision_time self)
  = false.
Proof.
  intros -> Hcool. apply Qltb_false. lra.
Qed.

(** X22.  With a cooldown that is not negative, one call of
    [_check_lava_collisions] queues at most one event, however many
    persons step on hazard cells in the tick: the first event starts the
    cooldown, which lasts beyond the clock reading of the call. *)
Theorem at_most_one_event_per_tick
    (current_time : Q) (event_ms : Z) (persons : list PersonData)
    (self : RobustLavaServer) :
  (0 <= collision_cooldown self)%Q ->
  (length (snd (_check_lava_collisions current_time event_ms persons self))
   <= 1)%nat.
Proof.
  intros Hcool. unfold _check_lava_collisions.
  assert (Hgen : forall (s : RobustLavaServer) (events : list CollisionEvent),
            (0 <= collision_cooldown s)%Q ->
            (length (snd (fold_left (check_person current_time event_ms)
                            persons (s, events)))
             <= length events + 1)%nat).
  { clear self Hcool. induction persons as [|p persons IH];
      intros s events Hcool; [cbn; lia|].
    cbn [fold_left]. unfold check_person at 2.
    pose proof (check_foot_one current_time event_ms (person_id p) "left"
                  (left_foot p) s events) as H1.
    destruct (check_foot current_time event_ms (person_id p) "left"
                (left_foot p) (s, events)) as [s1 e1].
    cbv zeta in H1. cbn [fst snd] in H1. destruct H1 as [Hc1 H1].
    assert (Hcool1 : (0 <= collision_cooldown s1)%Q) by (by rewrite Hc1).
    destruct H1 as [->|[[e ->] Ht1]].
    - pose proof (check_foot_one current_time event_ms (person_id p) "right"
                    (right_foot p) s1 events) as H2.
      destruct (check_foot current_time event_ms (person_id p) "right"
                  (right_foot p) (s1, events)) as [s2 e2].
      cbv zeta in H2. cbn [fst snd] in H2. destruct H2 as [Hc2 H2].
      assert (Hcool2 : (0 <= collision_cooldown s2)%Q) by (by rewrite Hc2).
      destruct H2 as [->|[[e ->] Ht2]]; [by apply IH|].
      rewrite check_persons_cooling by (by apply cooling_after_event).
      rewrite length_app. cbn [length]. lia.
    - pose proof (cooling_after_event current_time s1 Ht1 Hcool1) as Hcooling.
      destruct (check_foot_cooling current_time event_ms (person_id p)
                  "right" (right_foot p) s1 (events ++ [e]) Hcooling)
        as (He2 & Hl2 & Hc2).
      destruct (check_foot current_time event_ms (person_id p) "right"
                  (right_foot p) (s1, events ++ [e])) as [s2 e2].
      cbn [fst snd] in He2, Hl2, Hc2. subst e2.
      rewrite check_persons_cooling by (by rewrite Hl2, Hc2).
      rewrite length_app. cbn [length]. lia. }
  specialize (Hgen self [] Hcool). cbn [length] in Hgen. lia.
Qed.

(** Two persons on the lava cell in the same tick. *)
Lemma at_most_one_event_per_tick_witness :
  (length (snd (_check_lava_collisions 10 10000
                  [person_on 1 (0, 0)%Z; person_on 2 (0, 0)%Z] lava_server))
   <= 1)%nat.
Proof.
  apply at_most_one_event_per_tick. vm_compute. discriminate.
Defined.

(** X23.  A restart re-arms nothing: after a [restart_game] command, or
    the space key, the session is active and the collision flag is off,
    but a foot whose debouncer entry is still flagged queues no event,
    whatever cell it is observed on, until the entry has been cleared. *)
Theorem restart_does_not_rearm_flagged_foot
    (self : RobustLavaServer) (pid : Z) (foot_name : string)
    (foot : FootData) (s : Smoothing.FootState) (current_time : Q)
    (event_ms : Z) (events : list CollisionEvent) :
  Smoothing.state (smoother self) !! (pid, foot_name) = Some s ->
  Smoothing.is_on_lava s = true ->
  let restarted := final (_handle_message restart_game self) in
  restarted = set_collision false "" (last_collision_time self)
                (set_game_active true self)
  /\ (collision_detected self = true -> space_key self = restarted)
  /\ snd (check_foot current_time event_ms pid foot_name foot
            (restarted, events)) = events.
Proof.
  intros Hs Hon. cbv zeta.
  assert (Heq : final (_handle_message restart_game self)
                = set_collision false "" (last_collision_time self)
                    (set_game_active true self)) by reflexivity.
  rewrite Heq. split; [done|]. split.
  - intros Hdet. unfold space_key. by rewrite Hdet.
  - rewrite check_foot_eq.
    assert (Hfire : collision_fires current_time pid foot_name foot
                      (set_collision false "" (last_collision_time self)
                         (set_game_active true self)) = false).
    { unfold collision_fires.
      cbn [smoother set_collision set_game_active].
      destruct (observe_core (smoother self) pid foot_name
                  (fst (grid foot)) (snd (grid foot))
                  (is_lava_at
                     (set_collision false "" (last_collision_time self)
                        (set_game_active true self)) (grid foot)))
        as (_ & _ & _ & -> & _).
      unfold Smoothing.entry. rewrite Hs, Hon. cbn [negb].
      by rewrite andb_false_r. }
    by rewrite Hfire.
Qed.

(** The left foot of person 1 has fired at time 10 and is still on the
    lava cell at time 20, after a restart. *)
Lemma restart_does_not_rearm_flagged_foot_witness :
  snd (check_foot 20 20000 1 "left" (left_foot (person_on 1 (0, 0)))
         (final (_handle_message restart_game
                   (fst (_check_lava_collisions 10 10000 [person_on 1 (0, 0)]
                           lava_server))), []))
  = [].
Proof.
  destruct (Smoothing.state
              (smoother (fst (_check_lava_collisions 10 10000
                                [person_on 1 (0, 0)] lava_server)))
            !! (1, "left"%string)) as [s|] eqn:Hs;
    [|vm_compute in Hs; discriminate].
  assert (Hon : Smoothing.is_on_lava s = true).
  { vm_compute in Hs. by injection Hs as <-. }
  by destruct (restart_does_not_rearm_flagged_foot _ 1 "left"
                 (left_foot (person_on 1 (0, 0))) s 20 20000 [] Hs Hon)
    as (_ & _ & ?).
Defined.

(** The events queued so far do not bear on what an observation does. *)
Lemma check_foot_acc (current_time : Q) (event_ms pid : Z)
    (foot_name : string) (foot : FootData) (self : RobustLavaServer)
    (events : list CollisionEvent) :
  let r := check_foot current_time event_ms pid foot_name foot (self, []) in
  check_foot current_time event_ms pid foot_name foot (self, events)
  = (fst r, events ++ snd r).
Proof.
  cbv zeta. rewrite !check_foot_eq.
  destruct (collision_fires _ _ _ _ _); cbn [fst snd]; [done|].
  by rewrite app_nil_r.
Qed.

Lemma check_person_acc (current_time : Q) (event_ms : Z) (p : PersonData)
    (self : RobustLavaServer) (events : list CollisionEvent) :
  let l := check_foot current_time event_ms (person_id p) "left"
             (left_foot p) (self, []) in
  let r := check_foot current_time event_ms (person_id p) "right"
             (right_foot p) (fst l, []) in
  check_person current_time event_ms (self, events) p
  = (fst r, events ++ snd l ++ snd r).
Proof.
  cbv zeta. unfold check_person.
  rewrite (check_foot_acc current_time event_ms (person_id p) "left"
             (left_foot p) self events). cbv zeta.
  rewrite (check_foot_acc current_time event_ms (person_id p) "right"
             (right_foot p)). cbv zeta.
  by rewrite app_assoc.
Qed.

Lemma check_persons_acc (current_time : Q) (event_ms : Z)
    (persons : list PersonData) (self : RobustLavaServer)
    (events : list CollisionEvent) :
  fold_left (check_person current_time event_ms) persons (self, events)
  = (fst (_check_lava_collisions current_time event_ms persons self),
     events ++ snd (_check_lava_collisions current_time event_ms persons self)).
Proof.
  unfold _check_lava_collisions. revert self events.
  induction persons as [|p persons IH]; intros self events.
  - cbn [fold_left fst snd]. by rewrite app_nil_r.
  - cbn [fold_left].
    pose proof (check_person_acc current_time event_ms p self events) as H1.
    pose proof (check_person_acc current_time event_ms p self []) as H2.
    cbv zeta in H1, H2. rewrite H1, H2, app_nil_l.
    rewrite (IH _ (events ++ _)), (IH _ (_ ++ _)). cbn [fst snd].
    f_equal. by rewrite <- !app_assoc.
Qed.

(** The loop over the persons, split at one of them. *)
Lemma check_lava_collisions_split (current_time : Q) (event_ms : Z)
    (pre post : list PersonData) (p : PersonData) (self : RobustLavaServer) :
  let before := _check_lava_collisions current_time event_ms pre self in
  let l := check_foot current_time event_ms (person_id p) "left"
             (left_foot p) (fst before, []) in
  let r := check_foot current_time event_ms (person_id p) "right"
             (right_foot p) (fst l, []) in
  let after := _check_lava_collisions current_time event_ms post (fst r) in
  _check_lava_collisions current_time event_ms (pre ++ p :: post) self
  = (fst after, snd before ++ snd l ++ snd r ++ snd after).
Proof.
  cbv zeta. unfold _check_lava_collisions at 1.
  rewrite fold_left_app. cbn [fold_left].
  fold (_check_lava_collisions current_time event_ms pre self).
  destruct (_check_lava_collisions current_time event_ms pre self)
    as [s0 ev0]. cbn [fst snd].
  pose proof (check_person_acc current_time event_ms p s0 ev0) as H1.
  cbv zeta in H1. rewrite H1, check_persons_acc. f_equal.
  by rewrite <- !app_assoc.
Qed.

(** Once the loop has queued an event, the time of the last event is the
    clock reading of the call. *)
Lemma check_persons_time (current_time : Q) (event_ms : Z)
    (persons : list PersonData) (self : RobustLavaServer) :
  let r := _check_lava_collisions current_time event_ms persons self in
  collision_cooldown (fst r) = collision_cooldown self
  /\ (snd r = [] \/ last_collision_time (fst r) = current_time).
Proof.
  cbv zeta. induction persons as [|p persons IH] using rev_ind.
  - split; [done|by left].
  - destruct IH as [Hc Ht].
    pose proof (check_lava_collisions_split current_time event_ms persons []
                  p self) as Hsplit.
    cbv zeta in Hsplit. rewrite Hsplit. clear Hsplit. cbn [fst snd].
    set (s0 := fst (_check_lava_collisions current_time event_ms persons self))
      in *.
    destruct (check_foot_iff current_time event_ms (person_id p) "left"
                (left_foot p) s0 []) as (He1 & _ & Hc1 & Hf1).
    set (l := check_foot current_time event_ms (person_id p) "left"
                (left_foot p) (s0, [])) in *.
    destruct (check_foot_iff current_time event_ms (person_id p) "right"
                (right_foot p) (fst l) []) as (He2 & _ & Hc2 & Hf2).
    set (r := check_foot current_time event_ms (person_id p) "right"
                (right_foot p) (fst l, [])) in *.
    change (_check_lava_collisions current_time event_ms [] (fst r))
      with (fst r, @nil CollisionEvent).
    cbn [fst snd]. split; [congruence|].
    rewrite He1, He2, !app_nil_l, !app_nil_r.
    destruct (collision_fires current_time (person_id p) "right"
                (right_foot p) (fst l)).
    { right. by destruct Hf2 as (_ & _ & ?). }
    destruct Hf2 as (_ & _ & ->).
    destruct (collision_fires current_time (person_id p) "left"
                (left_foot p) s0).
    { right. by destruct Hf1 as (_ & _ & ?). }
    destruct Hf1 as (_ & _ & ->).
    rewrite !app_nil_r. destruct Ht as [->|Ht]; [by left|by right].
Qed.

(** C5.  The events that [_check_lava_collisions] returns are, person by
    person and foot by foot, the events of the observations that fire: for
    any person of the tick, the left foot contributes its event exactly
    when, in the state the loop has reached, the debouncer triggers, the
    cell is a hazard, the session is active and more than the cooldown
    has elapsed since the last event, and so does the right foot after it;
    nothing else is queued.  An observation that fires sets the collision
    flag, the message and the time of the last event, one that does not
    leaves them; every event carries the threshold of the debouncer; the
    session stays active.  The cooldown is one clock for all persons:
    nothing is queued while it has not elapsed, and with a cooldown that
    is not negative no foot fires once an earlier person of the tick has
    queued an event. *)
Theorem collision_event_iff
    (current_time : Q) (event_ms : Z) (pre post : list PersonData)
    (p : PersonData) (self : RobustLavaServer) :
  let r :=
    _check_lava_collisions current_time event_ms (pre ++ p :: post) self in
  let before := _check_lava_collisions current_time event_ms pre self in
  let s0 := fst before in
  let s1 := fst (check_foot current_time event_ms (person_id p) "left"
                   (left_foot p) (s0, [])) in
  let s2 := fst (check_foot current_time event_ms (person_id p) "right"
                   (right_foot p) (s1, [])) in
  let after := _check_lava_collisions current_time event_ms post s2 in
  let fires_left :=
    collision_fires current_time (person_id p) "left" (left_foot p) s0 in
  let fires_right :=
    collision_fires current_time (person_id p) "right" (right_foot p) s1 in
  snd r
  = snd before
    ++ (if fires_left
        then [event_for event_ms (person_id p) "left" (left_foot p) s0]
        else [])
    ++ (if fires_right
        then [event_for event_ms (person_id p) "right" (right_foot p) s1]
        else [])
    ++ snd after
  /\ fst r = fst after
  /\ (if fires_left
      then collision_detected s1 = true
           /\ collision_message s1
              = message (person_id p) (fst (grid (left_foot p)))
                  (snd (grid (left_foot p)))
           /\ last_collision_time s1 = current_time
      else collision_detected s1 = collision_detected s0
           /\ collision_message s1 = collision_message s0
           /\ last_collision_time s1 = last_collision_time s0)
  /\ (if fires_right
      then collision_detected s2 = true
           /\ collision_message s2
              = message (person_id p) (fst (grid (right_foot p)))
                  (snd (grid (right_foot p)))
           /\ last_collision_time s2 = current_time
      else collision_detected s2 = collision_detected s1
           /\ collision_message s2 = collision_message s1
           /\ last_collision_time s2 = last_collision_time s1)
  /\ (forall e, e ∈ snd r ->
        ev_consecutive_frames e = Smoothing.k (smoother self))
  /\ game_active (fst r) = game_active self
  /\ (Qltb (collision_cooldown self) (current_time - last_collision_time self)
      = false -> snd r = [])
  /\ ((0 <= collision_cooldown self)%Q -> snd before <> [] ->
      fires_left = false /\ fires_right = false).
Proof.
  cbv zeta.
  pose proof (check_lava_collisions_split current_time event_ms pre post p
                self) as Hsplit.
  cbv zeta in Hsplit.
  set (s0 := fst (_check_lava_collisions current_time event_ms pre self))
    in *.
  destruct (check_foot_iff current_time event_ms (person_id p) "left"
              (left_foot p) s0 []) as (He1 & _ & Hc1 & Hf1).
  set (l := check_foot current_time event_ms (person_id p) "left"
              (left_foot p) (s0, [])) in *.
  destruct (check_foot_iff current_time event_ms (person_id p) "right"
              (right_foot p) (fst l) []) as (He2 & _ & Hc2 & Hf2).
  set (r := check_foot current_time event_ms (person_id p) "right"
              (right_foot p) (fst l, [])) in *.
  cbn [app] in He1, He2.
  split; [by rewrite Hsplit, He1, He2|].
  split; [by rewrite Hsplit|]. split; [exact Hf1|]. split; [exact Hf2|].
  clear Hsplit. split; [|split; [|split]].
  - intros e He.
    destruct (check_persons_events current_time event_ms (pre ++ p :: post)
                self [] e He) as [Hnil|(_ & _ & _ & (_ & _ & Hk) & _)];
      [by apply elem_of_nil in Hnil|done].
  - unfold _check_lava_collisions.
    by destruct (check_persons_frame current_time event_ms
                   (pre ++ p :: post) (self, [])) as (_ & _ & _ & ? & _).
  - intros Hcool. unfold _check_lava_collisions.
    by apply check_persons_cooling.
  - intros Hpos Hne.
    destruct (check_persons_time current_time event_ms pre self)
      as [Hc0 [Hnil|Ht0]]; [done|].
    fold s0 in Hc0, Ht0.
    assert (Hl : collision_fires current_time (person_id p) "left"
                   (left_foot p) s0 = false).
    { unfold collision_fires.
      rewrite (cooling_after_event current_time s0 Ht0)
        by (by rewrite Hc0).
      apply andb_false_r. }
    split; [exact Hl|]. rewrite Hl in Hf1. destruct Hf1 as (_ & _ & Ht1).
    unfold collision_fires.
    rewrite (cooling_after_event current_time (fst l))
      by (congruence || (rewrite Hc1, Hc0; done)).
    apply andb_false_r.
Qed.

(** Two persons on the lava cell in the same tick, at time 10: the left
    foot of the first one queues the event, no foot of the second one
    does. *)
Lemma collision_event_iff_witness :
  map ev_person_id
    (snd (_check_lava_collisions 10 10000
            ([person_on 1 (0, 0)] ++ person_on 2 (0, 0) :: []) lava_server))
  = [1].
Proof.
  destruct (collision_event_iff 10 10000 [person_on 1 (0, 0)] []
              (person_on 2 (0, 0)) lava_server) as (Hev & _).
  cbv zeta in Hev. rewrite Hev. vm_compute. reflexivity.
Defined.

End ServerEvents.

(** ** The server: messages, connections and the demo fill *)

Section ServerMessages.
Import RobustServer.

(** An item that is not a two-element list is skipped. *)
Lemma add_tile_skip (t : json) (acc : gset (Z * Z)) (self : RobustLavaServer) :
  (forall t0 t1, t <> JList [t0; t1]) -> add_tile t acc self = Ok acc self.
Proof.
  intros Hno. unfold add_tile.
  destruct t as [| | | | |l|]; try done.
  destruct l as [|t0 [|t1 [|]]]; try done. by destruct (Hno t0 t1).
Qed.

Lemma fold_add_tile_skip (items : list json) (acc : gset (Z * Z))
    (self : RobustLavaServer) :
  Forall (fun t => forall t0 t1, t <> JList [t0; t1]) items ->
  fold_each items add_tile acc self = Ok acc self.
Proof.
  induction 1 as [|t items Ht _ IH]; [done|].
  cbn [fold_each]. unfold bind. by rewrite add_tile_skip.
Qed.

(** X24.  A [tile_update] command without pairs.  When [lava_tiles] is
    missing, or is a string or an object, or is a list none of whose items
    is a two-element list, the command empties the hazard set.  When it is
    [null], a boolean or a number, iterating it raises [TypeError] and the
    hazard set stays. *)
Theorem tile_update_without_pairs
    (d : list (string * json)) (self : RobustLavaServer) :
  json_is_str (json_get "type" d) "tile_update" = true ->
  match json_get "lava_tiles" d with
  | None | Some (JStr _) | Some (JDict _) =>
      _handle_message (JDict d) self = Ok tt (set_lava_tiles ∅ self)
  | Some (JList items) =>
      Forall (fun t => forall t0 t1, t <> JList [t0; t1]) items ->
      _handle_message (JDict d) self = Ok tt (set_lava_tiles ∅ self)
  | Some JNull | Some (JBool _) | Some (JInt _) | Some (JFloat _) =>
      _handle_message (JDict d) self = Raise TypeError self
  end.
Proof.
  intros Htype. unfold _handle_message. rewrite Htype.
  assert (Hstr : forall (l : list string),
            fold_each (map JStr l) add_tile ∅ self = Ok ∅ self).
  { intros l. apply fold_add_tile_skip. apply Forall_forall.
    intros t Ht t0 t1 ->. apply list_elem_of_In, in_map_iff in Ht.
    by destruct Ht as (? & ? & _). }
  destruct (json_get "lava_tiles" d) as [[| | | |txt|items|d']|];
    cbn [default from_option id]; unfold bind; cbn [py_iter ret raise];
    try done.
  - rewrite <- (map_map (fun c => String c EmptyString) JStr).
    by rewrite Hstr.
  - intros Hitems. by rewrite fold_add_tile_skip.
  - rewrite <- (map_map fst JStr). by rewrite Hstr.
Qed.

Lemma for_each_app {S A : Type} (l1 l2 : list A) (body : A -> M S unit)
    (s : S) :
  for_each (l1 ++ l2) body s
  = match for_each l1 body s with
    | Ok _ s' => for_each l2 body s'
    | Raise e s' => Raise e s'
    end.
Proof.
  revert s. induction l1 as [|x l1 IH]; intros s; [done|].
  cbn [app for_each]. unfold bind. destruct (body x s); [apply IH|done].
Qed.

Lemma handle_text_clients (messages : list (option json))
    (self : RobustLavaServer) :
  clients (final (for_each messages handle_text self)) = clients self.
Proof.
  pose proof (preserves_for_each (fun s => clients s = clients self)
                messages handle_text) as Hp.
  apply Hp; [|done]. intros [data|] s Hs; [|done]. cbn [handle_text].
  by destruct (handle_message_shape data s)
    as (tiles & active & detected & msg & -> & _).
Qed.

(** X25.  A connection handler ends with its connection discarded,
    whether the connection closed or [_handle_message] raised, and with
    the other clients as they were.  Once [_handle_message] has raised, no
    further text of the connection is handled; a text that is not valid
    JSON is skipped.  A [tile_update] with an unconvertible pair is a
    message that ends the connection in this way. *)
Theorem handler_discards_its_connection
    (websocket : nat) (messages : list (option json))
    (self : RobustLavaServer) :
  clients (final (handler websocket messages self))
  = clients self ∖ {[ websocket ]}
  /\ (forall post,
        is_ok (handler websocket messages self) = false ->
        handler websocket (messages ++ post) self
        = handler websocket messages self)
  /\ (forall pre post,
        messages = pre ++ None :: post ->
        handler websocket messages self = handler websocket (pre ++ post) self)
  /\ is_ok (handler websocket
              [Some (tile_update [JList [JNull; JInt 1]])] self) = false.
Proof.
  split; [|split; [|split]].
  - unfold handler.
    pose proof (handle_text_clients messages
                  (set_clients (clients self ∪ {[ websocket ]}) self)) as Hc.
    destruct (for_each messages handle_text _) as [[] s|e s];
      cbn [final clients set_clients] in Hc |- *; rewrite Hc;
      apply set_eq; intros x;
      rewrite !elem_of_difference, elem_of_union; tauto.
  - intros post. unfold handler. rewrite for_each_app.
    by destruct (for_each messages handle_text _).
  - intros pre post ->. unfold handler. rewrite !for_each_app.
    destruct (for_each pre handle_text _) as [[] s|e s]; [|done].
    cbn [for_each handle_text]. unfold bind. done.
  - unfold handler. cbn [for_each handle_text]. unfold bind.
    assert (Hraise : forall s : RobustLavaServer,
              _handle_message (tile_update [JList [JNull; JInt 1]]) s
              = Raise TypeError s) by (by intros s).
    by rewrite Hraise.
Qed.

Lemma for_each_demo_raise (rand : nat -> Z) (l : list nat)
    (self self' : RobustLavaServer) (e : exn) :
  for_each l (demo_tile rand) self = Raise e self' -> e = ValueError.
Proof.
  revert self. induction l as [|i l IH]; intros self; [done|].
  cbn [for_each]. unfold bind at 1.
  destruct (demo_tile rand i self) as [[] s1|e1 s1] eqn:E; [apply IH|].
  intros [= <- <-]. revert E.
  unfold demo_tile, bind, gets, randrange, modify.
  destruct (rows self <=? 0); [by intros [= <- _]|]. cbn [ret].
  destruct (cols self <=? 0); [by intros [= <- _]|done].
Qed.

(** The demo fill raises nothing but the [ValueError] of an empty
    range. *)
Lemma maybe_demo_tiles_raise (now : Q) (rand : nat -> Z)
    (self self' : RobustLavaServer) (e : exn) :
  _maybe_demo_tiles now rand self = Raise e self' -> e = ValueError.
Proof.
  unfold _maybe_demo_tiles. destruct (negb (demo_enabled self)); [done|].
  destruct (demo_due now self); [|done].
  unfold bind, modify.
  destruct (for_each _ (demo_tile rand) _) as [[] s1|e1 s1] eqn:E; [done|].
  intros [= <- _]. by apply for_each_demo_raise in E.
Qed.

(** X26.  On a grid without rows or without columns, a demo fill that
    is due and has at least one tile to draw raises [ValueError], from
    [random.randrange] on an empty range, and leaves the server as it
    was: the time of the last fill is not recorded, so the fill is due
    again at the next iteration. *)
Theorem demo_fill_on_empty_grid_raises
    (now : Q) (rand : nat -> Z) (self : RobustLavaServer) :
  demo_enabled self = true -> demo_due now self = true ->
  1 <= demo_tiles_num self -> rows self <= 0 \/ cols self <= 0 ->
  _maybe_demo_tiles now rand self = Raise ValueError self
  /\ demo_due now (final (_maybe_demo_tiles now rand self)) = true.
Proof.
  intros Hen Hdue Hnum Hgrid.
  assert (Heq : _maybe_demo_tiles now rand self = Raise ValueError self).
  { unfold _maybe_demo_tiles. rewrite Hen, Hdue. cbn [negb].
    assert (Hempty : lava_tiles self = ∅).
    { unfold demo_due in Hdue. apply andb_true_iff in Hdue as [_ Hdue].
      by apply bool_decide_eq_true in Hdue. }
    destruct (Z.to_nat (demo_tiles_num self)) as [|k] eqn:Ek; [lia|].
    unfold bind, modify. cbn [seq for_each]. unfold bind.
    assert (Htile : demo_tile rand 0 (set_lava_tiles ∅ self)
                    = Raise ValueError (set_lava_tiles ∅ self)).
    { unfold demo_tile, bind, gets, randrange, modify, raise, ret.
      cbn [rows cols set_lava_tiles].
      destruct (rows self <=? 0) eqn:Er; [done|].
      cbn [cols set_lava_tiles].
      destruct (cols self <=? 0) eqn:Ec; [done|].
      apply Z.leb_gt in Er, Ec. lia. }
    rewrite Htile. by rewrite <- Hempty, set_lava_tiles_id. }
  rewrite Heq. split; [done|exact Hdue].
Qed.

End ServerMessages.

Section ServerMessagesExamples.
Import RobustServer.
Local Existing Instance ascending_order.

(** The command with no [lava_tiles] at all. *)
Lemma tile_update_without_pairs_witness :
  _handle_message (JDict [("type"%string, JStr "tile_update")]) lava_server
  = Ok tt (set_lava_tiles ∅ lava_server).
Proof.
  exact (tile_update_without_pairs [("type"%string, JStr "tile_update")]
           lava_server eq_refl).
Defined.

(** A demo server configured with no rows, with a client connected. *)
Lemma demo_fill_on_empty_grid_raises_witness :
  let self :=
    perform_all [Connect 0%nat]
      (init 0 8 true 2 6 (robust_identity_mapper 8 8) 3 2) in
  _maybe_demo_tiles 10 (fun _ => 0) self = Raise ValueError self.
Proof.
  cbv zeta.
  destruct (demo_fill_on_empty_grid_raises 10 (fun _ => 0)
              (perform_all [Connect 0%nat]
                 (init 0 8 true 2 6 (robust_identity_mapper 8 8) 3 2)))
    as [Heq _].
  - reflexivity.
  - vm_compute. reflexivity.
  - cbn. lia.
  - left. cbn. lia.
  - exact Heq.
Defined.

End ServerMessagesExamples.

(** ** The server: the persons of a snapshot *)

Section ServerPersons.
Import RobustServer.
Context `{!SetOrder}.

(** [update] returns [self.objects] itself. *)
Lemma update_returns_objects (detections : list Tracker.Detection)
    (s s' : Tracker.MultiPersonTracker) (o : dict Tracker.Track) :
  Tracker.update detections s = Ok o s' -> o = Tracker.objects s'.
Proof.
  unfold Tracker.update. destruct (length detections =? 0)%nat.
  - unfold bind, gets. destruct (for_each _ _ _); [|done].
    by intros [= <- <-].
  - unfold bind at 1, gets at 1. cbv beta. unfold bind at 1.
    match goal with |- context [match ?c with _ => _ end] => destruct c end;
      [|done].
    unfold gets. by intros [= <- <-].
Qed.

Lemma person_data_mapper (s s' : RobustLavaServer)
    (item : Z * Tracker.Track) :
  mapper s = mapper s' -> person_data s item = person_data s' item.
Proof.
  intros Hm. unfold person_data, foot_data. destruct item as [pid track].
  by rewrite Hm.
Qed.

Lemma person_data_id (s : RobustLavaServer)
    (tracks : dict Tracker.Track) :
  map person_id (map (person_data s) tracks) = dict_keys tracks.
Proof.
  unfold dict_keys. rewrite map_map. apply map_ext. by intros [pid track].
Qed.

(** Every foot is reported on a cell of the mapper's grid. *)
Lemma foot_data_in_grid (self : RobustLavaServer) (limb : Tracker.Limb) :
  1 <= RobustMapping.rows (mapper self) ->
  1 <= RobustMapping.cols (mapper self) ->
  0 <= fst (grid (foot_data self limb)) < RobustMapping.rows (mapper self)
  /\ 0 <= snd (grid (foot_data self limb)) < RobustMapping.cols (mapper self).
Proof.
  intros Hr Hc. unfold foot_data, RobustMapping.pixel_to_grid_cell.
  destruct (RobustMapping.pixel_to_grid_float _ _ _) as [row_f col_f].
  cbn [grid fst snd]. unfold clip. lia.
Qed.

Lemma perform_tracker_inv (a : action) (self : RobustLavaServer) :
  Tracker.wf (tracker self) /\ Tracker.counters_bounded (tracker self)
  /\ Tracker.ascending (Tracker.ids (tracker self)) ->
  Tracker.wf (tracker (perform a self))
  /\ Tracker.counters_bounded (tracker (perform a self))
  /\ Tracker.ascending (Tracker.ids (tracker (perform a self))).
Proof.
  intros Hinv. destruct a as [c|c|data|dets t ms now rand|]; cbn [perform].
  - done.
  - done.
  - by destruct (handle_message_shape data self)
      as (tiles & active & detected & msg & -> & _).
  - destruct (tick_shape dets t ms now rand self)
      as (tiles & time & detected & msg & ctime & sm & -> & _).
    cbn [tracker set_last_demo_time set_lava_tiles set_collision
         set_smoother set_tracker].
    by apply update_inv.
  - unfold space_key. by destruct (collision_detected self).
Qed.

Lemma perform_all_tracker_inv (history : list action)
    (self : RobustLavaServer) :
  Tracker.wf (tracker self) /\ Tracker.counters_bounded (tracker self)
  /\ Tracker.ascending (Tracker.ids (tracker self)) ->
  Tracker.wf (tracker (perform_all history self))
  /\ Tracker.counters_bounded (tracker (perform_all history self))
  /\ Tracker.ascending (Tracker.ids (tracker (perform_all history self))).
Proof.
  revert self. induction history as [|a l IH]; intros self Hinv; [done|].
  unfold perform_all in *. cbn [fold_left]. apply IH.
  by apply perform_tracker_inv.
Qed.

Lemma perform_all_tracker_inv_run :
  Tracker.wf
    (tracker (set_tracker (Tracker.run [two_persons] (Tracker.init 30 50))
                lava_server)).
Proof.
  cbn [tracker set_tracker].
  by destruct (run_inv [two_persons] (Tracker.init 30 50)
                 (init_inv 30 50)) as [? _].
Qed.

(** X27.  After any history of a server, the persons of the snapshot
    that an iteration of the loop returns are the live tracks of the
    tracker after its update, one person per track in the order of the
    dictionary: their identities are distinct and ascending, and each foot
    is reported on a cell of the mapper's grid. *)
Theorem snapshot_lists_live_tracks
    (n_rows n_cols : Z) (enabled : bool) (interval : Q) (tiles_num : Z)
    (mapper0 : RobustMapping.RobustPixelToGridMapper)
    (consecutive_frames clear_frames : Z) (history : list action)
    (dets : list Tracker.Detection) (current_time : Q) (event_ms : Z)
    (now : Q) (rand : nat -> Z) (persons : list PersonData)
    (events : list CollisionEvent) (self' : RobustLavaServer) :
  let self :=
    perform_all history
      (init n_rows n_cols enabled interval tiles_num mapper0
         consecutive_frames clear_frames) in
  tick dets current_time event_ms now rand self = Ok (persons, events) self' ->
  persons = map (person_data self') (Tracker.objects (tracker self'))
  /\ map person_id persons = Tracker.ids (tracker self')
  /\ NoDup (map person_id persons)
  /\ Tracker.ascending (map person_id persons)
  /\ (1 <= RobustMapping.rows mapper0 -> 1 <= RobustMapping.cols mapper0 ->
      forall p foot, p ∈ persons ->
        foot = left_foot p \/ foot = right_foot p ->
        0 <= fst (grid foot) < RobustMapping.rows mapper0
        /\ 0 <= snd (grid foot) < RobustMapping.cols mapper0).
Proof.
  intros self Htick.
  assert (Hinv : Tracker.wf (tracker self)
                 /\ Tracker.counters_bounded (tracker self)
                 /\ Tracker.ascending (Tracker.ids (tracker self))).
  { apply perform_all_tracker_inv. apply init_inv. }
  pose proof (update_inv dets (tracker self) Hinv) as (Hwf' & _ & Hasc').
  destruct (perform_all_config history
              (init n_rows n_cols enabled interval tiles_num mapper0
                 consecutive_frames clear_frames)) as [Hcfg _].
  fold self in Hcfg.
  assert (Hmr : RobustMapping.rows (mapper self) = RobustMapping.rows mapper0)
    by (by injection Hcfg).
  assert (Hmc : RobustMapping.cols (mapper self) = RobustMapping.cols mapper0)
    by (by injection Hcfg).
  pose proof (tick_shape dets current_time event_ms now rand self)
    as (tiles & time & detected & msg & ctime & sm & Hshape & _).
  rewrite Htick in Hshape. cbn [final] in Hshape.
  rewrite tick_steps in Htick. cbv zeta in Htick.
  destruct (Tracker.update dets (tracker self)) as [tracks t'|e t'] eqn:Hu;
    [|done].
  apply update_returns_objects in Hu as Htracks. cbn [final] in *.
  destruct (_maybe_demo_tiles now rand _) as [[] s4|e s4]; [|done].
  injection Htick as <- _ _.
  assert (Ht : tracker self' = t') by (by rewrite Hshape).
  assert (Hm : mapper self' = mapper self) by (by rewrite Hshape).
  rewrite Ht, <- Htracks.
  split; [|split; [|split; [|split]]].
  - apply map_ext. intros item. by apply person_data_mapper.
  - rewrite person_data_id. by rewrite Htracks.
  - rewrite person_data_id, Htracks. by destruct Hwf' as (_ & ? & _).
  - rewrite person_data_id, Htracks. exact Hasc'.
  - intros Hr Hc p foot Hp Hfoot.
    apply list_elem_of_In, in_map_iff in Hp as ([pid track] & <- & _).
    rewrite <- Hmr, <- Hmc.
    destruct Hfoot as [-> | ->]; cbn [person_data left_foot right_foot];
      apply (foot_data_in_grid
               (set_tracker t'
                  (set_smoother (Smoothing.next_frame (smoother self))
                     (set_frame_id (frame_id self + 1) self))));
      cbn [mapper set_tracker set_smoother set_frame_id]; lia.
Qed.

(** The aging loop of [update] when no counter is at its bound: every
    track stays, every counter goes up by one. *)
Lemma age_all_kept (l : list Z) (s : Tracker.MultiPersonTracker) :
  Tracker.wf s -> NoDup l ->
  (forall k, k ∈ l ->
     exists n, dict_get k (Tracker.disappeared s) = Some n
               /\ n < Tracker.max_disappeared s) ->
  exists s',
    for_each l Tracker.mark_disappeared s = Ok tt s'
    /\ Tracker.wf s'
    /\ Tracker.objects s' = Tracker.objects s
    /\ Tracker.next_id s' = Tracker.next_id s
    /\ Tracker.max_disappeared s' = Tracker.max_disappeared s
    /\ (forall k, k ∉ l ->
          dict_get k (Tracker.disappeared s')
          = dict_get k (Tracker.disappeared s))
    /\ (forall k n, k ∈ l -> dict_get k (Tracker.disappeared s) = Some n ->
          dict_get k (Tracker.disappeared s') = Some (n + 1)).
Proof.
  revert s. induction l as [|k l IH]; intros s Hwf Hnd Hin.
  - exists s. cbn [for_each]. split_and!; try done.
    intros k n Hk. by apply elem_of_nil in Hk.
  - apply NoDup_cons in Hnd as [Hk Hnd].
    destruct (Hin k) as (n & Hn & Hlt); [by left|].
    destruct (mark_disappeared_spec k n s Hwf Hn)
      as (s1 & Hstep & Hwf1 & Hid1 & Hm1 & _ & Hother1 & Hcase1).
    assert (Hb : (Tracker.max_disappeared s <? n + 1) = false)
      by (apply Z.ltb_ge; lia).
    rewrite Hb in Hcase1. destruct Hcase1 as [Hk1 Ho1].
    destruct (IH s1 Hwf1 Hnd)
      as (s' & Hloop & Hwf' & Ho' & Hid' & Hm' & Hother' & Hcase').
    { intros k' Hk'. assert (Hne : k' <> k) by (by intros ->).
      destruct (Hother1 k' Hne) as [Hsame _].
      destruct (Hin k') as (n' & Hn' & Hlt'); [by right|].
      exists n'. rewrite Hsame, Hm1. done. }
    exists s'. cbn [for_each]. unfold bind. rewrite Hstep.
    split_and!; try done; try congruence.
    + intros k0 Hk0. apply not_elem_of_cons in Hk0 as [Hne Hk0].
      rewrite (Hother' k0 Hk0). by apply Hother1.
    + intros k0 n0 Hk0 Hn0. apply elem_of_cons in Hk0 as [->|Hk0].
      * assert (n0 = n) as -> by congruence.
        by rewrite (Hother' k Hk).
      * assert (Hne : k0 <> k) by (by intros ->).
        destruct (Hother1 k0 Hne) as [Hsd _].
        apply Hcase'; [done|]. by rewrite Hsd.
Qed.

(** X28.  A person the detector has lost is still reported: when an
    iteration has no detection at all and no track has used up its
    [max_disappeared] missing frames, [_detect_person_feet] returns every
    person of the previous snapshot again, feet and centroid as last seen;
    the tracks are untouched and each counter of missing frames goes up by
    one. *)
Theorem lost_person_is_still_reported (self : RobustLavaServer) :
  Tracker.wf (tracker self) ->
  (forall pid n,
     dict_get pid (Tracker.disappeared (tracker self)) = Some n ->
     n < Tracker.max_disappeared (tracker self)) ->
  exists self',
    _detect_person_feet [] self
    = Ok (map (person_data self) (Tracker.objects (tracker self))) self'
    /\ Tracker.objects (tracker self') = Tracker.objects (tracker self)
    /\ forall pid n,
         dict_get pid (Tracker.disappeared (tracker self)) = Some n ->
         dict_get pid (Tracker.disappeared (tracker self')) = Some (n + 1).
Proof.
  intros Hwf Hlt. pose proof Hwf as (Hkeys & Hnd & _).
  destruct (age_all_kept (dict_keys (Tracker.disappeared (tracker self)))
              (tracker self) Hwf)
    as (t' & Hloop & Hwf' & Ho & _ & _ & _ & Hcase).
  { by rewrite Hkeys. }
  { intros k Hk.
    destruct (dict_get_is_Some k _ Hk) as [n Hn]. exists n.
    split; [done|]. by apply (Hlt k). }
  exists (set_tracker t' self).
  unfold _detect_person_feet, Tracker.update. cbn [length Nat.eqb].
  unfold bind, gets. rewrite Hloop. cbn [tracker set_tracker].
  split_and!.
  - f_equal. rewrite Ho. apply map_ext. intros item.
    by apply person_data_mapper.
  - done.
  - intros pid n Hn. apply Hcase; [|done]. by apply dict_get_elem_of with n.
Qed.

(** ** The server: the detector of the repository *)

(** With no track and no detection, an iteration reports nobody, queues
    no event, and leaves tracker and collision flag alone; only the demo
    fill can make it raise. *)
Lemma tick_nobody (current_time : Q) (event_ms : Z) (now : Q)
    (rand : nat -> Z) (self : RobustLavaServer) :
  Tracker.objects (tracker self) = [] ->
  Tracker.disappeared (tracker self) = [] ->
  match tick [] current_time event_ms now rand self with
  | Ok (persons, events) _ => persons = [] /\ events = []
  | Raise e _ => e = ValueError
  end
  /\ tracker (final (tick [] current_time event_ms now rand self))
     = tracker self
  /\ collision_detected (final (tick [] current_time event_ms now rand self))
     = collision_detected self.
Proof.
  intros Ho Hd. rewrite tick_steps. cbv zeta.
  assert (Hu : Tracker.update [] (tracker self) = Ok [] (tracker self)).
  { unfold Tracker.update. cbn [length Nat.eqb]. unfold bind, gets.
    rewrite Hd. cbn [dict_keys map for_each]. unfold ret. by rewrite Ho. }
  rewrite Hu. cbn [map].
  unfold _check_lava_collisions. cbn [fold_left fst snd].
  match goal with |- context [_maybe_demo_tiles now rand ?s] =>
    destruct (maybe_demo_tiles_shape now rand s) as (tiles & time & Hshape);
    destruct (_maybe_demo_tiles now rand s) as [[] s4|e s4] eqn:E
  end; cbn [final] in *; rewrite Hshape.
  - done.
  - split; [|done]. by apply maybe_demo_tiles_raise in E.
Qed.

Lemma perform_stub_inv (a : action) (self : RobustLavaServer) :
  uses_stub a ->
  Tracker.objects (tracker self) = []
  /\ Tracker.disappeared (tracker self) = []
  /\ collision_detected self = false ->
  Tracker.objects (tracker (perform a self)) = []
  /\ Tracker.disappeared (tracker (perform a self)) = []
  /\ collision_detected (perform a self) = false.
Proof.
  intros Hstub (Ho & Hd & Hc).
  destruct a as [c|c|data|dets t ms now rand|]; cbn [perform].
  - done.
  - done.
  - destruct (handle_message_shape data self)
      as (tiles & active & detected & msg & -> & _ & Hdet).
    cbn [tracker collision_detected set_lava_tiles set_collision
         set_game_active].
    split_and!; try done. destruct Hdet; congruence.
  - cbn [uses_stub] in Hstub. unfold PoseTracker.process in Hstub.
    subst dets.
    destruct (tick_nobody t ms now rand self Ho Hd) as (_ & -> & ->).
    done.
  - unfold space_key. by rewrite Hc.
Qed.

(** X29.  A server fed by the detector of the repository never sees
    anyone: [PoseTracker.process] returns no detection for any frame, so
    after any history of such a server the tracker holds no track and the
    collision flag is off, and an iteration of the loop returns a snapshot
    without persons and without events - or raises [ValueError] from the
    demo fill, never anything else. *)
Theorem stub_detector_reports_nobody {Frame : Type}
    (n_rows n_cols : Z) (enabled : bool) (interval : Q) (tiles_num : Z)
    (mapper0 : RobustMapping.RobustPixelToGridMapper)
    (consecutive_frames clear_frames : Z) (history : list action)
    (frame : Frame) (current_time : Q) (event_ms : Z) (now : Q)
    (rand : nat -> Z) :
  Forall uses_stub history ->
  let self :=
    perform_all history
      (init n_rows n_cols enabled interval tiles_num mapper0
         consecutive_frames clear_frames) in
  Tracker.objects (tracker self) = []
  /\ collision_detected self = false
  /\ match tick (PoseTracker.process frame) current_time event_ms now rand
             self with
     | Ok (persons, events) _ => persons = [] /\ events = []
     | Raise e _ => e = ValueError
     end.
Proof.
  intros Hall. cbv zeta.
  assert (Hinv : forall s,
            Tracker.objects (tracker s) = []
            /\ Tracker.disappeared (tracker s) = []
            /\ collision_detected s = false ->
            Tracker.objects (tracker (perform_all history s)) = []
            /\ Tracker.disappeared (tracker (perform_all history s)) = []
            /\ collision_detected (perform_all history s) = false).
  { induction Hall as [|a l Ha Hl IH]; intros s Hs; [done|].
    unfold perform_all in *. cbn [fold_left]. apply IH.
    by apply perform_stub_inv. }
  destruct (Hinv (init n_rows n_cols enabled interval tiles_num mapper0
                    consecutive_frames clear_frames)) as (Ho & Hd & Hc);
    [done|].
  split; [done|]. split; [done|].
  unfold PoseTracker.process.
  by destruct (tick_nobody current_time event_ms now rand _ Ho Hd) as [? _].
Qed.

End ServerPersons.

Section ServerPersonsExamples.
Import RobustServer.
Local Existing Instance ascending_order.

(** Two persons in front of the calibrated server. *)
Lemma snapshot_lists_live_tracks_witness :
  exists persons events self',
    tick two_persons 10 10000 10 (fun _ => 0) lava_server
    = Ok (persons, events) self'
    /\ NoDup (map person_id persons).
Proof.
  destruct (tick two_persons 10 10000 10 (fun _ => 0) lava_server)
    as [[persons events] self'|e self'] eqn:E;
    [|vm_compute in E; discriminate].
  exists persons, events, self'. split; [done|].
  by destruct (snapshot_lists_live_tracks 8 8 false 2 6
                 (robust_identity_mapper 8 8) 1 2
                 [Connect 0%nat;
                  Message (tile_update [JList [JInt 0; JInt 0]])]
                 two_persons 10 10000 10 (fun _ => 0) persons events self' E)
    as (_ & _ & ? & _).
Defined.

(** Two persons seen once by a tracker that keeps a track for thirty
    missing frames, then an empty frame. *)
Lemma lost_person_is_still_reported_witness :
  exists self',
    _detect_person_feet []
      (set_tracker (Tracker.run [two_persons] (Tracker.init 30 50))
         lava_server)
    = Ok (map (person_data lava_server)
            (Tracker.objects
               (Tracker.run [two_persons] (Tracker.init 30 50)))) self'.
Proof.
  destruct (lost_person_is_still_reported
              (set_tracker (Tracker.run [two_persons] (Tracker.init 30 50))
                 lava_server)) as (self' & Heq & _).
  - apply perform_all_tracker_inv_run.
  - intros pid n. vm_compute.
    destruct pid as [|[]|]; intros [= <-]; reflexivity.
  - by exists self'.
Defined.

(** A client that connects and marks a tile, then two iterations. *)
Lemma stub_detector_reports_nobody_witness :
  collision_detected
    (perform_all
       [Connect 0%nat; Message (tile_update [JList [JInt 0; JInt 0]]);
        Tick [] 1 1000 1 (fun _ => 0); Tick [] 2 2000 2 (fun _ => 0)]
       (init 8 8 true 2 6 (robust_identity_mapper 8 8) 3 2)) = false.
Proof.
  assert (Hall : Forall uses_stub
                   [Connect 0%nat;
                    Message (tile_update [JList [JInt 0; JInt 0]]);
                    Tick [] 1 1000 1 (fun _ => 0);
                    Tick [] 2 2000 2 (fun _ => 0)]).
  { repeat constructor. }
  by destruct (stub_detector_reports_nobody (Frame := unit) 8 8 true 2 6
                 (robust_identity_mapper 8 8) 3 2 _ tt 0 0 0 (fun _ => 0)
                 Hall) as (_ & ? & _).
Defined.

End ServerPersonsExamples.
